(** * Call/usage resolution engine of [create_dataset/find_usages]

    A shallow embedding of

    - [create_dataset/find_usages/modified_handle_local_syntax_directed_typing_constraints.py]
      (the syntax-directed constraint propagation callback), and
    - [create_dataset/find_usages/__main__.py]
      (the per-node term store [node_runtime_terms], the import loop and the
      per-module analysis loop),

    together with the properties of the engine that are stated about them.

    Python objects compared and hashed by identity (AST nodes, live classes,
    live functions, modules) are represented by their identity, a [positive].
    The dictionary [node_runtime_terms] is a [gmap] from node identities to
    [gset]s of runtime terms; what is printed on standard output is a list of
    call-site records, in printing order. *)

From Stdlib Require Import ZArith DecimalString.
From stdpp Require Import gmap strings list sets.

Local Open Scope string_scope.
Local Open Scope Z_scope.

(** ** Runtime terms ([type_definitions]) *)

(** Identity of an [ast.AST] object (nodes hash and compare by identity). *)
Abbreviation node := positive.

(** Identity of a live runtime object (module, class, callable). *)
Abbreviation pyobj := positive.

(** The classes the engine names in its own source text: the types of
    literal values, [str], [list], [tuple], [set], [dict] and
    [collections.abc.Generator]. *)
Inductive host_class : Type :=
  | c_int | c_float | c_complex | c_str | c_bytes | c_bool
  | c_NoneType | c_ellipsis
  | c_list | c_tuple | c_set | c_dict | c_Generator.

(** [RuntimeClass] is [type]: any live class object. *)
Inductive RuntimeClass : Type :=
  | HostClass (c : host_class)
  | LiveClass (o : pyobj).

Record Instance : Type := mkInstance { class_ : RuntimeClass }.

(** [Function = FunctionDefinition | UnwrappedRuntimeFunction]: a function
    definition node of the analysed source, or a live unwrapped callable. *)
Inductive Function : Type :=
  | FunctionDefinition (n : node)
  | UnwrappedRuntimeFunction (f : pyobj).

Inductive RuntimeTerm : Type :=
  | TModule (m : pyobj)
  | TRuntimeClass (c : RuntimeClass)
  | TInstance (i : Instance)
  | TFunction (f : Function)
  | TUnboundMethod (cls : RuntimeClass) (function : Function)
  | TBoundMethod (instance : Instance) (function : Function).

Global Instance host_class_eq_dec : EqDecision host_class.
Proof. solve_decision. Defined.
Global Instance RuntimeClass_eq_dec : EqDecision RuntimeClass.
Proof. solve_decision. Defined.
Global Instance Instance_eq_dec : EqDecision Instance.
Proof. solve_decision. Defined.
Global Instance Function_eq_dec : EqDecision Function.
Proof. solve_decision. Defined.
Global Instance RuntimeTerm_eq_dec : EqDecision RuntimeTerm.
Proof. solve_decision. Defined.

Definition host_class_index (c : host_class) : nat :=
  match c with
  | c_int => 0 | c_float => 1 | c_complex => 2 | c_str => 3 | c_bytes => 4
  | c_bool => 5 | c_NoneType => 6 | c_ellipsis => 7 | c_list => 8
  | c_tuple => 9 | c_set => 10 | c_dict => 11 | c_Generator => 12
  end%nat.

Definition host_class_of_index (n : nat) : host_class :=
  match n with
  | 0 => c_int | 1 => c_float | 2 => c_complex | 3 => c_str | 4 => c_bytes
  | 5 => c_bool | 6 => c_NoneType | 7 => c_ellipsis | 8 => c_list
  | 9 => c_tuple | 10 => c_set | 11 => c_dict | _ => c_Generator
  end%nat.

Global Instance host_class_countable : Countable host_class.
Proof.
  refine (inj_countable' host_class_index host_class_of_index _).
  intros c; destruct c; reflexivity.
Defined.

Global Instance RuntimeClass_countable : Countable RuntimeClass.
Proof.
  refine (inj_countable'
    (fun c => match c with HostClass h => inl h | LiveClass o => inr o end)
    (fun s => match s with inl h => HostClass h | inr o => LiveClass o end) _).
  intros c; destruct c; reflexivity.
Defined.

Global Instance Instance_countable : Countable Instance.
Proof.
  refine (inj_countable' class_ mkInstance _).
  intros i; destruct i; reflexivity.
Defined.

Global Instance Function_countable : Countable Function.
Proof.
  refine (inj_countable'
    (fun f => match f with
              | FunctionDefinition n => inl n
              | UnwrappedRuntimeFunction o => inr o
              end)
    (fun s => match s with
              | inl n => FunctionDefinition n
              | inr o => UnwrappedRuntimeFunction o
              end) _).
  intros f; destruct f; reflexivity.
Defined.

Global Instance RuntimeTerm_countable : Countable RuntimeTerm.
Proof.
  refine (inj_countable'
    (fun t => match t with
              | TModule m => inl (inl m)
              | TRuntimeClass c => inl (inr c)
              | TInstance i => inr (inl (inl i))
              | TFunction f => inr (inl (inr f))
              | TUnboundMethod c f => inr (inr (inl (c, f)))
              | TBoundMethod i f => inr (inr (inr (i, f)))
              end)
    (fun s => match s with
              | inl (inl m) => TModule m
              | inl (inr c) => TRuntimeClass c
              | inr (inl (inl i)) => TInstance i
              | inr (inl (inr f)) => TFunction f
              | inr (inr (inl (c, f))) => TUnboundMethod c f
              | inr (inr (inr (i, f))) => TBoundMethod i f
              end) _).
  intros t; destruct t; reflexivity.
Defined.

(** ** Syntax trees ([ast]) *)

(** The value carried by an [ast.Constant].  Only its runtime type matters
    to the engine, so floating-point, complex and bytes payloads are left
    out. *)
Inductive constant : Type :=
  | CInt (z : Z)
  | CFloat
  | CComplex
  | CStr (s : string)
  | CBytes
  | CBool (b : bool)
  | CNone
  | CEllipsis.

(** [type(value)] for the value of a constant. *)
Definition type_of_constant (v : constant) : RuntimeClass :=
  match v with
  | CInt _ => HostClass c_int
  | CFloat => HostClass c_float
  | CComplex => HostClass c_complex
  | CStr _ => HostClass c_str
  | CBytes => HostClass c_bytes
  | CBool _ => HostClass c_bool
  | CNone => HostClass c_NoneType
  | CEllipsis => HostClass c_ellipsis
  end.

(** The node classes the callback tells apart, each with the fields the
    callback reads.  Child nodes are used by the callback as dictionary
    keys only, hence they are kept by identity. *)
Inductive ast_kind : Type :=
  | ast_Module
  | ast_Constant (value : constant)
  | ast_JoinedStr
  | ast_List
  | ast_Tuple
  | ast_Set
  | ast_Dict
  | ast_Call (func : node)
  | ast_Attribute (value : node) (attr : string)
  | ast_NamedExpr (target value : node)
  | ast_ListComp
  | ast_SetComp
  | ast_GeneratorExp
  | ast_DictComp
  | ast_Assign (targets : list node) (value : node)
  | ast_AnnAssign (target annotation : node) (value : option node)
  | ast_FunctionDef (name : string)
  | ast_AsyncFunctionDef (name : string)
  | ast_Lambda
  | ast_ClassDef (name : string)
  | ast_Other.

(** An AST node: its identity, its position attributes (absent on
    [ast.Module]) and its class with fields. *)
Record ast : Type := mkAst {
  nid : node;
  lineno : option Z;
  end_lineno : option Z;
  kind : ast_kind
}.

(** [getattr(n, 'name', None)]: [FunctionDef], [AsyncFunctionDef] and
    [ClassDef] nodes carry a [name]; modules, lambdas and comprehensions do
    not. *)
Definition getattr_name (n : ast) : option string :=
  match kind n with
  | ast_FunctionDef name | ast_AsyncFunctionDef name | ast_ClassDef name =>
      Some name
  | _ => None
  end.

(** Modelled from the spec: [NodeProvidingScope] of
    [scoped_evaluation_order_node_visitor] is not part of the sources at
    hand; the scope stack handed to the callback holds the enclosing
    scope-providing ancestor nodes (module, class, function, lambda,
    comprehension), outermost first. *)
Abbreviation NodeProvidingScope := ast.

(** ** The live runtime, as far as the engine looks at it *)

(** Attribute reads on live objects, the reflection calls of [inspect], and
    the helper modules of the tool that are consulted by the callback
    ([get_unwrapped_constructor], [get_comprehensive_dict_for_runtime_class],
    [unwrap], [get_attribute_access_result]). *)
Record Runtime : Type := mkRuntime {
  (** [cls.__module__] and [cls.__name__] *)
  class_module : RuntimeClass -> option string;
  class_name : RuntimeClass -> string;
  (** [f.__module__] and [f.__name__] *)
  function_module : pyobj -> option string;
  function_name : pyobj -> string;
  (** [inspect.getsourcelines(f)]: the source lines and the first line *)
  getsourcelines : pyobj -> list string * Z;
  (** [str(inspect.signature(f))] *)
  signature_of : pyobj -> string;
  get_unwrapped_constructor : RuntimeClass -> pyobj;
  get_comprehensive_dict_for_runtime_class : RuntimeClass -> gmap string pyobj;
  unwrap : pyobj -> pyobj;
  get_attribute_access_result :
    RuntimeTerm -> string -> gmap pyobj node -> option RuntimeTerm
}.

(** ** Call-site records and standard output *)

Record call_site_record : Type := mkRecord {
  callee_module_name : string;
  callee_class_name : string;
  callee_function_name : string;
  start_line : Z;
  end_line : Z;
  caller_module_name : string;
  caller_function_name : option string;
  call_line : option Z;
  caller_function_start : option Z;
  caller_function_end : option Z;
  signature : string
}.

Global Instance call_site_record_eq_dec : EqDecision call_site_record.
Proof. solve_decision. Defined.

(** [str(z)] for an integer. *)
Definition str_of_int (z : Z) : string := NilZero.string_of_int (Z.to_int z).

(** How an f-string shows an optional value. *)
Definition str_of_optional_str (o : option string) : string :=
  match o with Some s => s | None => "None" end.

Definition str_of_optional_int (o : option Z) : string :=
  match o with Some z => str_of_int z | None => "None" end.

(** The character that encloses the signature column. *)
Definition double_quote : string := String (Ascii.ascii_of_nat 34) EmptyString.

(** The line printed for a record (line 178 of the callback). *)
Definition render (r : call_site_record) : string :=
  callee_module_name r ++ "," ++ callee_class_name r ++ "," ++
  callee_function_name r ++ "," ++ str_of_int (start_line r) ++ "," ++
  str_of_int (end_line r) ++ "," ++ caller_module_name r ++ "," ++
  str_of_optional_str (caller_function_name r) ++ "," ++
  str_of_optional_int (call_line r) ++ "," ++
  str_of_optional_int (caller_function_start r) ++ "," ++
  str_of_optional_int (caller_function_end r) ++ "," ++
  double_quote ++ signature r ++ double_quote.

(** ** The stateful section of [__main__] *)

(** The exceptions that matter to the engine and to the loops of
    [__main__]. *)
Inductive exception : Type :=
  | ImportError
  | ModuleNotFoundError
  | UnicodeError
  | UnicodeDecodeError
  | UnicodeEncodeError
  | SyntaxError
  | RuntimeError
  | UnboundLocalError
  | OSError
  | OtherException (name : string).

(** What the program has changed so far: the dictionary
    [node_runtime_terms] and the records printed, oldest first. *)
Record state : Type := mkState {
  node_runtime_terms : gmap node (gset RuntimeTerm);
  stdout : list call_site_record
}.

(** A computation either completes or raises; what was stored and printed
    before an exception stays stored and printed. *)
Inductive outcome : Type :=
  | Done (s : state)
  | Raised (e : exception) (s : state).

Global Instance exception_eq_dec : EqDecision exception.
Proof. solve_decision. Defined.
Global Instance state_eq_dec : EqDecision state.
Proof. solve_decision. Defined.
Global Instance outcome_eq_dec : EqDecision outcome.
Proof. solve_decision. Defined.

Definition state_of (o : outcome) : state :=
  match o with Done s => s | Raised _ s => s end.

(** [node_runtime_terms.get(node_, set())] *)
Definition get_runtime_terms
    (terms : gmap node (gset RuntimeTerm)) (node_ : node) : gset RuntimeTerm :=
  default ∅ (terms !! node_).

(** [node_runtime_terms.setdefault(node_, set()).update(runtime_terms)] *)
Definition update_runtime_terms
    (node_ : node) (runtime_terms : gset RuntimeTerm)
    (terms : gmap node (gset RuntimeTerm)) : gmap node (gset RuntimeTerm) :=
  <[node_ := default ∅ (terms !! node_) ∪ runtime_terms]> terms.

Definition print (r : call_site_record) (s : state) : state :=
  {| node_runtime_terms := node_runtime_terms s; stdout := stdout s ++ [r] |}.

(** ** The constraint propagation callback *)

(** The four local variables of the [ast.Call] branch that are assigned
    before the loop over the callee's runtime terms (lines 95-97) or inside
    it ([callee_function] is unbound until first assigned). *)
Record callee_vars : Type := mkVars {
  var_callee_module_name : option string;
  var_callee_class_name : option string;
  var_callee_function_name : option string;
  var_callee_function : option pyobj
}.

(** Python truth value of an [Optional[str]]. *)
Definition truthy (o : option string) : bool :=
  match o with
  | Some s => bool_decide (s ≠ "")
  | None => false
  end.

Section Engine.

(** The parameters of
    [modified_handle_local_syntax_directed_typing_constraints]. *)
Variable R : Runtime.
Variable module_name : string.
Variable top_level_class_definitions_to_runtime_classes :
  gmap node RuntimeClass.
Variable unwrapped_runtime_functions_to_named_function_definitions :
  gmap pyobj node.
Variable named_function_definitions_to_unwrapped_runtime_functions :
  gmap node pyobj.
Variable node_to_definition_node_mapping : gmap node node.

(** [node_to_definition_node_mapping.get(node, node)] *)
Definition definition_node (n : node) : node :=
  default n (node_to_definition_node_mapping !! n).

Definition get_runtime_terms_of_definition_node
    (n : node) (s : state) : gset RuntimeTerm :=
  get_runtime_terms (node_runtime_terms s) (definition_node n).

Definition update_runtime_terms_of_definition_node
    (n : node) (runtime_terms : gset RuntimeTerm) (s : state) : state :=
  {| node_runtime_terms :=
       update_runtime_terms (definition_node n) runtime_terms
         (node_runtime_terms s);
     stdout := stdout s |}.

Definition update_runtime_terms_of_definition_node_from_runtime_class
    (n : node) (runtime_class : RuntimeClass) (s : state) : state :=
  update_runtime_terms_of_definition_node n
    {[ TInstance (mkInstance runtime_class) ]} s.

(** Lines 133-147 and 158-172: a method of class [cls] whose function is
    [function]. *)
Definition assign_method
    (cls : RuntimeClass) (function : Function) (cv : callee_vars)
    : callee_vars :=
  match function with
  | FunctionDefinition f =>
      match named_function_definitions_to_unwrapped_runtime_functions !! f with
      | Some unwrapped_runtime_function =>
          mkVars (class_module R cls) (Some (class_name R cls))
            (Some (function_name R unwrapped_runtime_function))
            (Some unwrapped_runtime_function)
      | None => cv
      end
  | UnwrappedRuntimeFunction f =>
      match unwrapped_runtime_functions_to_named_function_definitions !! f with
      | Some _ =>
          mkVars (class_module R cls) (Some (class_name R cls))
            (Some (function_name R f)) (Some f)
      | None => cv
      end
  end.

(** Lines 106-172 without the store update of line 116: the assignments
    to the callee variables made for one runtime term.  Where no branch
    condition holds the variables keep the values they had. *)
Definition assign_callee (runtime_term : RuntimeTerm) (cv : callee_vars)
    : callee_vars :=
  match runtime_term with
  | TRuntimeClass c =>
      let unwrapped_constructor := get_unwrapped_constructor R c in
      match unwrapped_runtime_functions_to_named_function_definitions
              !! unwrapped_constructor with
      | Some _ =>
          mkVars (class_module R c) (Some (class_name R c))
            (Some (function_name R unwrapped_constructor))
            (Some unwrapped_constructor)
      | None => cv
      end
  | TFunction (FunctionDefinition f) =>
      match named_function_definitions_to_unwrapped_runtime_functions !! f with
      | Some unwrapped_runtime_function =>
          mkVars (function_module R unwrapped_runtime_function)
            (Some "global")
            (Some (function_name R unwrapped_runtime_function))
            (Some unwrapped_runtime_function)
      | None => cv
      end
  | TFunction (UnwrappedRuntimeFunction f) =>
      match unwrapped_runtime_functions_to_named_function_definitions !! f with
      | Some _ =>
          mkVars (function_module R f) (Some "global")
            (Some (function_name R f)) (Some f)
      | None => cv
      end
  | TUnboundMethod cls function => assign_method cls function cv
  | TInstance i =>
      let runtime_term_class := class_ i in
      let runtime_term_class_dict :=
        get_comprehensive_dict_for_runtime_class R runtime_term_class in
      match runtime_term_class_dict !! "__call__" with
      | Some call =>
          let unwrapped_call := unwrap R call in
          match unwrapped_runtime_functions_to_named_function_definitions
                  !! unwrapped_call with
          | Some _ =>
              mkVars (class_module R runtime_term_class)
                (Some (class_name R runtime_term_class))
                (Some (function_name R unwrapped_call))
                (Some unwrapped_call)
          | None => cv
          end
      | None => cv
      end
  | TBoundMethod instance function =>
      assign_method (class_ instance) function cv
  | TModule _ => cv
  end.

(** Lines 115-119: a class among the callee's terms adds an instance of
    itself to the call node. *)
Definition add_instance (n : node) (runtime_term : RuntimeTerm) (s : state)
    : state :=
  match runtime_term with
  | TRuntimeClass c =>
      update_runtime_terms_of_definition_node n
        {[ TInstance (mkInstance c) ]} s
  | _ => s
  end.

(** The caller columns, computed once before the loop (lines 98-102). *)
Definition caller_name_of (scope_stack : list NodeProvidingScope)
    : option string :=
  match last scope_stack with
  | Some scope => getattr_name scope
  | None => None
  end.

Definition caller_start_of (scope_stack : list NodeProvidingScope)
    : option Z :=
  match last scope_stack with
  | Some scope => lineno scope
  | None => None
  end.

Definition caller_end_of (scope_stack : list NodeProvidingScope)
    : option Z :=
  match last scope_stack with
  | Some scope => end_lineno scope
  | None => None
  end.

(** The record built on lines 175-178 from the callee variables. *)
Definition record_of
    (callee_module callee_class callee_name : string)
    (callee_function : pyobj)
    (n : ast) (scope_stack : list NodeProvidingScope) : call_site_record :=
  let '(source_lines, start) := getsourcelines R callee_function in
  {| callee_module_name := callee_module;
     callee_class_name := callee_class;
     callee_function_name := callee_name;
     start_line := start;
     end_line := start + Z.of_nat (length source_lines) - 1;
     caller_module_name := module_name;
     caller_function_name := caller_name_of scope_stack;
     call_line := lineno n;
     caller_function_start := caller_start_of scope_stack;
     caller_function_end := caller_end_of scope_stack;
     signature := signature_of R callee_function |}.

(** Lines 174-178: the test at the end of every iteration of the loop.
    Reading [callee_function] while it is unbound raises. *)
Definition emit (cv : callee_vars) (n : ast)
    (scope_stack : list NodeProvidingScope) (s : state) : outcome :=
  if truthy (var_callee_module_name cv)
     && truthy (var_callee_class_name cv)
     && truthy (var_callee_function_name cv)
  then
    match var_callee_module_name cv, var_callee_class_name cv,
          var_callee_function_name cv, var_callee_function cv with
    | Some m, Some c, Some f, Some callee =>
        Done (print (record_of m c f callee n scope_stack) s)
    | _, _, _, _ => Raised UnboundLocalError s
    end
  else Done s.

(** The loop of lines 105-178 over the runtime terms of the callee, in
    the order [order] in which the set iterator yields them.  [iterated]
    is the content the iterated set had when the loop started: the
    iterator raises [RuntimeError] as soon as it is asked for the next
    element after the set object has grown, which happens when the call
    node and its callee share their definition node. *)
Fixpoint call_loop (n : ast) (func : node)
    (scope_stack : list NodeProvidingScope) (iterated : gset RuntimeTerm)
    (order : list RuntimeTerm) (cv : callee_vars) (s : state) : outcome :=
  if decide (get_runtime_terms_of_definition_node func s = iterated) then
    match order with
    | [] => Done s
    | runtime_term :: rest =>
        let cv' := assign_callee runtime_term cv in
        match emit cv' n scope_stack (add_instance (nid n) runtime_term s) with
        | Done s' => call_loop n func scope_stack iterated rest cv' s'
        | Raised e s' => Raised e s'
        end
    end
  else Raised RuntimeError s.

Definition unset_callee_vars : callee_vars := mkVars None None None None.

(** Lines 180-195: the attribute access results of the terms of
    [value], gathered in a fresh set. *)
Definition attribute_access_results (attr : string)
    (order : list RuntimeTerm) : gset RuntimeTerm :=
  list_to_set
    (omap (fun runtime_term =>
             get_attribute_access_result R runtime_term attr
               unwrapped_runtime_functions_to_named_function_definitions)
          order).

(** Lines 225-234: [itertools.pairwise] over the reversed chain. *)
Fixpoint pairwise {A : Type} (l : list A) : list (A * A) :=
  match l with
  | x :: (y :: _) as tl => (x, y) :: pairwise tl
  | _ => []
  end.

Definition transfer (s : state) (p : node * node) : state :=
  let '(value, target) := p in
  update_runtime_terms_of_definition_node target
    (get_runtime_terms_of_definition_node value s) s.

(** The set a node's rule iterates over with a [for] loop, if any. *)
Definition iterated_set (n : ast) (s : state) : gset RuntimeTerm :=
  match kind n with
  | ast_Call func => get_runtime_terms_of_definition_node func s
  | ast_Attribute value _ => get_runtime_terms_of_definition_node value s
  | _ => ∅
  end.

(** [handle_local_syntax_directed_typing_constraints_callback], with the
    order in which the set iterated by the rule (if any) yields its
    elements. *)
Definition handle_local_syntax_directed_typing_constraints_callback
    (order : list RuntimeTerm)
    (n : ast) (scope_stack : list NodeProvidingScope) (s : state)
    : outcome :=
  match kind n with
  | ast_Constant value =>
      Done (update_runtime_terms_of_definition_node_from_runtime_class
              (nid n) (type_of_constant value) s)
  | ast_JoinedStr =>
      Done (update_runtime_terms_of_definition_node_from_runtime_class
              (nid n) (HostClass c_str) s)
  | ast_List =>
      Done (update_runtime_terms_of_definition_node_from_runtime_class
              (nid n) (HostClass c_list) s)
  | ast_Tuple =>
      Done (update_runtime_terms_of_definition_node_from_runtime_class
              (nid n) (HostClass c_tuple) s)
  | ast_Set =>
      Done (update_runtime_terms_of_definition_node_from_runtime_class
              (nid n) (HostClass c_set) s)
  | ast_Dict =>
      Done (update_runtime_terms_of_definition_node_from_runtime_class
              (nid n) (HostClass c_dict) s)
  | ast_Call func =>
      call_loop n func scope_stack
        (get_runtime_terms_of_definition_node func s)
        order unset_callee_vars s
  | ast_Attribute value attr =>
      Done (update_runtime_terms_of_definition_node (nid n)
              (attribute_access_results attr order) s)
  | ast_NamedExpr target value =>
      Done (transfer s (value, target))
  | ast_ListComp =>
      Done (update_runtime_terms_of_definition_node_from_runtime_class
              (nid n) (HostClass c_list) s)
  | ast_SetComp =>
      Done (update_runtime_terms_of_definition_node_from_runtime_class
              (nid n) (HostClass c_set) s)
  | ast_GeneratorExp =>
      Done (update_runtime_terms_of_definition_node_from_runtime_class
              (nid n) (HostClass c_Generator) s)
  | ast_DictComp =>
      Done (update_runtime_terms_of_definition_node_from_runtime_class
              (nid n) (HostClass c_dict) s)
  | ast_Assign targets value =>
      Done (fold_left transfer (pairwise (rev (targets ++ [value]))) s)
  | ast_AnnAssign target _ value =>
      match value with
      | Some value => Done (transfer s (value, target))
      | None => Done s
      end
  | ast_FunctionDef _ | ast_AsyncFunctionDef _ | ast_Lambda =>
      Done (update_runtime_terms_of_definition_node (nid n)
              {[ TFunction (FunctionDefinition (nid n)) ]} s)
  | ast_ClassDef _ =>
      match top_level_class_definitions_to_runtime_classes !! nid n with
      | Some runtime_class =>
          Done (update_runtime_terms_of_definition_node (nid n)
                  {[ TRuntimeClass runtime_class ]} s)
      | None => Done s
      end
  | ast_Module | ast_Other => Done s
  end.

(** A [for] loop over a set may yield its elements in any order. *)
Definition iteration_order (n : ast) (s : state) (order : list RuntimeTerm)
    : Prop :=
  order ≡ₚ elements (iterated_set n s).

(** One invocation of the callback by the visitor. *)
Inductive callback_runs (n : ast) (scope_stack : list NodeProvidingScope)
    (s : state) : outcome -> Prop :=
  | callback_runs_with (order : list RuntimeTerm) :
      iteration_order n s order ->
      callback_runs n scope_stack s
        (handle_local_syntax_directed_typing_constraints_callback
           order n scope_stack s).

(** Modelled from the spec: [scoped_evaluation_order_node_visitor] is not
    part of the sources at hand; it invokes the callback once for every
    node of the module, in evaluation order, with the stack of enclosing
    scope-providing nodes.  A pass is therefore driven by the sequence of
    these invocations. *)
Definition visit : Type := ast * list NodeProvidingScope.

Inductive pass_runs : list visit -> state -> outcome -> Prop :=
  | pass_end s : pass_runs [] s (Done s)
  | pass_visit n scope_stack visits s s' o :
      callback_runs n scope_stack s (Done s') ->
      pass_runs visits s' o ->
      pass_runs ((n, scope_stack) :: visits) s o
  | pass_raise n scope_stack visits s e s' :
      callback_runs n scope_stack s (Raised e s') ->
      pass_runs ((n, scope_stack) :: visits) s (Raised e s').

(** [modified_handle_local_syntax_directed_typing_constraints] as a
    function, every set being iterated in the order of [elements]. *)
Fixpoint modified_handle_local_syntax_directed_typing_constraints
    (visits : list visit) (s : state) : outcome :=
  match visits with
  | [] => Done s
  | (n, scope_stack) :: rest =>
      match handle_local_syntax_directed_typing_constraints_callback
              (elements (iterated_set n s)) n scope_stack s with
      | Done s' =>
          modified_handle_local_syntax_directed_typing_constraints rest s'
      | Raised e s' => Raised e s'
      end
  end.

End Engine.

(** ** The loops of [__main__] *)

(** [s.endswith(suffix)] *)
Definition endswith (s suffix : string) : bool :=
  let n := String.length s in
  let m := String.length suffix in
  if (m <=? n)%nat then String.eqb (String.substring (n - m) m s) suffix else false.

(** The [except (ImportError, UnicodeError)] clause of line 75 catches the
    instances of these two classes, hence also those of their subclasses.
    [OtherException] stands for any class that derives from neither. *)
Definition caught_by_import_handler (e : exception) : bool :=
  match e with
  | ImportError | ModuleNotFoundError
  | UnicodeError | UnicodeDecodeError | UnicodeEncodeError => true
  | SyntaxError | RuntimeError | UnboundLocalError | OSError
  | OtherException _ => false
  end.

(** [d[k] = v] on a dictionary, which keeps insertion order. *)
Fixpoint dict_set {V : Type} (k : string) (v : V) (d : list (string * V))
    : list (string * V) :=
  match d with
  | [] => [(k, v)]
  | (k', v') :: d' =>
      if String.eqb k k' then (k, v) :: d' else (k', v') :: dict_set k v d'
  end.

(** Line 66: the files the import loop passes over. *)
Definition skipped (file_path : string) : bool :=
  endswith file_path "setup.py" || endswith file_path "__main__.py".

Section Main.

(** A parsed module tree and a live module. *)
Context {module_tree live_module : Type}.

(** Lines 69-72: reading and parsing the file and importing the module
    either give the tree and the live module, or raise. *)
Variable load : string -> string -> exception + (module_tree * live_module).

(** Lines 117-206: the body of the per-module analysis loop. *)
Variable analyse : string -> module_tree -> state -> outcome.

(** The two dictionaries filled by the import loop, and the module names
    passed to [logging.exception]. *)
Record import_tables : Type := mkTables {
  module_name_to_module_node : list (string * module_tree);
  module_name_to_module : list (string * live_module);
  logged : list string
}.

Definition no_tables : import_tables := mkTables [] [] [].

(** Lines 65-76. *)
Fixpoint import_loop (items : list (string * string)) (acc : import_tables)
    : exception + import_tables :=
  match items with
  | [] => inr acc
  | (module_name, file_path) :: rest =>
      if skipped file_path
      then import_loop rest acc
      else
        match load module_name file_path with
        | inr (module_node, module) =>
            import_loop rest
              (mkTables
                 (dict_set module_name module_node
                    (module_name_to_module_node acc))
                 (dict_set module_name module (module_name_to_module acc))
                 (logged acc))
        | inl e =>
            if caught_by_import_handler e
            then import_loop rest
                   (mkTables (module_name_to_module_node acc)
                      (module_name_to_module acc)
                      (logged acc ++ [module_name]))
            else inl e
        end
  end.

(** Lines 116-206: there is no [try] around the body. *)
Fixpoint analysis_loop (items : list (string * module_tree)) (s : state)
    : outcome :=
  match items with
  | [] => Done s
  | (module_name, module_node) :: rest =>
      match analyse module_name module_node s with
      | Done s' => analysis_loop rest s'
      | Raised e s' => Raised e s'
      end
  end.

(** The import loop followed by the analysis loop. *)
Definition main (items : list (string * string)) (s : state) : outcome :=
  match import_loop items no_tables with
  | inr tables => analysis_loop (module_name_to_module_node tables) s
  | inl e => Raised e s
  end.

(** The modules the import loop attempts: all but the special files. *)
Definition attempted (items : list (string * string))
    : list (string * string) :=
  filter (fun item => skipped item.2 = false) items.

End Main.

(** ** A whole run over several modules *)

(** What lines 117-195 hand to the pass for one module: the dummy
    definition nodes created for builtins, singletons, imports and the
    classes of the module, each with the term it is seeded with, the
    def-use map, and the visits of the module's nodes. *)
Record module_input : Type := mkModule {
  input_module_name : string;
  dummy_definition_nodes : list (node * RuntimeTerm);
  input_definition_mapping : gmap node node;
  input_visits : list (ast * list NodeProvidingScope)
}.

(** [update_runtime_terms(dummy_definition_node, {runtime_term})] for every
    dummy definition node. *)
Definition seed_dummy_definition_nodes
    (dummies : list (node * RuntimeTerm)) (s : state) : state :=
  fold_left
    (fun s d =>
       {| node_runtime_terms :=
            update_runtime_terms d.1 {[ d.2 ]} (node_runtime_terms s);
          stdout := stdout s |})
    dummies s.

Section WholeRun.

Variable R : Runtime.
Variable top_level_class_definitions_to_runtime_classes :
  gmap node RuntimeClass.
Variable unwrapped_runtime_functions_to_named_function_definitions :
  gmap pyobj node.
Variable named_function_definitions_to_unwrapped_runtime_functions :
  gmap node pyobj.

(** One iteration of the loop of lines 116-206. *)
Definition module_runs (m : module_input) (s : state) (o : outcome) : Prop :=
  pass_runs R (input_module_name m)
    top_level_class_definitions_to_runtime_classes
    unwrapped_runtime_functions_to_named_function_definitions
    named_function_definitions_to_unwrapped_runtime_functions
    (input_definition_mapping m) (input_visits m)
    (seed_dummy_definition_nodes (dummy_definition_nodes m) s) o.

Inductive run_modules : list module_input -> state -> outcome -> Prop :=
  | run_end s : run_modules [] s (Done s)
  | run_module m rest s s' o :
      module_runs m s (Done s') ->
      run_modules rest s' o ->
      run_modules (m :: rest) s o
  | run_raise m rest s e s' :
      module_runs m s (Raised e s') ->
      run_modules (m :: rest) s (Raised e s').

End WholeRun.

(** ** Vocabulary of the properties *)

(** Every node has at least the terms it had. *)
Definition terms_grow (s s' : state) : Prop :=
  forall m : node,
    get_runtime_terms (node_runtime_terms s) m
    ⊆ get_runtime_terms (node_runtime_terms s') m.

(** The test of line 174 on the three name variables. *)
Definition names_truthy (cv : callee_vars) : bool :=
  truthy (var_callee_module_name cv)
  && truthy (var_callee_class_name cv)
  && truthy (var_callee_function_name cv).

(** The record that lines 174-178 print for given values of the callee
    variables, if they print one. *)
Definition record_of_vars (R : Runtime) (module_name : string)
    (cv : callee_vars) (n : ast) (scope_stack : list NodeProvidingScope)
    : option call_site_record :=
  if names_truthy cv then
    match var_callee_module_name cv, var_callee_class_name cv,
          var_callee_function_name cv, var_callee_function cv with
    | Some m, Some c, Some f, Some callee =>
        Some (record_of R module_name m c f callee n scope_stack)
    | _, _, _, _ => None
    end
  else None.

(** The callee variables are either all untouched or [callee_function] is
    bound: every branch of the loop assigns the four of them together. *)
Definition callee_bound (cv : callee_vars) : Prop :=
  cv = unset_callee_vars \/ is_Some (var_callee_function cv).

(** Two states that store the same terms and have printed the same set of
    records. *)
Definition same_terms_and_records (s1 s2 : state) : Prop :=
  node_runtime_terms s1 = node_runtime_terms s2
  /\ forall r : call_site_record, r ∈ stdout s1 <-> r ∈ stdout s2.

(** No visited call node shares its definition node with its callee.  The
    def-use map redirects uses of names to their definitions, and a call is
    not a name. *)
Definition calls_apart (dmap : gmap node node)
    (visits : list (ast * list NodeProvidingScope)) : Prop :=
  Forall
    (fun v : ast * list NodeProvidingScope =>
       match kind v.1 with
       | ast_Call func =>
           definition_node dmap (nid v.1) ≠ definition_node dmap func
       | _ => True
       end)
    visits.

(** The store updates of the loop over the callee's terms, without its
    printing: line 116 for every class among [order]. *)
Definition add_instances (dmap : gmap node node) (n : node)
    (order : list RuntimeTerm) (s : state) : state :=
  fold_left (fun s t => add_instance dmap n t s) order s.

(** The record a runtime term gives rise to by itself, that is with the
    callee variables unset before its iteration. *)
Definition own_record (R : Runtime) (module_name : string)
    (u2n : gmap pyobj node) (n2u : gmap node pyobj)
    (n : ast) (scope_stack : list NodeProvidingScope) (t : RuntimeTerm)
    : option call_site_record :=
  record_of_vars R module_name (assign_callee R u2n n2u t unset_callee_vars)
    n scope_stack.

(** The class whose instance the rule of a literal, display or
    comprehension node records (lines 65-89 and 205-221). *)
Definition literal_class (k : ast_kind) : option RuntimeClass :=
  match k with
  | ast_Constant value => Some (type_of_constant value)
  | ast_JoinedStr => Some (HostClass c_str)
  | ast_List | ast_ListComp => Some (HostClass c_list)
  | ast_Tuple => Some (HostClass c_tuple)
  | ast_Set | ast_SetComp => Some (HostClass c_set)
  | ast_Dict | ast_DictComp => Some (HostClass c_dict)
  | ast_GeneratorExp => Some (HostClass c_Generator)
  | _ => None
  end.

(** The nodes through which the rule of a node may update the store: the
    first argument of every call of
    [update_runtime_terms_of_definition_node] in its branch. *)
Definition written_by (n : ast) : list node :=
  match kind n with
  | ast_NamedExpr target _ => [target]
  | ast_Assign targets _ => targets
  | ast_AnnAssign target _ (Some _) => [target]
  | ast_AnnAssign _ _ None | ast_Module | ast_Other => []
  | _ => [nid n]
  end.

(** ** Two runs of the program *)

(** The runtime of another run of the program over the same tree: every
    reader answers as in [R], but [str(inspect.signature(f))] is
    [signature_text f].  The text of a signature holds the [repr] of the
    default values, and the [repr] of an object that does not define one
    holds its address. *)
Definition with_signature (signature_text : pyobj -> string) (R : Runtime)
    : Runtime :=
  {| class_module := class_module R;
     class_name := class_name R;
     function_module := function_module R;
     function_name := function_name R;
     getsourcelines := getsourcelines R;
     signature_of := signature_text;
     get_unwrapped_constructor := get_unwrapped_constructor R;
     get_comprehensive_dict_for_runtime_class :=
       get_comprehensive_dict_for_runtime_class R;
     unwrap := unwrap R;
     get_attribute_access_result := get_attribute_access_result R |}.

(** A record without its last column. *)
Definition without_signature (r : call_site_record) : call_site_record :=
  {| callee_module_name := callee_module_name r;
     callee_class_name := callee_class_name r;
     callee_function_name := callee_function_name r;
     start_line := start_line r;
     end_line := end_line r;
     caller_module_name := caller_module_name r;
     caller_function_name := caller_function_name r;
     call_line := call_line r;
     caller_function_start := caller_function_start r;
     caller_function_end := caller_function_end r;
     signature := "" |}.

(** The signatures have the same text in both runs. *)
Definition signatures_agree (R : Runtime) (signature_text : pyobj -> string)
    : Prop :=
  forall f : pyobj, signature_text f = signature_of R f.

(** Two records that agree in every column but the signature, and in the
    signature too when the signatures have the same text in both runs. *)
Definition same_but_signature (R : Runtime) (signature_text : pyobj -> string)
    (r1 r2 : call_site_record) : Prop :=
  without_signature r1 = without_signature r2
  /\ (signatures_agree R signature_text -> r1 = r2).

(** Two states, one of each run, that store the same terms and have
    printed corresponding records in the same order. *)
Definition states_correspond (R : Runtime) (signature_text : pyobj -> string)
    (s1 s2 : state) : Prop :=
  node_runtime_terms s1 = node_runtime_terms s2
  /\ Forall2 (same_but_signature R signature_text) (stdout s1) (stdout s2).

Definition outcomes_correspond (R : Runtime) (signature_text : pyobj -> string)
    (o1 o2 : outcome) : Prop :=
  match o1, o2 with
  | Done s1, Done s2 => states_correspond R signature_text s1 s2
  | Raised e1 s1, Raised e2 s2 =>
      e1 = e2 /\ states_correspond R signature_text s1 s2
  | _, _ => False
  end.

(** ** The tables built by [__main__] around the pass *)

(** Lines 98-102: the dictionary comprehension that turns
    [unwrapped_runtime_functions_to_named_function_definitions] around,
    over its items in insertion order.  A later item replaces an earlier
    one that has the same function definition. *)
Definition invert_items (items : list (pyobj * node)) : gmap node pyobj :=
  fold_left (fun inverse item => <[item.2 := item.1]> inverse) items ∅.

(** Lines 191-195: the dictionary comprehension over the pairs of a
    definition node and its nodes that [use_define_mapping.itersets()]
    yields. *)
Definition node_to_definition_node_mapping_of
    (itersets : list (node * list node)) : gmap node node :=
  fold_left
    (fun mapping set =>
       fold_left (fun mapping n => <[n := set.1]> mapping) set.2 mapping)
    itersets ∅.

(** What the loops of lines 117-183 tell apart in a live object, after
    unwrapping: a module, a class, an unwrapped function, or anything
    else. *)
Inductive runtime_object : Type :=
  | ObjModule (m : pyobj)
  | ObjClass (c : RuntimeClass)
  | ObjFunction (f : pyobj)
  | ObjOther (o : pyobj).

(** The state of lines 117-183: the program state, the dictionary
    [names_to_dummy_definition_nodes], the identity that the next
    [ast.AST()] will have, and the imported names passed to
    [logging.error]. *)
Record preparation : Type := mkPreparation {
  prepared_state : state;
  names_to_dummy_definition_nodes : gmap string node;
  next_node : node;
  unmatched : list string
}.

(** The singletons of line 134 with [str(value)] and [type(value)];
    [NotImplementedType] is given, not being a class the engine names
    elsewhere. *)
Definition singletons (NotImplementedType : RuntimeClass)
    : list (string * RuntimeClass) :=
  [ ("True", HostClass c_bool);
    ("False", HostClass c_bool);
    ("Ellipsis", HostClass c_ellipsis);
    ("None", HostClass c_NoneType);
    ("NotImplemented", NotImplementedType) ].

Section Preparation.

Variable R : Runtime.
Variable module_name : string.
Variable unwrapped_runtime_functions_to_named_function_definitions :
  gmap pyobj node.

(** [unwrap] on any live object, and
    [runtime_term_of_unwrapped_runtime_function] of [type_definitions]. *)
Variable unwrap_object : runtime_object -> runtime_object.
Variable runtime_term_of_unwrapped_runtime_function : pyobj -> pyobj.
Variable NotImplementedType : RuntimeClass.

(** The four statements shared by the loops: a new [ast.AST()], its
    entry under [name], and its first term. *)
Definition add_dummy_definition_node (name : string) (t : RuntimeTerm)
    (p : preparation) : preparation :=
  let dummy_definition_node := next_node p in
  {| prepared_state :=
       {| node_runtime_terms :=
            update_runtime_terms dummy_definition_node {[ t ]}
              (node_runtime_terms (prepared_state p));
          stdout := stdout (prepared_state p) |};
     names_to_dummy_definition_nodes :=
       <[name := dummy_definition_node]> (names_to_dummy_definition_nodes p);
     next_node := Pos.succ dummy_definition_node;
     unmatched := unmatched p |}.

(** Lines 120-132, for one item of [builtins.__dict__]: the term of the
    dummy definition node, if the item gets one. *)
Definition builtin_term (item : string * runtime_object)
    : option (string * RuntimeTerm) :=
  let name := item.1 in
  if negb (String.prefix "_" name) then
    match unwrap_object item.2 with
    | ObjClass c => Some (name, TRuntimeClass c)
    | ObjFunction f =>
        Some (name,
              TFunction
                (UnwrappedRuntimeFunction
                   (runtime_term_of_unwrapped_runtime_function f)))
    | ObjModule _ | ObjOther _ => None
    end
  else None.

Definition handle_builtin (p : preparation) (item : string * runtime_object)
    : preparation :=
  match builtin_term item with
  | Some (name, t) => add_dummy_definition_node name t p
  | None => p
  end.

(** Lines 134-141. *)
Definition handle_singleton (p : preparation) (item : string * RuntimeClass)
    : preparation :=
  add_dummy_definition_node item.1 (TInstance (mkInstance item.2)) p.

(** Lines 144-158, for one imported name: its runtime term, or [None]. *)
Definition imported_term (runtime_object_ : runtime_object)
    : option RuntimeTerm :=
  match unwrap_object runtime_object_ with
  | ObjModule m => Some (TModule m)
  | ObjClass c => Some (TRuntimeClass c)
  | ObjFunction f =>
      let processed := runtime_term_of_unwrapped_runtime_function f in
      Some
        (match unwrapped_runtime_functions_to_named_function_definitions
                 !! processed with
         | Some named_function_definition =>
             TFunction (FunctionDefinition named_function_definition)
         | None => TFunction (UnwrappedRuntimeFunction processed)
         end)
  | ObjOther _ => None
  end.

(** Lines 144-170. *)
Definition handle_import (p : preparation) (item : string * runtime_object)
    : preparation :=
  match imported_term item.2 with
  | Some t => add_dummy_definition_node item.1 t p
  | None =>
      {| prepared_state := prepared_state p;
         names_to_dummy_definition_nodes := names_to_dummy_definition_nodes p;
         next_node := next_node p;
         unmatched := unmatched p ++ [item.1] |}
  end.

(** Lines 174-183, for one item of the module's [__dict__]: a class
    whose [__module__] is the module at hand. *)
Definition own_class_term (item : string * runtime_object)
    : option (string * RuntimeTerm) :=
  match unwrap_object item.2 with
  | ObjClass c =>
      if decide (class_module R c = Some module_name)
      then Some (item.1, TRuntimeClass c)
      else None
  | _ => None
  end.

Definition handle_own_class (p : preparation)
    (item : string * runtime_object) : preparation :=
  match own_class_term item with
  | Some (name, t) => add_dummy_definition_node name t p
  | None => p
  end.

(** Lines 117-183: the four loops, over the items of
    [builtins.__dict__], of the names the module imports and of the
    module's [__dict__]. *)
Definition prepare
    (builtins imported module_dict : list (string * runtime_object))
    (p : preparation) : preparation :=
  fold_left handle_own_class module_dict
    (fold_left handle_import imported
       (fold_left handle_singleton (singletons NotImplementedType)
          (fold_left handle_builtin builtins p))).

(** The names that get a dummy definition node with their terms, in the
    order in which the loops make them. *)
Definition dummy_entries
    (builtins imported module_dict : list (string * runtime_object))
    : list (string * RuntimeTerm) :=
  omap builtin_term builtins
  ++ map (fun item : string * RuntimeClass =>
            (item.1, TInstance (mkInstance item.2)))
       (singletons NotImplementedType)
  ++ omap (fun item : string * runtime_object =>
             match imported_term item.2 with
             | Some t => Some (item.1, t)
             | None => None
             end)
       imported
  ++ omap own_class_term module_dict.

End Preparation.

(** The identities of [count] objects made one after the other, the first
    being [first]. *)
Fixpoint consecutive (first : node) (count : nat) : list node :=
  match count with
  | O => []
  | S count' => first :: consecutive (Pos.succ first) count'
  end.

(** [s.endswith(suffix)] holds of the strings that are [suffix] after some
    prefix. *)
Definition has_suffix (s suffix : string) : Prop :=
  exists before : string, s = (before ++ suffix)%string.

(** The statements of [add_dummy_definition_node] for a list of names with
    their terms, one after the other. *)
Definition add_dummy_definition_nodes
    (entries : list (string * RuntimeTerm)) (p : preparation) : preparation :=
  fold_left (fun p entry => add_dummy_definition_node entry.1 entry.2 p)
    entries p.

Section ImportVocabulary.

Context {module_tree live_module : Type}.
Variable load : string -> string -> exception + (module_tree * live_module).

(** The attempted modules that load, with their trees, and those that do
    not, in the order of the items. *)
Definition loaded_trees (items : list (string * string))
    : list (string * module_tree) :=
  omap (fun item : string * string =>
          match load item.1 item.2 with
          | inr loaded => Some (item.1, loaded.1)
          | inl _ => None
          end)
       (attempted items).

Definition loaded_modules (items : list (string * string))
    : list (string * live_module) :=
  omap (fun item : string * string =>
          match load item.1 item.2 with
          | inr loaded => Some (item.1, loaded.2)
          | inl _ => None
          end)
       (attempted items).

Definition failed_modules (items : list (string * string)) : list string :=
  omap (fun item : string * string =>
          match load item.1 item.2 with
          | inr _ => None
          | inl _ => Some item.1
          end)
       (attempted items).

End ImportVocabulary.

(** ** A small analysed module, used to exercise the engine

    [[
    1  def foo(x):
    2      pass
    3
    4  def bar():
    5      foo(1)
    ]]
    in module [m]. *)
Module Scenario.

Definition module_node : ast := mkAst 1 None None ast_Module.
Definition foo_def : ast := mkAst 2 (Some 1) (Some 2) (ast_FunctionDef "foo").
Definition bar_def : ast := mkAst 3 (Some 4) (Some 5) (ast_FunctionDef "bar").
Definition foo_use : ast := mkAst 5 (Some 5) (Some 5) ast_Other.
Definition one : ast := mkAst 6 (Some 5) (Some 5) (ast_Constant (CInt 1)).
Definition call : ast := mkAst 4 (Some 5) (Some 5) (ast_Call 5).

(** The live function objects of [foo] and [bar]. *)
Definition foo_function : pyobj := 100%positive.
Definition bar_function : pyobj := 101%positive.

Definition runtime : Runtime := {|
  class_module := fun _ => Some "m";
  class_name := fun _ => "C";
  function_module := fun _ => Some "m";
  function_name := fun f => if decide (f = foo_function) then "foo" else "bar";
  getsourcelines := fun f =>
    if decide (f = foo_function) then (["def foo(x):"; "    pass"], 1)
    else (["def bar():"; "    foo(1)"], 4);
  signature_of := fun f => if decide (f = foo_function) then "(x)" else "()";
  get_unwrapped_constructor := fun _ => 1%positive;
  get_comprehensive_dict_for_runtime_class := fun _ => ∅;
  unwrap := fun o => o;
  get_attribute_access_result := fun _ _ _ => None
|}.

Definition unwrapped_to_named : gmap pyobj node :=
  {[ foo_function := 2%positive; bar_function := 3%positive ]}.
Definition named_to_unwrapped : gmap node pyobj :=
  {[ 2%positive := foo_function; 3%positive := bar_function ]}.
Definition definition_mapping : gmap node node := {[ 5%positive := 2%positive ]}.

Definition visits : list (ast * list NodeProvidingScope) :=
  [ (foo_def, [module_node]);
    (bar_def, [module_node]);
    (foo_use, [module_node; bar_def]);
    (one, [module_node; bar_def]);
    (call, [module_node; bar_def]) ].

Definition initial : state := mkState ∅ [].

(** The visits before that of the call [foo(1)], and the state in which
    the call is visited. *)
Definition visits_before_call : list (ast * list NodeProvidingScope) :=
  [ (foo_def, [module_node]);
    (bar_def, [module_node]);
    (foo_use, [module_node; bar_def]);
    (one, [module_node; bar_def]) ].

Definition before_call : state :=
  state_of
    (modified_handle_local_syntax_directed_typing_constraints
       runtime "m" ∅ unwrapped_to_named named_to_unwrapped
       definition_mapping visits_before_call initial).

(** The same call, were it the body of a lambda on line 5 of [bar]. *)
Definition lambda_node : ast := mkAst 7 (Some 5) (Some 5) ast_Lambda.

Definition record_of_call : call_site_record :=
  {| callee_module_name := "m";
     callee_class_name := "global";
     callee_function_name := "foo";
     start_line := 1;
     end_line := 2;
     caller_module_name := "m";
     caller_function_name := Some "bar";
     call_line := Some 5;
     caller_function_start := Some 4;
     caller_function_end := Some 5;
     signature := "(x)" |}.

End Scenario.

(** A module that unpacks a string into a tuple of names.
    [[
    1  x, y = "ab"
    ]] *)
Module Unpacking.

Definition module_node : ast := mkAst 1 None None ast_Module.
Definition text : ast := mkAst 10 (Some 1) (Some 1) (ast_Constant (CStr "ab")).
Definition x_name : ast := mkAst 11 (Some 1) (Some 1) ast_Other.
Definition y_name : ast := mkAst 12 (Some 1) (Some 1) ast_Other.
Definition names : ast := mkAst 13 (Some 1) (Some 1) ast_Tuple.
Definition statement : ast :=
  mkAst 14 (Some 1) (Some 1) (ast_Assign [13%positive] 10%positive).

(** The value before the targets, the statement last. *)
Definition visits : list (ast * list NodeProvidingScope) :=
  [ (text, [module_node]);
    (x_name, [module_node]);
    (y_name, [module_node]);
    (names, [module_node]);
    (statement, [module_node]) ].

(** The same visits, were the statement handled before its targets. *)
Definition visits_statement_first : list (ast * list NodeProvidingScope) :=
  [ (text, [module_node]);
    (statement, [module_node]);
    (x_name, [module_node]);
    (y_name, [module_node]);
    (names, [module_node]) ].

End Unpacking.

(** A module in which a name bound to a function in one branch and to an
    instance in the other is called.
    [[
    1  def foo(x):
    2      pass
    3  class C:
    4      pass
    5  def bar(flag):
    6      if flag:
    7          f = foo
    8      else:
    9          f = C()
    10     f(1)
    ]]
    in module [m].  Both assignments to [f] share one definition node, so
    the callee of [f(1)] has the terms [foo] and [Instance(C)]. *)
Module Ambiguous.

Definition module_node : ast := mkAst 1 None None ast_Module.
Definition foo_def : ast := mkAst 2 (Some 1) (Some 2) (ast_FunctionDef "foo").
Definition C_def : ast := mkAst 3 (Some 3) (Some 4) (ast_ClassDef "C").
Definition bar_def : ast := mkAst 4 (Some 5) (Some 10) (ast_FunctionDef "bar").
Definition flag_use : ast := mkAst 15 (Some 6) (Some 6) ast_Other.
Definition foo_use : ast := mkAst 5 (Some 7) (Some 7) ast_Other.
Definition f_first : ast := mkAst 6 (Some 7) (Some 7) ast_Other.
Definition first_assignment : ast :=
  mkAst 7 (Some 7) (Some 7) (ast_Assign [6%positive] 5%positive).
Definition C_use : ast := mkAst 8 (Some 9) (Some 9) ast_Other.
Definition instantiation : ast := mkAst 9 (Some 9) (Some 9) (ast_Call 8).
Definition f_second : ast := mkAst 10 (Some 9) (Some 9) ast_Other.
Definition second_assignment : ast :=
  mkAst 11 (Some 9) (Some 9) (ast_Assign [10%positive] 9%positive).
Definition branch : ast := mkAst 16 (Some 6) (Some 9) ast_Other.
Definition f_use : ast := mkAst 12 (Some 10) (Some 10) ast_Other.
Definition one : ast := mkAst 13 (Some 10) (Some 10) (ast_Constant (CInt 1)).
Definition call : ast := mkAst 14 (Some 10) (Some 10) (ast_Call 12).

(** The live objects: the functions [foo] and [bar], the class [C] and
    the constructor it inherits from [object]. *)
Definition foo_function : pyobj := 100%positive.
Definition bar_function : pyobj := 101%positive.
Definition object_init : pyobj := 200%positive.
Definition C : RuntimeClass := LiveClass 300.

Definition runtime : Runtime := {|
  class_module := fun _ => Some "m";
  class_name := fun _ => "C";
  function_module := fun f =>
    if decide (f = object_init) then Some "builtins" else Some "m";
  function_name := fun f =>
    if decide (f = foo_function) then "foo"
    else if decide (f = bar_function) then "bar" else "__init__";
  getsourcelines := fun f =>
    if decide (f = foo_function) then (["def foo(x):"; "    pass"], 1)
    else (["def bar(flag):"; "    if flag:"; "        f = foo";
           "    else:"; "        f = C()"; "    f(1)"], 5);
  signature_of := fun f =>
    if decide (f = foo_function) then "(x)" else "(flag)";
  get_unwrapped_constructor := fun _ => object_init;
  get_comprehensive_dict_for_runtime_class := fun _ => ∅;
  unwrap := fun o => o;
  get_attribute_access_result := fun _ _ _ => None
|}.

Definition classes : gmap node RuntimeClass := {[ 3%positive := C ]}.
Definition unwrapped_to_named : gmap pyobj node :=
  {[ foo_function := 2%positive; bar_function := 4%positive ]}.
Definition named_to_unwrapped : gmap node pyobj :=
  {[ 2%positive := foo_function; 4%positive := bar_function ]}.
Definition definition_mapping : gmap node node :=
  {[ 5%positive := 2%positive; 8%positive := 3%positive;
     10%positive := 6%positive; 12%positive := 6%positive ]}.

Definition scope : list NodeProvidingScope := [module_node; bar_def].

(** The visits up to the call [f(1)], and the visit of that call. *)
Definition visits_before_call : list (ast * list NodeProvidingScope) :=
  [ (foo_def, [module_node]);
    (C_def, [module_node]);
    (bar_def, [module_node]);
    (flag_use, scope);
    (foo_use, scope);
    (f_first, scope);
    (first_assignment, scope);
    (C_use, scope);
    (instantiation, scope);
    (f_second, scope);
    (second_assignment, scope);
    (branch, scope);
    (f_use, scope);
    (one, scope) ].

Definition visits : list (ast * list NodeProvidingScope) :=
  visits_before_call ++ [(call, scope)].

Definition foo_term : RuntimeTerm := TFunction (FunctionDefinition 2).
Definition instance_term : RuntimeTerm := TInstance (mkInstance C).

(** The state in which the call [f(1)] is visited. *)
Definition before_call : state :=
  state_of
    (modified_handle_local_syntax_directed_typing_constraints
       runtime "m" classes unwrapped_to_named named_to_unwrapped
       definition_mapping visits_before_call (mkState ∅ [])).

(** The record of a call of [foo] from [bar] on line 10. *)
Definition foo_record : call_site_record :=
  {| callee_module_name := "m";
     callee_class_name := "global";
     callee_function_name := "foo";
     start_line := 1;
     end_line := 2;
     caller_module_name := "m";
     caller_function_name := Some "bar";
     call_line := Some 10;
     caller_function_start := Some 5;
     caller_function_end := Some 10;
     signature := "(x)" |}.

End Ambiguous.

(** Two modules [a] and [b], for the loops of [__main__]. *)
Module Faults.

Definition items : list (string * string) :=
  [ ("a", "/src/a.py"); ("b", "/src/b.py") ].

(** The record printed by the analysis of [b]. *)
Definition record_of_b : call_site_record :=
  {| callee_module_name := "b";
     callee_class_name := "global";
     callee_function_name := "foo";
     start_line := 1;
     end_line := 2;
     caller_module_name := "b";
     caller_function_name := Some "bar";
     call_line := Some 5;
     caller_function_start := Some 4;
     caller_function_end := Some 5;
     signature := "(x)" |}.

(** Importing [a] runs its top-level code, which raises [KeyError]. *)
Definition load_key_error (module_name file_path : string)
    : exception + (unit * unit) :=
  if String.eqb module_name "a" then inl (OtherException "KeyError")
  else inr (tt, tt).

(** Importing [a] fails with [ModuleNotFoundError]. *)
Definition load_missing_dependency (module_name file_path : string)
    : exception + (unit * unit) :=
  if String.eqb module_name "a" then inl ModuleNotFoundError
  else inr (tt, tt).

(** Both modules import. *)
Definition load_all (module_name file_path : string)
    : exception + (unit * unit) :=
  inr (tt, tt).

(** The analysis of [b] prints one record. *)
Definition analyse (module_name : string) (module_node : unit) (s : state)
    : outcome :=
  if String.eqb module_name "b" then Done (print record_of_b s) else Done s.

(** The analysis of [a] raises, that of [b] prints one record. *)
Definition analyse_os_error (module_name : string) (module_node : unit)
    (s : state) : outcome :=
  if String.eqb module_name "a" then Raised OSError s
  else Done (print record_of_b s).

Definition initial : state := mkState ∅ [].

End Faults.

(** A chained assignment of the result of a call.
    [[
    1  a = b = f()
    ]]
    The call node already holds [Instance(C)]. *)
Module Chained.

Definition C : RuntimeClass := LiveClass 300.
Definition f_call : node := 20%positive.
Definition a : node := 21%positive.
Definition b : node := 22%positive.
Definition statement : ast :=
  mkAst 23 (Some 1) (Some 1) (ast_Assign [a; b] f_call).

Definition before : state :=
  mkState {[ f_call := {[ TInstance (mkInstance C) ]} ]} [].

End Chained.

(** A module that instantiates a class whose constructor is defined in
    the analysed source.
    [[
    1  class A:
    2      def __init__(self): pass
    3  def make():
    4      A()
    ]]
    in module [m]; [class_name_of_A] is what [A.__name__] gives. *)
Module Construction.

Definition module_node : ast := mkAst 1 None None ast_Module.
Definition A_def : ast := mkAst 2 (Some 1) (Some 2) (ast_ClassDef "A").
Definition init_def : ast :=
  mkAst 3 (Some 2) (Some 2) (ast_FunctionDef "__init__").
Definition make_def : ast := mkAst 4 (Some 3) (Some 4) (ast_FunctionDef "make").
Definition A_use : ast := mkAst 5 (Some 4) (Some 4) ast_Other.
Definition call : ast := mkAst 6 (Some 4) (Some 4) (ast_Call 5).

Definition A : RuntimeClass := LiveClass 300.
Definition init_function : pyobj := 110%positive.
Definition make_function : pyobj := 111%positive.

Definition runtime (class_name_of_A : string) : Runtime := {|
  class_module := fun _ => Some "m";
  class_name := fun _ => class_name_of_A;
  function_module := fun _ => Some "m";
  function_name := fun f =>
    if decide (f = init_function) then "__init__" else "make";
  getsourcelines := fun f =>
    if decide (f = init_function) then (["    def __init__(self): pass"], 2)
    else (["def make():"; "    A()"], 3);
  signature_of := fun f =>
    if decide (f = init_function) then "(self)" else "()";
  get_unwrapped_constructor := fun _ => init_function;
  get_comprehensive_dict_for_runtime_class := fun _ => ∅;
  unwrap := fun o => o;
  get_attribute_access_result := fun _ _ _ => None
|}.

Definition classes : gmap node RuntimeClass := {[ 2%positive := A ]}.
Definition unwrapped_to_named : gmap pyobj node :=
  {[ init_function := 3%positive; make_function := 4%positive ]}.
Definition named_to_unwrapped : gmap node pyobj :=
  {[ 3%positive := init_function; 4%positive := make_function ]}.
Definition definition_mapping : gmap node node :=
  {[ 5%positive := 2%positive ]}.

Definition scope : list NodeProvidingScope := [module_node; make_def].

(** The visits before that of the call [A()], and the state in which the
    call is visited. *)
Definition visits_before_call : list (ast * list NodeProvidingScope) :=
  [ (A_def, [module_node]);
    (init_def, [module_node; A_def]);
    (make_def, [module_node]);
    (A_use, scope) ].

Definition before_call : state :=
  state_of
    (modified_handle_local_syntax_directed_typing_constraints
       (runtime "A") "m" classes unwrapped_to_named named_to_unwrapped
       definition_mapping visits_before_call (mkState ∅ [])).

Definition record_of_call : call_site_record :=
  {| callee_module_name := "m";
     callee_class_name := "A";
     callee_function_name := "__init__";
     start_line := 2;
     end_line := 2;
     caller_module_name := "m";
     caller_function_name := Some "make";
     call_line := Some 4;
     caller_function_start := Some 3;
     caller_function_end := Some 4;
     signature := "(self)" |}.

End Construction.

(** Closed decidable facts about the example modules are settled by
    evaluation. *)
Ltac by_computation := apply (bool_decide_unpack _); vm_compute; exact I.

(** A module that calls an instance, a bound method, an unbound method, a
    module and a name that resolves to nothing.
    [[
    1  class Greeter:
    2      def greet(self): pass
    3      def __call__(self): pass
    4  def use(g):
    5      g.greet()
    6      g()
    7      Greeter.greet(g)
    8      os()
    9      missing()
    ]]
    in module [m].  Every node is its own definition node; [g] holds an
    instance of [Greeter], [Greeter.greet] the unbound method and [os] a
    module. *)
Module Dispatch.

Definition module_node : ast := mkAst 1 None None ast_Module.
Definition use_def : ast := mkAst 5 (Some 4) (Some 9) (ast_FunctionDef "use").
Definition scope : list NodeProvidingScope := [module_node; use_def].

Definition g : node := 10%positive.
Definition g_greet : ast :=
  mkAst 11 (Some 5) (Some 5) (ast_Attribute g "greet").
Definition call_g_greet : ast := mkAst 12 (Some 5) (Some 5) (ast_Call 11).
Definition call_g : ast := mkAst 13 (Some 6) (Some 6) (ast_Call g).
Definition Greeter_greet : node := 14%positive.
Definition call_Greeter_greet : ast :=
  mkAst 15 (Some 7) (Some 7) (ast_Call Greeter_greet).
Definition os_name : node := 16%positive.
Definition call_os : ast := mkAst 17 (Some 8) (Some 8) (ast_Call os_name).
Definition missing_name : node := 18%positive.
Definition call_missing : ast :=
  mkAst 19 (Some 9) (Some 9) (ast_Call missing_name).

Definition Greeter : RuntimeClass := LiveClass 300.
Definition greet_function : pyobj := 120%positive.
Definition call_function : pyobj := 121%positive.
Definition use_function : pyobj := 122%positive.
Definition os_module : pyobj := 500%positive.

(** The function definitions of [greet], [__call__] and [use]. *)
Definition greet_def : node := 3%positive.
Definition call_def : node := 4%positive.

Definition runtime : Runtime := {|
  class_module := fun _ => Some "m";
  class_name := fun _ => "Greeter";
  function_module := fun _ => Some "m";
  function_name := fun f =>
    if decide (f = greet_function) then "greet"
    else if decide (f = call_function) then "__call__" else "use";
  getsourcelines := fun f =>
    if decide (f = greet_function) then (["    def greet(self): pass"], 2)
    else if decide (f = call_function)
         then (["    def __call__(self): pass"], 3)
         else (["def use(g):"; "    g.greet()"; "    g()";
                "    Greeter.greet(g)"; "    os()"; "    missing()"], 4);
  signature_of := fun f => if decide (f = use_function) then "(g)" else "(self)";
  get_unwrapped_constructor := fun _ => 1%positive;
  get_comprehensive_dict_for_runtime_class := fun _ =>
    {[ "__call__" := call_function; "greet" := greet_function ]};
  unwrap := fun o => o;
  get_attribute_access_result := fun t attr _ =>
    match t with
    | TInstance i =>
        if String.eqb attr "greet"
        then Some (TBoundMethod i (FunctionDefinition greet_def))
        else None
    | _ => None
    end
|}.

Definition unwrapped_to_named : gmap pyobj node :=
  {[ greet_function := greet_def; call_function := call_def;
     use_function := 5%positive ]}.
Definition named_to_unwrapped : gmap node pyobj :=
  {[ greet_def := greet_function; call_def := call_function;
     5%positive := use_function ]}.

Definition before : state :=
  mkState
    {[ g := {[ TInstance (mkInstance Greeter) ]};
       Greeter_greet :=
         {[ TUnboundMethod Greeter (FunctionDefinition greet_def) ]};
       os_name := {[ TModule os_module ]} ]}
    [].

(** The state after the visit of [g.greet]. *)
Definition after_access : state :=
  state_of
    (handle_local_syntax_directed_typing_constraints_callback
       runtime "m" ∅ unwrapped_to_named named_to_unwrapped ∅
       [TInstance (mkInstance Greeter)] g_greet scope before).

End Dispatch.

(** The names around a module [m] that imports [os], [greet], [pi] and
    [Greeter] and then defines a class [Greeter] of its own.  Live objects
    are taken as already unwrapped. *)
Module Names.

Definition own_Greeter : RuntimeClass := LiveClass 300.
Definition other_Greeter : RuntimeClass := LiveClass 301.
Definition NotImplementedType : RuntimeClass := LiveClass 400.

Definition runtime : Runtime := {|
  class_module := fun c =>
    if decide (c = own_Greeter) then Some "m" else Some "other";
  class_name := fun _ => "Greeter";
  function_module := fun _ => Some "other";
  function_name := fun _ => "greet";
  getsourcelines := fun _ => (["def greet(): pass"], 1);
  signature_of := fun _ => "()";
  get_unwrapped_constructor := fun _ => 1%positive;
  get_comprehensive_dict_for_runtime_class := fun _ => ∅;
  unwrap := fun o => o;
  get_attribute_access_result := fun _ _ _ => None
|}.

Definition unwrapped_to_named : gmap pyobj node := {[ 120%positive := 3%positive ]}.

Definition builtins : list (string * runtime_object) :=
  [ ("len", ObjFunction 130);
    ("__import__", ObjFunction 131);
    ("int", ObjClass (HostClass c_int));
    ("copyright", ObjOther 132) ].

Definition imported : list (string * runtime_object) :=
  [ ("os", ObjModule 500);
    ("greet", ObjFunction 120);
    ("pi", ObjOther 600);
    ("Greeter", ObjClass other_Greeter) ].

Definition module_dict : list (string * runtime_object) :=
  [ ("__name__", ObjOther 601);
    ("os", ObjModule 500);
    ("Greeter", ObjClass own_Greeter);
    ("greet", ObjFunction 120) ].

(** Nothing stored yet, and [1000] the identity of the next new node. *)
Definition start : preparation :=
  mkPreparation (mkState ∅ []) ∅ 1000 [].

Definition items : list (string * string) :=
  [ ("a", "/src/a.py"); ("pkg.setup", "/src/pkg/setup.py");
    ("b", "/src/b.py") ].

End Names.

(** A module in which the caller stands above the callee.
    [[
    1  def bar():
    2      foo(1)
    3
    4  def foo(x):
    5      pass
    ]]
    in module [m].  The body of [bar] is visited before the definition of
    [foo]. *)
Module BarFirst.

Definition module_node : ast := mkAst 1 None None ast_Module.
Definition bar_def : ast := mkAst 2 (Some 1) (Some 2) (ast_FunctionDef "bar").
Definition foo_use : ast := mkAst 3 (Some 2) (Some 2) ast_Other.
Definition one : ast := mkAst 4 (Some 2) (Some 2) (ast_Constant (CInt 1)).
Definition call : ast := mkAst 5 (Some 2) (Some 2) (ast_Call 3).
Definition foo_def : ast := mkAst 6 (Some 4) (Some 5) (ast_FunctionDef "foo").

Definition foo_function : pyobj := 100%positive.
Definition bar_function : pyobj := 101%positive.

Definition runtime : Runtime := {|
  class_module := fun _ => Some "m";
  class_name := fun _ => "C";
  function_module := fun _ => Some "m";
  function_name := fun f => if decide (f = foo_function) then "foo" else "bar";
  getsourcelines := fun f =>
    if decide (f = foo_function) then (["def foo(x):"; "    pass"], 4)
    else (["def bar():"; "    foo(1)"], 1);
  signature_of := fun f => if decide (f = foo_function) then "(x)" else "()";
  get_unwrapped_constructor := fun _ => 1%positive;
  get_comprehensive_dict_for_runtime_class := fun _ => ∅;
  unwrap := fun o => o;
  get_attribute_access_result := fun _ _ _ => None
|}.

Definition unwrapped_to_named : gmap pyobj node :=
  {[ foo_function := 6%positive; bar_function := 2%positive ]}.
Definition named_to_unwrapped : gmap node pyobj :=
  {[ 6%positive := foo_function; 2%positive := bar_function ]}.
Definition definition_mapping : gmap node node := {[ 3%positive := 6%positive ]}.

Definition visits : list (ast * list NodeProvidingScope) :=
  [ (bar_def, [module_node]);
    (foo_use, [module_node; bar_def]);
    (one, [module_node; bar_def]);
    (call, [module_node; bar_def]);
    (foo_def, [module_node]) ].

End BarFirst.

(** A module whose callee has a default value that is shown with its
    address.
    [[
    1  def foo(key=lambda v: v):
    2      pass
    3
    4  def bar():
    5      foo()
    ]]
    in module [m].  [str(inspect.signature(foo))] is
    [(key=<function <lambda> at 0x...>)], with the address that the
    function object of the lambda has in the run at hand. *)
Module Defaults.

Definition module_node : ast := mkAst 1 None None ast_Module.
Definition default : ast := mkAst 2 (Some 1) (Some 1) ast_Lambda.
Definition foo_def : ast := mkAst 3 (Some 1) (Some 2) (ast_FunctionDef "foo").
Definition bar_def : ast := mkAst 4 (Some 4) (Some 5) (ast_FunctionDef "bar").
Definition foo_use : ast := mkAst 5 (Some 5) (Some 5) ast_Other.
Definition call : ast := mkAst 6 (Some 5) (Some 5) (ast_Call 5).

Definition foo_function : pyobj := 100%positive.
Definition bar_function : pyobj := 101%positive.

Definition signature_at (address : string) (f : pyobj) : string :=
  if decide (f = foo_function)
  then ("(key=<function <lambda> at " ++ address ++ ">)")%string
  else "()".

(** The runtime of a run in which the lambda is at [0x7f2b1c3a4d30], and
    the signatures of another run, in which it is at [0x7f91e05b8af0]. *)
Definition runtime : Runtime := {|
  class_module := fun _ => Some "m";
  class_name := fun _ => "C";
  function_module := fun _ => Some "m";
  function_name := fun f => if decide (f = foo_function) then "foo" else "bar";
  getsourcelines := fun f =>
    if decide (f = foo_function)
    then (["def foo(key=lambda v: v):"; "    pass"], 1)
    else (["def bar():"; "    foo()"], 4);
  signature_of := signature_at "0x7f2b1c3a4d30";
  get_unwrapped_constructor := fun _ => 1%positive;
  get_comprehensive_dict_for_runtime_class := fun _ => ∅;
  unwrap := fun o => o;
  get_attribute_access_result := fun _ _ _ => None
|}.

Definition signature_in_second_run : pyobj -> string :=
  signature_at "0x7f91e05b8af0".

Definition unwrapped_to_named : gmap pyobj node :=
  {[ foo_function := 3%positive; bar_function := 4%positive ]}.
Definition named_to_unwrapped : gmap node pyobj :=
  {[ 3%positive := foo_function; 4%positive := bar_function ]}.

Definition source : module_input :=
  mkModule "m" [] {[ 5%positive := 3%positive ]}
    [ (default, [module_node]);
      (foo_def, [module_node]);
      (bar_def, [module_node]);
      (foo_use, [module_node; bar_def]);
      (call, [module_node; bar_def]) ].

(** The record of the call [foo()] with the signature of a run. *)
Definition record_with (signature_text : string) : call_site_record :=
  {| callee_module_name := "m";
     callee_class_name := "global";
     callee_function_name := "foo";
     start_line := 1;
     end_line := 2;
     caller_module_name := "m";
     caller_function_name := Some "bar";
     call_line := Some 5;
     caller_function_start := Some 4;
     caller_function_end := Some 5;
     signature := signature_text |}.

End Defaults.

(** The rule of a node whose iterated set is known runs in the order of
    that set's only element, or of none. *)
Ltac runs_with terms :=
  apply callback_runs_with; unfold iteration_order, iterated_set;
  cbn [kind Dispatch.call_missing Dispatch.call_g Dispatch.g_greet
         Dispatch.call_g_greet Dispatch.call_Greeter_greet Dispatch.call_os
         Construction.call];
  rewrite terms;
  by rewrite ?elements_singleton, ?elements_empty.

(** * Properties *)

Local Open Scope list_scope.

(** ** The term store *)

Lemma get_update_runtime_terms_eq terms n ts :
  get_runtime_terms (update_runtime_terms n ts terms) n
  = get_runtime_terms terms n ∪ ts.
Proof.
  unfold get_runtime_terms, update_runtime_terms.
  by rewrite lookup_insert_eq.
Qed.

Lemma get_update_runtime_terms_ne terms n m ts :
  n ≠ m ->
  get_runtime_terms (update_runtime_terms n ts terms) m
  = get_runtime_terms terms m.
Proof.
  intros Hne. unfold get_runtime_terms, update_runtime_terms.
  by rewrite lookup_insert_ne.
Qed.

Lemma get_update_runtime_terms terms n m ts :
  get_runtime_terms (update_runtime_terms n ts terms) m
  = if decide (n = m) then get_runtime_terms terms m ∪ ts
    else get_runtime_terms terms m.
Proof.
  case_decide as H.
  - subst. apply get_update_runtime_terms_eq.
  - by apply get_update_runtime_terms_ne.
Qed.

Lemma update_runtime_terms_grows terms n ts m :
  get_runtime_terms terms m
  ⊆ get_runtime_terms (update_runtime_terms n ts terms) m.
Proof.
  rewrite get_update_runtime_terms. case_decide; set_solver.
Qed.

Lemma terms_grow_refl s : terms_grow s s.
Proof. by intros m. Qed.

Lemma terms_grow_trans s1 s2 s3 :
  terms_grow s1 s2 -> terms_grow s2 s3 -> terms_grow s1 s3.
Proof. intros H12 H23 m. etrans; [apply H12 | apply H23]. Qed.

Lemma print_terms r s : node_runtime_terms (print r s) = node_runtime_terms s.
Proof. reflexivity. Qed.

Lemma terms_grow_print r s : terms_grow s (print r s).
Proof. by intros m. Qed.



Section EngineProperties.

Variable R : Runtime.
Variable module_name : string.
Variable classes : gmap node RuntimeClass.
Variable u2n : gmap pyobj node.
Variable n2u : gmap node pyobj.
Variable dmap : gmap node node.

Local Abbreviation defn := (definition_node dmap).
Local Abbreviation get_def := (get_runtime_terms_of_definition_node dmap).
Local Abbreviation update_def := (update_runtime_terms_of_definition_node dmap).
Local Abbreviation callback :=
  (handle_local_syntax_directed_typing_constraints_callback
     R module_name classes u2n n2u dmap).
Local Abbreviation loop := (call_loop R module_name u2n n2u dmap).
Local Abbreviation assign := (assign_callee R u2n n2u).
Local Abbreviation runs := (pass_runs R module_name classes u2n n2u dmap).

Lemma update_def_grows n ts s : terms_grow s (update_def n ts s).
Proof. intros m. apply update_runtime_terms_grows. Qed.

Lemma get_update_def n ts s m :
  get_runtime_terms (node_runtime_terms (update_def n ts s)) m
  = if decide (defn n = m)
    then get_runtime_terms (node_runtime_terms s) m ∪ ts
    else get_runtime_terms (node_runtime_terms s) m.
Proof. apply get_update_runtime_terms. Qed.

Lemma update_def_stdout n ts s : stdout (update_def n ts s) = stdout s.
Proof. reflexivity. Qed.

Lemma transfer_grows s p : terms_grow s (transfer dmap s p).
Proof. destruct p as [v t]. apply update_def_grows. Qed.

Lemma transfer_stdout s p : stdout (transfer dmap s p) = stdout s.
Proof. by destruct p. Qed.

Lemma fold_transfer_grows ps s :
  terms_grow s (fold_left (transfer dmap) ps s).
Proof.
  revert s. induction ps as [|p ps IH]; intros s; simpl.
  - apply terms_grow_refl.
  - eapply terms_grow_trans; [apply transfer_grows | apply IH].
Qed.

Lemma fold_transfer_stdout ps s :
  stdout (fold_left (transfer dmap) ps s) = stdout s.
Proof.
  revert s. induction ps as [|p ps IH]; intros s; simpl; [done|].
  by rewrite IH, transfer_stdout.
Qed.

Lemma add_instance_grows n t s : terms_grow s (add_instance dmap n t s).
Proof.
  destruct t; simpl; auto using terms_grow_refl, update_def_grows.
Qed.

Lemma add_instance_stdout n t s : stdout (add_instance dmap n t s) = stdout s.
Proof. by destruct t. Qed.

(** What [emit] does, in terms of the record the test lets through. *)
Lemma emit_spec cv n ss s :
  emit R module_name cv n ss s =
    match record_of_vars R module_name cv n ss with
    | Some r => Done (print r s)
    | None => if names_truthy cv then Raised UnboundLocalError s else Done s
    end.
Proof.
  unfold emit, record_of_vars, names_truthy.
  destruct (truthy (var_callee_module_name cv)
            && truthy (var_callee_class_name cv)
            && truthy (var_callee_function_name cv)) eqn:Ht; [|done].
  destruct (var_callee_module_name cv), (var_callee_class_name cv),
    (var_callee_function_name cv), (var_callee_function cv); done.
Qed.

Lemma emit_grows cv n ss s : terms_grow s (state_of (emit R module_name cv n ss s)).
Proof.
  rewrite emit_spec. destruct (record_of_vars _ _ _ _ _); simpl.
  - apply terms_grow_print.
  - destruct (names_truthy cv); apply terms_grow_refl.
Qed.

Lemma loop_grows n func ss iterated order cv s :
  terms_grow s (state_of (loop n func ss iterated order cv s)).
Proof.
  revert cv s. induction order as [|t order IH]; intros cv s; simpl.
  - case_decide; apply terms_grow_refl.
  - case_decide; [|apply terms_grow_refl].
    pose proof (emit_grows (assign t cv) n ss (add_instance dmap (nid n) t s)) as He.
    destruct (emit _ _ _ _ _ _) as [s1|e s1]; simpl in *.
    + eapply terms_grow_trans; [apply add_instance_grows|].
      eapply terms_grow_trans; [apply He | apply IH].
    + eapply terms_grow_trans; [apply add_instance_grows | apply He].
Qed.

Lemma callback_grows order n ss s :
  terms_grow s (state_of (callback order n ss s)).
Proof.
  unfold handle_local_syntax_directed_typing_constraints_callback,
    update_runtime_terms_of_definition_node_from_runtime_class.
  destruct (kind n);
    repeat match goal with
      | |- context [match ?o with Some _ => _ | None => _ end] => destruct o
      end;
    cbn [state_of];
    first [ apply update_def_grows
          | apply terms_grow_refl
          | apply loop_grows
          | apply fold_transfer_grows
          | apply transfer_grows ].
Qed.

Lemma callback_runs_inv n ss s o :
  callback_runs R module_name classes u2n n2u dmap n ss s o ->
  exists order,
    iteration_order dmap n s order /\ o = callback order n ss s.
Proof. intros [order Ho]. eauto. Qed.

Lemma pass_grows visits s o :
  runs visits s o -> terms_grow s (state_of o).
Proof.
  induction 1 as [s | n ss visits s s' o Hcb _ IH | n ss visits s e s' Hcb].
  - apply terms_grow_refl.
  - apply callback_runs_inv in Hcb as (order & _ & Heq).
    eapply terms_grow_trans; [|apply IH].
    pose proof (callback_grows order n ss s) as Hg.
    by rewrite <- Heq in Hg.
  - apply callback_runs_inv in Hcb as (order & _ & Heq).
    pose proof (callback_grows order n ss s) as Hg.
    by rewrite <- Heq in Hg.
Qed.

(** *** The loop over the callee's terms *)

Lemma assign_method_cases cls f cv :
  (assign_method R u2n n2u cls f unset_callee_vars = unset_callee_vars
   /\ assign_method R u2n n2u cls f cv = cv)
  \/ (assign_method R u2n n2u cls f cv
      = assign_method R u2n n2u cls f unset_callee_vars
      /\ is_Some (var_callee_function
                    (assign_method R u2n n2u cls f unset_callee_vars))).
Proof.
  unfold assign_method. destruct f as [f|f].
  - destruct (n2u !! f); [right|left]; eauto.
  - destruct (u2n !! f); [right|left]; eauto.
Qed.

(** One runtime term either leaves the callee variables as they are, or
    sets all of them to values that do not depend on what they were. *)
Lemma assign_callee_cases t cv :
  (assign t unset_callee_vars = unset_callee_vars /\ assign t cv = cv)
  \/ (assign t cv = assign t unset_callee_vars
      /\ is_Some (var_callee_function (assign t unset_callee_vars))).
Proof.
  destruct t as [m|c|[c]|[f|f]|cls f|[c] f]; simpl.
  - by left.
  - destruct (u2n !! _); [right|left]; eauto.
  - destruct (_ !! "__call__") as [call|]; [|by left].
    destruct (u2n !! _); [right|left]; eauto.
  - destruct (n2u !! f); [right|left]; eauto.
  - destruct (u2n !! f); [right|left]; eauto.
  - apply assign_method_cases.
  - apply assign_method_cases.
Qed.

Lemma assign_callee_bound t cv : callee_bound cv -> callee_bound (assign t cv).
Proof.
  intros Hcv. destruct (assign_callee_cases t cv) as [[_ ->]|[-> Hs]]; [done|].
  by right.
Qed.

Lemma unset_not_truthy : names_truthy unset_callee_vars = false.
Proof. reflexivity. Qed.

Lemma record_of_vars_unset n ss :
  record_of_vars R module_name unset_callee_vars n ss = None.
Proof. reflexivity. Qed.

(** With the variables assigned together, the read of [callee_function]
    on line 175 never fails. *)
Lemma emit_bound cv n ss s :
  callee_bound cv ->
  emit R module_name cv n ss s =
    match record_of_vars R module_name cv n ss with
    | Some r => Done (print r s)
    | None => Done s
    end.
Proof.
  intros Hcv. rewrite emit_spec.
  destruct (record_of_vars R module_name cv n ss) eqn:Hr; [done|].
  destruct (names_truthy cv) eqn:Ht; [|done].
  destruct Hcv as [->|[callee Hc]]; [done|].
  unfold record_of_vars in Hr. rewrite Ht, Hc in Hr.
  unfold names_truthy in Ht.
  destruct (var_callee_module_name cv), (var_callee_class_name cv),
    (var_callee_function_name cv); simpl in Ht; try done.
  all: by rewrite ?andb_false_r in Ht.
Qed.


Local Abbreviation own := (own_record R module_name u2n n2u).

Lemma add_instance_get_func n func t s :
  defn n ≠ defn func ->
  get_def func (add_instance dmap n t s) = get_def func s.
Proof.
  intros Hne. destruct t; try done. simpl.
  unfold get_runtime_terms_of_definition_node.
  rewrite get_update_def. by case_decide.
Qed.

(** When the call node and its callee have different definition nodes,
    the loop runs to its end. *)
Lemma loop_completes n func ss iterated order cv s :
  defn (nid n) ≠ defn func ->
  callee_bound cv ->
  get_def func s = iterated ->
  exists s', loop n func ss iterated order cv s = Done s'.
Proof.
  intros Hne. revert cv s.
  induction order as [|t order IH]; intros cv s Hcv Hit; simpl.
  - rewrite decide_True by done. eauto.
  - rewrite decide_True by done.
    rewrite emit_bound by by apply assign_callee_bound.
    destruct (record_of_vars _ _ _ _ _).
    + apply IH; [by apply assign_callee_bound|].
      rewrite <- Hit, <- (add_instance_get_func (nid n) func t s) by done.
      reflexivity.
    + apply IH; [by apply assign_callee_bound|].
      by rewrite add_instance_get_func.
Qed.

Lemma update_def_terms_indep n ts s1 s2 :
  node_runtime_terms s1 = node_runtime_terms s2 ->
  node_runtime_terms (update_def n ts s1)
  = node_runtime_terms (update_def n ts s2).
Proof. intros H. simpl. by rewrite H. Qed.

Lemma get_def_terms_indep n s1 s2 :
  node_runtime_terms s1 = node_runtime_terms s2 ->
  get_def n s1 = get_def n s2.
Proof.
  intros H. unfold get_runtime_terms_of_definition_node. by rewrite H.
Qed.

Lemma add_instance_terms_indep n t s1 s2 :
  node_runtime_terms s1 = node_runtime_terms s2 ->
  node_runtime_terms (add_instance dmap n t s1)
  = node_runtime_terms (add_instance dmap n t s2).
Proof. intros H. destruct t; try done. by apply update_def_terms_indep. Qed.

Lemma add_instances_terms_indep n order s1 s2 :
  node_runtime_terms s1 = node_runtime_terms s2 ->
  node_runtime_terms (add_instances dmap n order s1)
  = node_runtime_terms (add_instances dmap n order s2).
Proof.
  unfold add_instances. revert s1 s2.
  induction order as [|t order IH]; intros s1 s2 H; simpl; [done|].
  apply IH. by apply add_instance_terms_indep.
Qed.

(** What a completed loop has stored and printed. *)
Lemma loop_result n func ss iterated order cv s s' :
  callee_bound cv ->
  loop n func ss iterated order cv s = Done s' ->
  node_runtime_terms s' = node_runtime_terms (add_instances dmap (nid n) order s)
  /\ exists new,
       stdout s' = stdout s ++ new
       /\ (forall r, r ∈ new ->
             record_of_vars R module_name cv n ss = Some r
             \/ exists t, t ∈ order /\ own n ss t = Some r)
       /\ (forall t r, t ∈ order -> own n ss t = Some r -> r ∈ new).
Proof.
  revert cv s. induction order as [|t order IH]; intros cv s Hcv; simpl.
  - case_decide; [|done]. intros [= <-]. split; [done|].
    exists []. rewrite app_nil_r. split; [done|]. split.
    + intros r Hr. by apply elem_of_nil in Hr.
    + intros t r Ht. by apply elem_of_nil in Ht.
  - case_decide; [|done].
    rewrite emit_bound by by apply assign_callee_bound.
    set (cv' := assign t cv).
    assert (Hcv' : callee_bound cv') by by apply assign_callee_bound.
    assert (Hstale : forall r,
               record_of_vars R module_name cv' n ss = Some r ->
               record_of_vars R module_name cv n ss = Some r
               \/ own n ss t = Some r).
    { intros r Hr. unfold own_record. subst cv'.
      destruct (assign_callee_cases t cv) as [[_ E]|[E _]];
        rewrite E in Hr; auto. }
    assert (Hown : forall r,
               own n ss t = Some r ->
               record_of_vars R module_name cv' n ss = Some r).
    { intros r Hr. unfold own_record in Hr. subst cv'.
      destruct (assign_callee_cases t cv) as [[E _]|[E _]].
      - rewrite E in Hr. by rewrite record_of_vars_unset in Hr.
      - by rewrite E. }
    destruct (record_of_vars R module_name cv' n ss) as [r0|] eqn:Hr0.
    + intros Hloop.
      apply IH in Hloop as (Ht & new & Hout & Hsub & Hsup); [|done].
      split.
      { rewrite Ht. by apply add_instances_terms_indep. }
      exists (r0 :: new). split.
      { rewrite Hout. simpl. rewrite add_instance_stdout.
        by rewrite <- app_assoc. }
      split.
      * intros r [->|Hr]%elem_of_cons.
        -- destruct (Hstale r0 eq_refl) as [?|?]; [by left|].
           right. exists t. split; [left|done].
        -- destruct (Hsub r Hr) as [Hs|(t' & Ht' & Hr')].
           ++ rewrite Hr0 in Hs.
              destruct (Hstale r Hs) as [?|?]; [by left|].
              right. exists t. split; [left|done].
           ++ right. exists t'. split; [by right|done].
      * intros t' r [->|Ht']%elem_of_cons Hr.
        -- apply Hown in Hr. injection Hr as <-. left.
        -- right. by eapply Hsup.
    + intros Hloop.
      apply IH in Hloop as (Ht & new & Hout & Hsub & Hsup); [|done].
      split; [done|].
      exists new. split.
      { rewrite Hout. by rewrite add_instance_stdout. }
      split.
      * intros r Hr. destruct (Hsub r Hr) as [Hs|(t' & Ht' & Hr')].
        -- by rewrite Hr0 in Hs.
        -- right. exists t'. split; [by right|done].
      * intros t' r [->|Ht']%elem_of_cons Hr.
        -- apply Hown in Hr. congruence.
        -- by eapply Hsup.
Qed.

(** *** Iteration order does not matter *)

Lemma update_runtime_terms_comm d A B (terms : gmap node (gset RuntimeTerm)) :
  update_runtime_terms d A (update_runtime_terms d B terms)
  = update_runtime_terms d B (update_runtime_terms d A terms).
Proof.
  unfold update_runtime_terms.
  rewrite !lookup_insert_eq, !insert_insert_eq. simpl.
  f_equal. apply set_eq. intros x. rewrite !elem_of_union. tauto.
Qed.

Lemma add_instance_comm n t1 t2 s :
  add_instance dmap n t1 (add_instance dmap n t2 s)
  = add_instance dmap n t2 (add_instance dmap n t1 s).
Proof.
  destruct t1, t2; try done. simpl.
  unfold update_runtime_terms_of_definition_node. simpl.
  f_equal. apply update_runtime_terms_comm.
Qed.

Lemma add_instances_permutation n order1 order2 s :
  order1 ≡ₚ order2 ->
  add_instances dmap n order1 s = add_instances dmap n order2 s.
Proof.
  unfold add_instances. intros Hp. revert s.
  induction Hp as [|t l1 l2 _ IH|t1 t2 l|l1 l2 l3 _ IH1 _ IH2];
    intros s; simpl.
  - done.
  - apply IH.
  - by rewrite add_instance_comm.
  - by rewrite IH1, IH2.
Qed.

Lemma attribute_access_results_permutation attr order1 order2 :
  order1 ≡ₚ order2 ->
  attribute_access_results R u2n attr order1
  = attribute_access_results R u2n attr order2.
Proof.
  intros Hp. unfold attribute_access_results.
  apply set_eq. intros x. rewrite !elem_of_list_to_set.
  by rewrite Hp.
Qed.

Lemma transfer_terms_indep s1 s2 p :
  node_runtime_terms s1 = node_runtime_terms s2 ->
  node_runtime_terms (transfer dmap s1 p)
  = node_runtime_terms (transfer dmap s2 p).
Proof.
  intros H. destruct p as [v t]. simpl.
  by rewrite (get_def_terms_indep v s1 s2 H), H.
Qed.

Lemma fold_transfer_terms_indep ps s1 s2 :
  node_runtime_terms s1 = node_runtime_terms s2 ->
  node_runtime_terms (fold_left (transfer dmap) ps s1)
  = node_runtime_terms (fold_left (transfer dmap) ps s2).
Proof.
  revert s1 s2. induction ps as [|p ps IH]; intros s1 s2 H; simpl; [done|].
  apply IH. by apply transfer_terms_indep.
Qed.

Lemma iterated_set_terms_indep n s1 s2 :
  node_runtime_terms s1 = node_runtime_terms s2 ->
  iterated_set dmap n s1 = iterated_set dmap n s2.
Proof.
  intros H. unfold iterated_set.
  destruct (kind n); try done; by apply get_def_terms_indep.
Qed.

(** Two completed invocations of the callback on the same node, from
    stores holding the same terms, with any two iteration orders: they
    store the same terms and print the same set of records. *)
Lemma callback_deterministic n ss s1 s2 order1 order2 s1' s2' :
  node_runtime_terms s1 = node_runtime_terms s2 ->
  iteration_order dmap n s1 order1 ->
  iteration_order dmap n s2 order2 ->
  callback order1 n ss s1 = Done s1' ->
  callback order2 n ss s2 = Done s2' ->
  node_runtime_terms s1' = node_runtime_terms s2'
  /\ exists new1 new2,
       stdout s1' = stdout s1 ++ new1
       /\ stdout s2' = stdout s2 ++ new2
       /\ forall r, r ∈ new1 <-> r ∈ new2.
Proof.
  intros Heq Ho1 Ho2.
  assert (Hp : order1 ≡ₚ order2).
  { unfold iteration_order in *.
    by rewrite Ho1, Ho2, (iterated_set_terms_indep n s1 s2 Heq). }
  unfold handle_local_syntax_directed_typing_constraints_callback,
    update_runtime_terms_of_definition_node_from_runtime_class.
  destruct (kind n) eqn:K.
  all: try (intros [= <-] [= <-]; split;
            [ first [ done
                    | by apply update_def_terms_indep
                    | by apply transfer_terms_indep
                    | by apply fold_transfer_terms_indep ]
            | exists [], []; rewrite !app_nil_r;
              rewrite ?update_def_stdout, ?fold_transfer_stdout,
                ?transfer_stdout; done ]).
  - (* ast.Call *)
    intros H1 H2.
    apply loop_result in H1 as (Ht1 & new1 & Hout1 & Hsub1 & Hsup1);
      [|by left].
    apply loop_result in H2 as (Ht2 & new2 & Hout2 & Hsub2 & Hsup2);
      [|by left].
    split.
    + rewrite Ht1, Ht2, (add_instances_permutation _ _ _ _ Hp).
      by apply add_instances_terms_indep.
    + exists new1, new2. split; [done|]. split; [done|].
      intros r. split; intros Hr.
      * destruct (Hsub1 r Hr) as [Hs|(t & Ht & Hown)]; [done|].
        eapply Hsup2; [|done]. by rewrite <- Hp.
      * destruct (Hsub2 r Hr) as [Hs|(t & Ht & Hown)]; [done|].
        eapply Hsup1; [|done]. by rewrite Hp.
  - (* ast.Attribute *)
    intros [= <-] [= <-]. split.
    + rewrite (attribute_access_results_permutation _ _ _ Hp).
      by apply update_def_terms_indep.
    + exists [], []. by rewrite !app_nil_r.
  - (* ast.NamedExpr *)
    intros [= <-] [= <-]. split.
    + apply (transfer_terms_indep s1 s2 (value, target) Heq).
    + exists [], []. by rewrite !app_nil_r.
  - (* ast.AnnAssign *)
    match goal with
    | |- context [match ?o with Some _ => _ | None => _ end] =>
        destruct o as [v|]
    end; intros [= <-] [= <-]; split;
      try (exists [], []; by rewrite !app_nil_r).
    + apply (transfer_terms_indep s1 s2 (v, target) Heq).
    + done.
  - (* ast.ClassDef *)
    destruct (classes !! nid n); intros [= <-] [= <-]; split;
      try (exists [], []; by rewrite !app_nil_r).
    + by apply update_def_terms_indep.
    + done.
Qed.

Lemma callback_completes order n ss s :
  (forall func, kind n = ast_Call func -> defn (nid n) ≠ defn func) ->
  exists s', callback order n ss s = Done s'.
Proof.
  intros Hapart.
  unfold handle_local_syntax_directed_typing_constraints_callback.
  destruct (kind n) eqn:K;
    repeat match goal with
      | |- context [match ?o with Some _ => _ | None => _ end] => destruct o
      end;
    eauto.
  apply loop_completes; [by apply Hapart | by left | done].
Qed.

Lemma calls_apart_cons n ss visits :
  calls_apart dmap ((n, ss) :: visits) ->
  (forall func, kind n = ast_Call func -> defn (nid n) ≠ defn func)
  /\ calls_apart dmap visits.
Proof.
  intros [Hn Hrest]%Forall_cons. split; [|done].
  intros func K. simpl in Hn. by rewrite K in Hn.
Qed.

(** A pass over visits whose calls are apart from their callees never
    raises. *)
Lemma pass_completes visits s o :
  calls_apart dmap visits -> runs visits s o -> exists s', o = Done s'.
Proof.
  intros Hapart Hrun.
  induction Hrun as [s | n ss visits s s' o Hcb _ IH | n ss visits s e s' Hcb].
  - eauto.
  - apply IH. by apply calls_apart_cons in Hapart as [_ ?].
  - apply calls_apart_cons in Hapart as [Hn _].
    apply callback_runs_inv in Hcb as (order & _ & Heq).
    destruct (callback_completes order n ss s Hn) as [s'' Hs'']. congruence.
Qed.

(** The function [modified_handle_local_syntax_directed_typing_constraints]
    is one of the runs of the pass. *)
Lemma pass_runs_function visits s :
  runs visits s
    (modified_handle_local_syntax_directed_typing_constraints
       R module_name classes u2n n2u dmap visits s).
Proof.
  revert s. induction visits as [|[n ss] visits IH]; intros s; simpl.
  - constructor.
  - destruct (callback (elements (iterated_set dmap n s)) n ss s)
      as [s'|e s'] eqn:E.
    + eapply pass_visit; [|apply IH]. rewrite <- E.
      apply callback_runs_with. by unfold iteration_order.
    + eapply pass_raise. rewrite <- E.
      apply callback_runs_with. by unfold iteration_order.
Qed.

Lemma same_terms_and_records_app s1 s2 s1' s2' new1 new2 :
  same_terms_and_records s1 s2 ->
  node_runtime_terms s1' = node_runtime_terms s2' ->
  stdout s1' = stdout s1 ++ new1 ->
  stdout s2' = stdout s2 ++ new2 ->
  (forall r, r ∈ new1 <-> r ∈ new2) ->
  same_terms_and_records s1' s2'.
Proof.
  intros [_ Hout] Ht H1 H2 Hnew. split; [done|].
  intros r. rewrite H1, H2, !elem_of_app, Hout, Hnew. done.
Qed.

(** Two completed passes over the same visits, whatever the iteration
    orders, store the same terms and print the same set of records. *)
Lemma pass_deterministic visits s1 s2 s1' s2' :
  same_terms_and_records s1 s2 ->
  runs visits s1 (Done s1') ->
  runs visits s2 (Done s2') ->
  same_terms_and_records s1' s2'.
Proof.
  intros Hsame Hrun1. revert s2 s2' Hsame.
  remember (Done s1') as o1 eqn:Ho1.
  induction Hrun1 as [s1 | n ss visits s1 t1 o1 Hcb1 _ IH | ];
    intros s2 s2' Hsame Hrun2; [| |done].
  - injection Ho1 as ->. by inversion Hrun2; subst.
  - inversion Hrun2 as [| n' ss' visits' s2_ t2 o2 Hcb2 Hrest2 |]; subst.
    apply (IH eq_refl t2 s2'); [|done].
    apply callback_runs_inv in Hcb1 as (order1 & Ho1' & E1).
    apply callback_runs_inv in Hcb2 as (order2 & Ho2' & E2).
    destruct (callback_deterministic n ss s1 s2 order1 order2 t1 t2)
      as (Ht & new1 & new2 & H1 & H2 & Hnew);
      [apply Hsame | done | done | done | done |].
    by eapply same_terms_and_records_app.
Qed.

Lemma pass_runs_app visits1 visits2 s s1 o :
  runs visits1 s (Done s1) -> runs visits2 s1 o -> runs (visits1 ++ visits2) s o.
Proof.
  intros H1. remember (Done s1) as o1 eqn:Ho1. revert Ho1.
  induction H1 as [s | n ss visits s s' o' Hcb _ IH | ]; intros Ho1 H2.
  - by injection Ho1 as ->.
  - simpl. eapply pass_visit; [done|]. by apply IH.
  - done.
Qed.

Lemma pass_runs_single n ss s order s' :
  iteration_order dmap n s order ->
  callback order n ss s = Done s' ->
  runs [(n, ss)] s (Done s').
Proof.
  intros Ho E. eapply pass_visit; [|apply pass_end].
  rewrite <- E. by apply callback_runs_with.
Qed.

(** *** Monotonicity *)

(** C8. During a module pass the term set recorded for a node only
    grows: whatever the pass does from a state [s], completing or
    raising, every node keeps in the end all the terms it had in [s];
    every update is a union with the terms already recorded, it removes
    nothing, on the updated node or on any other; and a read is a
    function of the dictionary, which gives the empty set for a node that
    was never updated. *)
Theorem term_sets_only_grow visits s o
    (Hrun : pass_runs R module_name classes u2n n2u dmap visits s o) :
  (forall m,
      get_runtime_terms (node_runtime_terms s) m
      ⊆ get_runtime_terms (node_runtime_terms (state_of o)) m)
  /\ (forall terms n ts m,
         get_runtime_terms (update_runtime_terms n ts terms) m
         = if decide (n = m) then get_runtime_terms terms m ∪ ts
           else get_runtime_terms terms m)
  /\ (forall terms n ts m,
         get_runtime_terms terms m
         ⊆ get_runtime_terms (update_runtime_terms n ts terms) m)
  /\ (forall (terms : gmap node (gset RuntimeTerm)) n,
         terms !! n = None -> get_runtime_terms terms n = ∅).
Proof.
  split; [exact (pass_grows _ _ _ Hrun)|].
  split; [intros; apply get_update_runtime_terms|].
  split; [intros; apply update_runtime_terms_grows|].
  intros terms n Hn. unfold get_runtime_terms. by rewrite Hn.
Qed.

(** *** Annotated assignments *)

(** C10. An annotated assignment without a value leaves the state as it
    is.  With a value, the target's definition node receives the terms of
    the value's definition node and nothing else, no other node changes,
    nothing is printed, and the outcome is the same whatever the
    annotation is. *)
Theorem annotated_assignment_frame order i l e target annotation ss s :
  handle_local_syntax_directed_typing_constraints_callback
    R module_name classes u2n n2u dmap order
    (mkAst i l e (ast_AnnAssign target annotation None)) ss s
  = Done s
  /\ forall value, exists s',
       handle_local_syntax_directed_typing_constraints_callback
         R module_name classes u2n n2u dmap order
         (mkAst i l e (ast_AnnAssign target annotation (Some value))) ss s
       = Done s'
       /\ stdout s' = stdout s
       /\ (forall m,
              get_runtime_terms (node_runtime_terms s') m
              = if decide (definition_node dmap target = m)
                then get_runtime_terms (node_runtime_terms s) m
                     ∪ get_runtime_terms_of_definition_node dmap value s
                else get_runtime_terms (node_runtime_terms s) m)
       /\ forall annotation',
            handle_local_syntax_directed_typing_constraints_callback
              R module_name classes u2n n2u dmap order
              (mkAst i l e (ast_AnnAssign target annotation' (Some value)))
              ss s
            = Done s'.
Proof.
  split; [done|]. intros value.
  exists (transfer dmap s (value, target)).
  split; [done|]. split; [done|]. split; [|done].
  intros m. apply get_update_def.
Qed.

(** *** Caller attribution *)

Lemma record_of_caller m c f callee n ss :
  let r := record_of R module_name m c f callee n ss in
  caller_function_name r = caller_name_of ss
  /\ caller_function_start r = caller_start_of ss
  /\ caller_function_end r = caller_end_of ss.
Proof. unfold record_of. by destruct (getsourcelines R callee). Qed.

Lemma record_of_vars_caller cv n ss r :
  record_of_vars R module_name cv n ss = Some r ->
  caller_function_name r = caller_name_of ss
  /\ caller_function_start r = caller_start_of ss
  /\ caller_function_end r = caller_end_of ss.
Proof.
  unfold record_of_vars. destruct (names_truthy cv); [|done].
  destruct (var_callee_module_name cv), (var_callee_class_name cv),
    (var_callee_function_name cv), (var_callee_function cv); try done.
  intros [= <-]. apply record_of_caller.
Qed.

(** Whatever the loop prints, also when it raises afterwards, carries
    the caller columns computed from the top of the scope stack. *)
Lemma loop_caller n func ss iterated order cv s :
  exists new,
    stdout (state_of (loop n func ss iterated order cv s)) = stdout s ++ new
    /\ forall r, r ∈ new ->
         caller_function_name r = caller_name_of ss
         /\ caller_function_start r = caller_start_of ss
         /\ caller_function_end r = caller_end_of ss.
Proof.
  revert cv s. induction order as [|t order IH]; intros cv s; simpl.
  - exists []. rewrite app_nil_r. split; [by case_decide|].
    intros r Hr. by apply elem_of_nil in Hr.
  - case_decide.
    2:{ exists []. rewrite app_nil_r. split; [done|].
        intros r Hr. by apply elem_of_nil in Hr. }
    rewrite emit_spec.
    destruct (record_of_vars R module_name (assign t cv) n ss) as [r0|] eqn:Hr0.
    + destruct (IH (assign t cv) (print r0 (add_instance dmap (nid n) t s)))
        as (new & Hout & Hnew).
      exists (r0 :: new). split.
      * rewrite Hout. simpl. rewrite add_instance_stdout.
        by rewrite <- app_assoc.
      * intros r [->|Hr]%elem_of_cons; [|by apply Hnew].
        by eapply record_of_vars_caller.
    + destruct (names_truthy (assign t cv)).
      * exists []. rewrite app_nil_r. simpl.
        split; [by rewrite add_instance_stdout|].
        intros r Hr. by apply elem_of_nil in Hr.
      * destruct (IH (assign t cv) (add_instance dmap (nid n) t s))
          as (new & Hout & Hnew).
        exists new. split; [|done].
        by rewrite Hout, add_instance_stdout.
Qed.

(** C9. The records printed for a call node attribute the caller from
    the innermost entry of the scope stack alone: the caller name is that
    node's [name] if it has one and [None] otherwise, the caller lines
    are that node's.  Hence a call inside a lambda or a comprehension has
    caller name [None] and the lines of the lambda or comprehension,
    whatever encloses it, and a call at module level has caller name
    [None]. *)
Theorem caller_attribution order i l e func ss s :
  exists new,
    stdout
      (state_of
         (handle_local_syntax_directed_typing_constraints_callback
            R module_name classes u2n n2u dmap order
            (mkAst i l e (ast_Call func)) ss s))
    = stdout s ++ new
    /\ forall r, r ∈ new ->
         (caller_function_name r
          = match last ss with
            | Some scope => getattr_name scope
            | None => None
            end
          /\ caller_function_start r
             = match last ss with
               | Some scope => lineno scope
               | None => None
               end
          /\ caller_function_end r
             = match last ss with
               | Some scope => end_lineno scope
               | None => None
               end)
         /\ (forall outer inner,
                ss = outer ++ [inner] ->
                kind inner ∈ [ast_Lambda; ast_ListComp; ast_SetComp;
                              ast_DictComp; ast_GeneratorExp] ->
                caller_function_name r = None
                /\ caller_function_start r = lineno inner
                /\ caller_function_end r = end_lineno inner)
         /\ (ss = [] \/ (exists m, ss = [m] /\ kind m = ast_Module) ->
             caller_function_name r = None).
Proof.
  unfold handle_local_syntax_directed_typing_constraints_callback.
  cbn [kind].
  destruct (loop_caller (mkAst i l e (ast_Call func)) func ss
              (get_def func s) order unset_callee_vars s)
    as (new & Hout & Hnew).
  exists new. split; [done|].
  intros r Hr. destruct (Hnew r Hr) as (Hname & Hstart & Hend).
  unfold caller_name_of, caller_start_of, caller_end_of in *.
  split; [done|]. split.
  - intros outer inner -> Hkind. rewrite last_snoc in *.
    split; [|done]. rewrite Hname. unfold getattr_name.
    repeat (apply elem_of_cons in Hkind as [Hk|Hkind]; [by rewrite Hk|]).
    by apply elem_of_nil in Hkind.
  - intros [->|(m & -> & Hm)]; [done|].
    rewrite Hname. simpl. unfold getattr_name. by rewrite Hm.
Qed.

(** *** Emission for a bridged function definition *)

(** The rule of a call whose callee holds the definition of [foo] alone
    when the call is visited, a definition bridged to its live function,
    made inside [bar]: exactly one record is printed for the call node,
    whatever the iteration order.  It names the callee's module, the
    class [global] and the function [foo], gives the callee's first and
    last source line, the caller's module, the caller [bar], the line of
    the call and the lines of [bar], and ends with the callee's signature
    between double quotes. *)
Lemma resolved_call_record i l e func ss s foo unwrapped callee_module bar o
    (Hcallee : get_runtime_terms_of_definition_node dmap func s
               = {[ TFunction (FunctionDefinition foo) ]})
    (Hbridge : n2u !! foo = Some unwrapped)
    (Hmodule : function_module R unwrapped = Some callee_module)
    (Hnonempty : callee_module ≠ "")
    (Hname : function_name R unwrapped = "foo")
    (Hscope : last ss = Some bar)
    (Hbar : getattr_name bar = Some "bar")
    (Hrun : callback_runs R module_name classes u2n n2u dmap
              (mkAst i l e (ast_Call func)) ss s o) :
  let r :=
    {| callee_module_name := callee_module;
       callee_class_name := "global";
       callee_function_name := "foo";
       start_line := (getsourcelines R unwrapped).2;
       end_line := (getsourcelines R unwrapped).2
                   + Z.of_nat (length (getsourcelines R unwrapped).1) - 1;
       caller_module_name := module_name;
       caller_function_name := Some "bar";
       call_line := l;
       caller_function_start := lineno bar;
       caller_function_end := end_lineno bar;
       signature := signature_of R unwrapped |} in
  o = Done (print r s)
  /\ stdout (state_of o) = stdout s ++ [r]
  /\ node_runtime_terms (state_of o) = node_runtime_terms s
  /\ render r
     = (callee_module ++ ",global,foo,"
        ++ str_of_int (start_line r) ++ "," ++ str_of_int (end_line r)
        ++ "," ++ module_name ++ ",bar," ++ str_of_optional_int l ++ ","
        ++ str_of_optional_int (lineno bar) ++ ","
        ++ str_of_optional_int (end_lineno bar) ++ ","
        ++ double_quote ++ signature_of R unwrapped ++ double_quote)%string.
Proof.
  intros r.
  apply callback_runs_inv in Hrun as (order & Horder & ->).
  unfold iteration_order, iterated_set in Horder. cbn [kind] in Horder.
  rewrite Hcallee, elements_singleton in Horder.
  apply Permutation_singleton_r in Horder as ->.
  assert (Hdone : callback [TFunction (FunctionDefinition foo)]
                    (mkAst i l e (ast_Call func)) ss s = Done (print r s)).
  { unfold handle_local_syntax_directed_typing_constraints_callback.
    cbn [kind call_loop assign_callee add_instance].
    destruct (decide (get_def func s = get_def func s)) as [_|Hn];
      [|by destruct Hn].
    rewrite Hbridge, emit_spec. unfold record_of_vars, names_truthy.
    cbn [var_callee_module_name var_callee_class_name
         var_callee_function_name var_callee_function].
    rewrite Hmodule, Hname. unfold truthy.
    rewrite !bool_decide_true by done. cbn [andb].
    assert (Hr : record_of R module_name callee_module "global" "foo"
                   unwrapped (mkAst i l e (ast_Call func)) ss = r).
    { subst r. unfold record_of, caller_name_of, caller_start_of,
        caller_end_of.
      destruct (getsourcelines R unwrapped) as [lines start].
      by rewrite Hscope, Hbar. }
    rewrite Hr.
    destruct (decide _) as [_|Hn]; [done|by destruct Hn]. }
  rewrite Hdone. split; [done|]. split; [done|]. split; [done|].
  reflexivity.
Qed.

(** *** Assignments *)

Lemma pairwise_snoc {A} (l : list A) x y :
  pairwise (l ++ [x; y]) = pairwise (l ++ [x]) ++ [(x, y)].
Proof.
  induction l as [|a [|b l] IH]; try done.
  simpl in *. by rewrite IH.
Qed.

(** The leftmost target of a chain is processed last, from the node
    immediately to its right. *)
Lemma assign_chain_step t ts value s :
  fold_left (transfer dmap) (pairwise (rev ((t :: ts) ++ [value]))) s
  = transfer dmap
      (fold_left (transfer dmap) (pairwise (rev (ts ++ [value]))) s)
      (hd value ts, t).
Proof.
  assert (exists pre, rev (ts ++ [value]) = pre ++ [hd value ts])
    as [pre Hpre].
  { destruct ts as [|x ts]; simpl.
    - by exists [].
    - by exists (rev (ts ++ [value])). }
  simpl. rewrite Hpre, <- app_assoc. simpl.
  by rewrite pairwise_snoc, fold_left_app.
Qed.

Lemma assign_chain_nil value s :
  fold_left (transfer dmap) (pairwise (rev ([] ++ [value]))) s = s.
Proof. done. Qed.

Lemma assign_chain_superset targets value s t :
  t ∈ targets ->
  get_def value s
  ⊆ get_def t
      (fold_left (transfer dmap) (pairwise (rev (targets ++ [value]))) s).
Proof.
  revert t. induction targets as [|t0 ts IH]; intros t Ht.
  - by apply elem_of_nil in Ht.
  - rewrite assign_chain_step.
    set (mid := fold_left (transfer dmap) (pairwise (rev (ts ++ [value]))) s)
      in *.
    assert (Hright : get_def value s ⊆ get_def (hd value ts) mid).
    { destruct ts as [|x ts]; simpl.
      - apply (fold_transfer_grows _ s).
      - apply IH. left. }
    unfold get_runtime_terms_of_definition_node, transfer.
    rewrite get_update_def.
    apply elem_of_cons in Ht as [->|Ht].
    + rewrite decide_True by done.
      unfold get_runtime_terms_of_definition_node in Hright.
      etrans; [apply Hright|]. apply union_subseteq_r.
    + specialize (IH t Ht).
      unfold get_runtime_terms_of_definition_node in IH.
      case_decide; [|done]. etrans; [apply IH|]. apply union_subseteq_l.
Qed.

Lemma assign_chain_fresh targets value s :
  (forall t, t ∈ targets -> get_def t s = ∅) ->
  let s' :=
    fold_left (transfer dmap) (pairwise (rev (targets ++ [value]))) s in
  forall m,
    ((exists t, t ∈ targets /\ defn t = m) ->
     get_runtime_terms (node_runtime_terms s') m = get_def value s)
    /\ ((forall t, t ∈ targets -> defn t ≠ m) ->
        get_runtime_terms (node_runtime_terms s') m
        = get_runtime_terms (node_runtime_terms s) m).
Proof.
  induction targets as [|t0 ts IH]; intros Hfresh s' m.
  - split; [|done]. intros (t & Ht & _). by apply elem_of_nil in Ht.
  - subst s'. rewrite assign_chain_step.
    assert (Hfresh' : forall t, t ∈ ts -> get_def t s = ∅).
    { intros t Ht. apply Hfresh. by right. }
    specialize (IH Hfresh'). cbn zeta in IH.
    set (mid := fold_left (transfer dmap) (pairwise (rev (ts ++ [value]))) s)
      in *.
    assert (Hin : forall k,
               (exists t, t ∈ ts /\ defn t = k) \/
               (forall t, t ∈ ts -> defn t ≠ k)).
    { intros k. clear. induction ts as [|x ts IHts].
      - right. intros t Ht. by apply elem_of_nil in Ht.
      - destruct (decide (defn x = k)) as [<-|Hne].
        + left. exists x. split; [left|done].
        + destruct IHts as [(t & Ht & E)|Hall].
          * left. exists t. split; [by right|done].
          * right. intros t [->|Ht]%elem_of_cons; [done|by apply Hall]. }
    assert (Hvalue : get_runtime_terms (node_runtime_terms mid) (defn value)
                     = get_def value s).
    { destruct (Hin (defn value)) as [Hex|Hall].
      - exact (proj1 (IH (defn value)) Hex).
      - exact (proj2 (IH (defn value)) Hall). }
    assert (Hright : get_def (hd value ts) mid = get_def value s).
    { destruct ts as [|x ts]; simpl; [done|].
      apply (proj1 (IH (defn x))). exists x. split; [left|done]. }
    unfold transfer. rewrite get_update_def, Hright.
    split.
    + intros (t & Ht & <-).
      case_decide as Hd.
      * destruct (Hin (defn t)) as [Hex|Hall].
        -- rewrite (proj1 (IH (defn t)) Hex). apply (idemp_L (∪)).
        -- rewrite (proj2 (IH (defn t)) Hall).
           assert (E : get_def t0 s = ∅) by (apply Hfresh; left).
           unfold get_runtime_terms_of_definition_node in E.
           rewrite <- Hd, E. apply (left_id_L ∅ (∪)).
      * apply (proj1 (IH (defn t))).
        apply elem_of_cons in Ht as [->|Ht]; [done|]. by exists t.
    + intros Hall. rewrite decide_False by (apply Hall; left).
      apply (proj2 (IH m)). intros t Ht. apply Hall. by right.
Qed.

(** C4. An assignment is processed right to left over its chain: the
    leftmost target is processed after all the targets to its right, and
    then receives the terms which the node immediately to its right has
    at that time.  Every target thus has in the end at least the terms of
    the assigned value, and exactly those when the definition nodes of
    the targets had no terms before: for [a = b = f()] with [f()] at
    [{Instance(C)}], both [a] and [b] end with [{Instance(C)}]. *)
Theorem assignment_transfer order i l e targets value ss s :
  exists s',
    handle_local_syntax_directed_typing_constraints_callback
      R module_name classes u2n n2u dmap order
      (mkAst i l e (ast_Assign targets value)) ss s
    = Done s'
    /\ stdout s' = stdout s
    /\ (forall t ts,
           targets = t :: ts ->
           exists s_right,
             handle_local_syntax_directed_typing_constraints_callback
               R module_name classes u2n n2u dmap order
               (mkAst i l e (ast_Assign ts value)) ss s
             = Done s_right
             /\ s' = update_runtime_terms_of_definition_node dmap t
                       (get_runtime_terms_of_definition_node dmap
                          (hd value ts) s_right)
                       s_right)
    /\ (forall t,
           t ∈ targets ->
           get_runtime_terms_of_definition_node dmap value s
           ⊆ get_runtime_terms_of_definition_node dmap t s')
    /\ ((forall t,
            t ∈ targets ->
            get_runtime_terms_of_definition_node dmap t s = ∅) ->
        forall t,
          t ∈ targets ->
          get_runtime_terms_of_definition_node dmap t s'
          = get_runtime_terms_of_definition_node dmap value s).
Proof.
  eexists. split; [reflexivity|].
  split; [apply fold_transfer_stdout|].
  split; [|split].
  - intros t ts ->. eexists. split; [reflexivity|].
    apply assign_chain_step.
  - intros t Ht. by apply assign_chain_superset.
  - intros Hfresh t Ht.
    apply (assign_chain_fresh targets value s Hfresh). by exists t.
Qed.

(** *** Literals *)

Lemma loop_frame n func ss iterated order cv s d :
  defn (nid n) ≠ d ->
  get_runtime_terms
    (node_runtime_terms (state_of (loop n func ss iterated order cv s))) d
  = get_runtime_terms (node_runtime_terms s) d.
Proof.
  intros Hne. revert cv s.
  induction order as [|t order IH]; intros cv s; simpl.
  - by case_decide.
  - case_decide; [|done].
    assert (Hadd : get_runtime_terms
                     (node_runtime_terms (add_instance dmap (nid n) t s)) d
                   = get_runtime_terms (node_runtime_terms s) d).
    { destruct t; try done. simpl.
      by rewrite get_update_runtime_terms_ne. }
    rewrite emit_spec.
    destruct (record_of_vars _ _ _ _ _).
    + by rewrite IH, print_terms.
    + destruct (names_truthy _); [done|]. by rewrite IH.
Qed.

Lemma pairwise_snd_in_tail {A} (l : list A) x y :
  (x, y) ∈ pairwise l -> y ∈ tail l.
Proof.
  induction l as [|a [|b l] IH]; simpl.
  - intros H. by apply elem_of_nil in H.
  - intros H. by apply elem_of_nil in H.
  - intros [[= -> ->]|H]%elem_of_cons; [left|].
    right. by apply IH.
Qed.

Lemma fold_transfer_frame ps s d :
  (forall x y, (x, y) ∈ ps -> defn y ≠ d) ->
  get_runtime_terms
    (node_runtime_terms (fold_left (transfer dmap) ps s)) d
  = get_runtime_terms (node_runtime_terms s) d.
Proof.
  revert s. induction ps as [|[x y] ps IH]; intros s Hps; simpl; [done|].
  rewrite IH.
  - unfold transfer. rewrite get_update_def, decide_False; [done|].
    eapply Hps. left.
  - intros x' y' Hin. eapply Hps. by right.
Qed.

(** A rule changes the terms of no definition node other than those of
    the nodes it writes through. *)
Lemma callback_frame order n ss s d :
  (forall w, w ∈ written_by n -> defn w ≠ d) ->
  get_runtime_terms
    (node_runtime_terms (state_of (callback order n ss s))) d
  = get_runtime_terms (node_runtime_terms s) d.
Proof.
  unfold written_by,
    handle_local_syntax_directed_typing_constraints_callback,
    update_runtime_terms_of_definition_node_from_runtime_class.
  intros Hw.
  assert (Htransfer : forall v t,
             defn t ≠ d ->
             get_runtime_terms
               (node_runtime_terms (transfer dmap s (v, t))) d
             = get_runtime_terms (node_runtime_terms s) d).
  { intros v t Ht. unfold transfer. by rewrite get_update_def, decide_False. }
  destruct (kind n) eqn:K;
    repeat match goal with
      | |- context [match ?o with Some _ => _ | None => _ end] => destruct o
      end;
    cbn [state_of]; try done;
    try (rewrite get_update_def; rewrite decide_False; [done|];
         apply Hw; left);
    try (apply Htransfer; apply Hw; left).
  - apply loop_frame. apply Hw. left.
  - apply fold_transfer_frame. intros x y Hin.
    apply pairwise_snd_in_tail in Hin.
    rewrite rev_app_distr in Hin. simpl in Hin.
    apply Hw. apply list_elem_of_In. rewrite in_rev.
    by apply list_elem_of_In.
Qed.

Lemma callback_literal order n ss s c :
  literal_class (kind n) = Some c ->
  callback order n ss s
  = Done (update_def (nid n) {[ TInstance (mkInstance c) ]} s).
Proof.
  unfold literal_class,
    handle_local_syntax_directed_typing_constraints_callback,
    update_runtime_terms_of_definition_node_from_runtime_class.
  by destruct (kind n); intros [= <-].
Qed.

Lemma written_by_literal n c :
  literal_class (kind n) = Some c -> written_by n = [nid n].
Proof. unfold literal_class, written_by. by destruct (kind n). Qed.

(** The terms of a definition node that only literal rules of class [c]
    write to. *)
Lemma pass_literal_only visits s o d c :
  runs visits s o ->
  (forall n ss w,
      (n, ss) ∈ visits -> w ∈ written_by n -> defn w = d ->
      literal_class (kind n) = Some c) ->
  get_runtime_terms (node_runtime_terms (state_of o)) d
  ⊆ get_runtime_terms (node_runtime_terms s) d
    ∪ {[ TInstance (mkInstance c) ]}.
Proof.
  induction 1 as [s | n ss visits s s' o Hcb _ IH | n ss visits s e s' Hcb];
    intros Hlit.
  - apply union_subseteq_l.
  - etrans.
    { apply IH. intros n' ss' w Hin Hw Hd.
      apply (Hlit n' ss' w); [by right|done|done]. }
    apply callback_runs_inv in Hcb as (order & _ & E).
    destruct (decide (Exists (fun w => defn w = d) (written_by n)))
      as [Hex|Hnone].
    + apply Exists_exists in Hex as (w & Hw & Hd).
      assert (Hc : literal_class (kind n) = Some c).
      { apply (Hlit n ss w); [left|done|done]. }
      rewrite (callback_literal order n ss s c Hc) in E.
      injection E as ->. rewrite get_update_def.
      case_decide; [|done].
      apply union_least; [done|apply union_subseteq_r].
    + assert (Hf : get_runtime_terms (node_runtime_terms s') d
                   = get_runtime_terms (node_runtime_terms s) d).
      { pose proof (callback_frame order n ss s d) as Hfr.
        rewrite <- E in Hfr. apply Hfr.
        intros w Hw Hd. apply Hnone. apply Exists_exists.
        by exists w. }
      by rewrite Hf.
  - apply callback_runs_inv in Hcb as (order & _ & E).
    cbn [state_of].
    destruct (decide (Exists (fun w => defn w = d) (written_by n)))
      as [Hex|Hnone].
    + apply Exists_exists in Hex as (w & Hw & Hd).
      assert (Hc : literal_class (kind n) = Some c).
      { apply (Hlit n ss w); [left|done|done]. }
      by rewrite (callback_literal order n ss s c Hc) in E.
    + pose proof (callback_frame order n ss s d) as Hfr.
      rewrite <- E in Hfr. cbn [state_of] in Hfr. rewrite Hfr.
      * apply union_subseteq_l.
      * intros w Hw Hd. apply Hnone. apply Exists_exists.
        by exists w.
Qed.

Lemma pass_literal_visited visits s s' n ss c :
  runs visits s (Done s') ->
  (n, ss) ∈ visits ->
  literal_class (kind n) = Some c ->
  TInstance (mkInstance c) ∈ get_def (nid n) s'.
Proof.
  intros Hrun. remember (Done s') as o eqn:Ho. revert Ho.
  induction Hrun as [s | n' ss' visits s s1 o Hcb Hrest IH | ];
    intros Ho Hin Hlit; [by apply elem_of_nil in Hin | | done].
  apply elem_of_cons in Hin as [[= <- <-]|Hin]; [|by apply IH].
  subst o. apply callback_runs_inv in Hcb as (order & _ & E).
  rewrite (callback_literal order n ss s c Hlit) in E. injection E as ->.
  apply (pass_grows _ _ _ Hrest). cbn [state_of].
  rewrite get_update_def, decide_True by done.
  apply elem_of_union_r. by apply elem_of_singleton.
Qed.

(** C3. After a completed pass, the term set of a visited literal,
    f-string, display or comprehension node is exactly the instance of
    its class (the type of the literal's value, [str], [list], [tuple],
    [set], [dict] or [Generator]).  The node is one that [ast.parse] has
    just made, so its definition node has no term before the pass; and
    it is an expression, so the visits whose rule stores into its
    definition node are that of the node itself and, at most, those of
    other literals of the same class: no assignment has it as a target,
    as it would have a list or a tuple of names in store context, which
    is a target and no display. *)
Theorem literal_soundness visits s s' n ss c
    (Hrun : pass_runs R module_name classes u2n n2u dmap visits s (Done s'))
    (Hin : (n, ss) ∈ visits)
    (Hlit : literal_class (kind n) = Some c)
    (Hfresh : get_runtime_terms_of_definition_node dmap (nid n) s = ∅)
    (Hexpression :
       forall n' ss' w,
         (n', ss') ∈ visits -> w ∈ written_by n' ->
         definition_node dmap w = definition_node dmap (nid n) ->
         literal_class (kind n') = Some c) :
  get_runtime_terms_of_definition_node dmap (nid n) s'
  = {[ TInstance (mkInstance c) ]}.
Proof.
  pose proof (pass_literal_visited _ _ _ _ _ _ Hrun Hin Hlit) as Hmem.
  pose proof (pass_literal_only _ _ _ (defn (nid n)) c Hrun Hexpression)
    as Hsub.
  unfold get_runtime_terms_of_definition_node in *.
  cbn [state_of] in Hsub. rewrite Hfresh in Hsub.
  apply set_eq. intros x. split.
  - intros Hx. apply Hsub in Hx. by rewrite (left_id_L ∅ (∪)) in Hx.
  - intros Hx. apply elem_of_singleton in Hx. by subst x.
Qed.

(** *** Calls of classes *)

Lemma add_instances_grows n order s :
  terms_grow s (add_instances dmap n order s).
Proof.
  unfold add_instances. revert s.
  induction order as [|t order IH]; intros s; simpl.
  - apply terms_grow_refl.
  - eapply terms_grow_trans; [apply add_instance_grows | apply IH].
Qed.

Lemma add_instances_class n order s c :
  TRuntimeClass c ∈ order ->
  TInstance (mkInstance c) ∈ get_def n (add_instances dmap n order s).
Proof.
  revert s. induction order as [|t order IH]; intros s Hin.
  - by apply elem_of_nil in Hin.
  - apply elem_of_cons in Hin as [<-|Hin]; [|by apply IH].
    apply (add_instances_grows n order
             (add_instance dmap n (TRuntimeClass c) s) (defn n)).
    cbn [add_instance].
    rewrite get_update_def, decide_True by done.
    apply elem_of_union_r. by apply elem_of_singleton.
Qed.

(** The record a class gives rise to by itself. *)
Lemma own_record_class n ss c :
  own n ss (TRuntimeClass c)
  = match u2n !! get_unwrapped_constructor R c, class_module R c with
    | Some _, Some m =>
        if bool_decide (m ≠ "")
           && bool_decide (class_name R c ≠ "")
           && bool_decide (function_name R (get_unwrapped_constructor R c)
                           ≠ "")
        then Some (record_of R module_name m (class_name R c)
                     (function_name R (get_unwrapped_constructor R c))
                     (get_unwrapped_constructor R c) n ss)
        else None
    | _, _ => None
    end.
Proof.
  unfold own_record. cbn [assign_callee].
  destruct (u2n !! get_unwrapped_constructor R c); [|done].
  unfold record_of_vars, names_truthy. cbn.
  destruct (class_module R c) as [m|]; [|done]. cbn.
  by destruct (bool_decide (m ≠ "") && _ && _).
Qed.

(** C6, as the engine has it.  A call node, apart from its callee, whose
    callee has the class [c] among its terms: the loop completes and the
    call node's term set holds [Instance(c)] in every case.  When the
    unwrapped constructor of [c] is in the mapping and the module name and
    the name of the class and the name of the constructor are not empty,
    the record naming the class and its constructor is among those
    printed.  When the constructor is not in the mapping, or one of the
    names is empty, the class gives rise to no record: every record
    printed is that of another term of the callee. *)
Theorem class_call i l e func ss s order c
    (Hapart : definition_node dmap i ≠ definition_node dmap func)
    (Horder :
       order ≡ₚ elements (get_runtime_terms_of_definition_node dmap func s))
    (Hclass :
       TRuntimeClass c ∈ get_runtime_terms_of_definition_node dmap func s) :
  let n := mkAst i l e (ast_Call func) in
  let constructor := get_unwrapped_constructor R c in
  exists s' new,
    handle_local_syntax_directed_typing_constraints_callback
      R module_name classes u2n n2u dmap order n ss s
    = Done s'
    /\ stdout s' = stdout s ++ new
    /\ TInstance (mkInstance c)
       ∈ get_runtime_terms_of_definition_node dmap i s'
    /\ (forall m,
           is_Some (u2n !! constructor) ->
           class_module R c = Some m ->
           m ≠ "" ->
           class_name R c ≠ "" ->
           function_name R constructor ≠ "" ->
           record_of R module_name m (class_name R c)
             (function_name R constructor) constructor n ss ∈ new)
    /\ (u2n !! constructor = None
        \/ truthy (class_module R c) = false
        \/ class_name R c = ""
        \/ function_name R constructor = "" ->
        forall r, r ∈ new ->
          exists t,
            t ∈ get_runtime_terms_of_definition_node dmap func s
            /\ t ≠ TRuntimeClass c
            /\ own_record R module_name u2n n2u n ss t = Some r).
Proof.
  intros n constructor.
  assert (Hin : TRuntimeClass c ∈ order).
  { rewrite Horder. by apply elem_of_elements. }
  unfold handle_local_syntax_directed_typing_constraints_callback.
  cbn [kind n].
  destruct (loop_completes n func ss (get_def func s) order
              unset_callee_vars s) as [s' Hs']; [done|by left|done|].
  destruct (loop_result n func ss _ order _ s s' (or_introl eq_refl) Hs')
    as (Ht & new & Hout & Hsub & Hsup).
  exists s', new. split; [done|]. split; [done|]. split.
  { unfold get_runtime_terms_of_definition_node. rewrite Ht.
    by apply (add_instances_class i order s c). }
  split.
  - intros m [d Hd] Hm Hm' Hc Hf.
    apply (Hsup (TRuntimeClass c)); [done|].
    rewrite own_record_class. fold constructor. rewrite Hd, Hm.
    by rewrite !bool_decide_true.
  - intros Hnone r Hr.
    destruct (Hsub r Hr) as [Hu|(t & Ht' & Hown)]; [done|].
    exists t. split; [|split; [|done]].
    + apply elem_of_elements. by rewrite <- Horder.
    + intros ->. rewrite own_record_class in Hown. fold constructor in Hown.
      destruct (u2n !! constructor); [|done].
      destruct (class_module R c) as [m|]; [|done].
      destruct Hnone as [?|[Hm|[Hc|Hf]]]; [done| | |].
      * simpl in Hm. by rewrite Hm in Hown.
      * rewrite (bool_decide_false (class_name R c ≠ "")) in Hown by tauto.
        by rewrite andb_false_r in Hown.
      * rewrite (bool_decide_false (function_name R constructor ≠ ""))
          in Hown by tauto.
        by rewrite andb_false_r in Hown.
Qed.

(** *** More on calls *)

(** X1. A call whose callee has no recorded term, as for a name that resolves
    to nothing: nothing is printed, nothing is stored, not even an empty
    entry for the call node. *)
Theorem call_of_unresolved_callee i l e func ss s o
    (Hcallee : get_runtime_terms_of_definition_node dmap func s = ∅)
    (Hrun : callback_runs R module_name classes u2n n2u dmap
              (mkAst i l e (ast_Call func)) ss s o) :
  o = Done s.
Proof.
  apply callback_runs_inv in Hrun as (order & Horder & ->).
  unfold iteration_order, iterated_set in Horder. cbn [kind] in Horder.
  rewrite Hcallee, elements_empty in Horder.
  apply Permutation_nil_r in Horder as ->.
  unfold handle_local_syntax_directed_typing_constraints_callback.
  cbn [kind call_loop]. by rewrite decide_True.
Qed.

Lemma own_record_bound t : callee_bound (assign t unset_callee_vars).
Proof. apply assign_callee_bound. by left. Qed.

(** The call rule on a callee with a single term. *)
Lemma call_single i l e func ss s t o :
  get_def func s = {[ t ]} ->
  (defn i ≠ defn func \/ forall c, t ≠ TRuntimeClass c) ->
  callback_runs R module_name classes u2n n2u dmap
    (mkAst i l e (ast_Call func)) ss s o ->
  o = Done
        (match own (mkAst i l e (ast_Call func)) ss t with
         | Some r => print r (add_instance dmap i t s)
         | None => add_instance dmap i t s
         end).
Proof.
  intros Hcallee Hsafe Hrun.
  apply callback_runs_inv in Hrun as (order & Horder & ->).
  unfold iteration_order, iterated_set in Horder. cbn [kind] in Horder.
  rewrite Hcallee, elements_singleton in Horder.
  apply Permutation_singleton_r in Horder as ->.
  unfold handle_local_syntax_directed_typing_constraints_callback.
  cbn [kind call_loop nid].
  rewrite decide_True by done.
  rewrite emit_bound by apply own_record_bound.
  assert (Hkeep : get_def func (add_instance dmap i t s) = get_def func s).
  { destruct Hsafe as [Hne|Hnc].
    - by apply add_instance_get_func.
    - destruct t; try done. by destruct (Hnc c). }
  unfold own_record.
  destruct (record_of_vars R module_name (assign t unset_callee_vars) _ ss).
  - rewrite decide_True; [done|].
    unfold get_runtime_terms_of_definition_node in *.
    by rewrite print_terms, Hkeep.
  - by rewrite decide_True.
Qed.

Lemma loop_length n func ss iterated order cv s s' :
  loop n func ss iterated order cv s = Done s' ->
  (length (stdout s') <= length (stdout s) + length order)%nat.
Proof.
  revert cv s. induction order as [|t order IH]; intros cv s; simpl.
  - case_decide; [|done]. intros [= <-]. lia.
  - case_decide; [|done]. rewrite emit_spec.
    destruct (record_of_vars _ _ _ _ _).
    + intros H'. apply IH in H'. simpl in H'.
      rewrite length_app, add_instance_stdout in H'. simpl in H'. lia.
    + destruct (names_truthy _); [done|].
      intros H'. apply IH in H'. rewrite add_instance_stdout in H'. lia.
Qed.

Lemma add_instances_elem n order s x m :
  x ∈ get_runtime_terms (node_runtime_terms (add_instances dmap n order s)) m
  <-> x ∈ get_runtime_terms (node_runtime_terms s) m
      \/ (defn n = m
          /\ exists c, x = TInstance (mkInstance c) /\ TRuntimeClass c ∈ order).
Proof.
  unfold add_instances. revert s.
  induction order as [|t order IH]; intros s; simpl.
  - split; [by left|]. intros [?|(_ & c & _ & Hc)]; [done|].
    by apply elem_of_nil in Hc.
  - rewrite IH. clear IH.
    assert (Hstep :
              x ∈ get_runtime_terms
                    (node_runtime_terms (add_instance dmap n t s)) m
              <-> x ∈ get_runtime_terms (node_runtime_terms s) m
                  \/ (defn n = m
                      /\ exists c, x = TInstance (mkInstance c)
                                   /\ TRuntimeClass c = t)).
    { destruct t as [?|c|?|?|? ?|? ?]; cbn [add_instance];
        try (split; [by left|]; by intros [?|(_ & c' & _ & ?)]).
      rewrite get_update_def. case_decide as Hd.
      - rewrite elem_of_union, elem_of_singleton. split.
        + intros [?| ->]; [by left|]. right. split; [done|]. by exists c.
        + intros [?|(_ & c' & -> & [= ->])]; [by left|by right].
      - split; [by left|]. by intros [?|(? & _)]. }
    rewrite Hstep. split.
    + intros [[?|(Hd & c & -> & <-)]|(Hd & c & -> & Hc)].
      * by left.
      * right. split; [done|]. exists c. split; [done|left].
      * right. split; [done|]. exists c. split; [done|by right].
    + intros [?|(Hd & c & -> & Hc)]; [by left; left|].
      apply elem_of_cons in Hc as [<-|Hc].
      * left. right. split; [done|]. by exists c.
      * right. split; [done|]. by exists c.
Qed.

(** X2. What the call rule stores and prints, whatever the order in which
    the callee's terms are yielded, for a call node apart from its
    callee: the rule completes; a record is printed if and only if it is
    the record that one of the callee's terms gives rise to by itself;
    at most one line is printed per term; and the call node's definition
    node gains an instance of every class among the terms, no other node
    changing. *)
Theorem call_stores_and_prints i l e func ss s o
    (Hapart : definition_node dmap i ≠ definition_node dmap func)
    (Hrun : callback_runs R module_name classes u2n n2u dmap
              (mkAst i l e (ast_Call func)) ss s o) :
  exists s' new,
    o = Done s'
    /\ stdout s' = stdout s ++ new
    /\ (forall r,
           r ∈ new
           <-> exists t,
                 t ∈ get_runtime_terms_of_definition_node dmap func s
                 /\ own_record R module_name u2n n2u
                      (mkAst i l e (ast_Call func)) ss t
                    = Some r)
    /\ (length new
        <= size (get_runtime_terms_of_definition_node dmap func s))%nat
    /\ (forall x m,
           x ∈ get_runtime_terms (node_runtime_terms s') m
           <-> x ∈ get_runtime_terms (node_runtime_terms s) m
               \/ (definition_node dmap i = m
                   /\ exists c,
                        x = TInstance (mkInstance c)
                        /\ TRuntimeClass c
                           ∈ get_runtime_terms_of_definition_node dmap
                               func s)).
Proof.
  apply callback_runs_inv in Hrun as (order & Horder & ->).
  unfold iteration_order, iterated_set in Horder. cbn [kind] in Horder.
  unfold handle_local_syntax_directed_typing_constraints_callback.
  cbn [kind].
  destruct (loop_completes (mkAst i l e (ast_Call func)) func ss
              (get_def func s) order unset_callee_vars s)
    as [s' Hs']; [done|by left|done|].
  destruct (loop_result _ func ss _ order _ s s' (or_introl eq_refl) Hs')
    as (Ht & new & Hout & Hsub & Hsup).
  exists s', new. split; [done|]. split; [done|]. split; [|split].
  - intros r. split.
    + intros Hr. destruct (Hsub r Hr) as [?|(t & Ht' & Hown)]; [done|].
      exists t. split; [|done]. apply elem_of_elements. by rewrite <- Horder.
    + intros (t & Ht' & Hown). apply (Hsup t); [|done].
      rewrite Horder. by apply elem_of_elements.
  - apply loop_length in Hs'. rewrite Hout, length_app in Hs'.
    rewrite Horder in Hs'. unfold size, set_size. simpl in *. lia.
  - intros x m. rewrite Ht. cbn [nid]. rewrite add_instances_elem.
    split; (intros [?|(Hd & c & -> & Hc)]; [by left|]);
      right; (split; [done|]); exists c; (split; [done|]).
    + apply elem_of_elements. by rewrite <- Horder.
    + rewrite Horder. by apply elem_of_elements.
Qed.

(** *** What is printed *)

Lemma record_of_vars_well_formed cv n ss r :
  record_of_vars R module_name cv n ss = Some r ->
  callee_module_name r ≠ ""
  /\ callee_class_name r ≠ ""
  /\ callee_function_name r ≠ ""
  /\ caller_module_name r = module_name
  /\ call_line r = lineno n
  /\ caller_function_name r = caller_name_of ss
  /\ start_line r - 1 <= end_line r.
Proof.
  unfold record_of_vars. destruct (names_truthy cv) eqn:Ht; [|done].
  unfold names_truthy, truthy in Ht.
  destruct (var_callee_module_name cv) as [m|],
    (var_callee_class_name cv) as [c|],
    (var_callee_function_name cv) as [f|],
    (var_callee_function cv) as [callee|]; try done;
    try (by rewrite ?andb_false_r in Ht).
  apply andb_prop in Ht as [[Hm Hc]%andb_prop Hf].
  apply bool_decide_eq_true_1 in Hm, Hc, Hf.
  intros [= <-]. unfold record_of.
  destruct (getsourcelines R callee) as [lines start]. cbn.
  repeat split; try done. lia.
Qed.

Lemma loop_records n func ss iterated order cv s :
  exists new,
    stdout (state_of (loop n func ss iterated order cv s)) = stdout s ++ new
    /\ forall r, r ∈ new ->
         exists cv', record_of_vars R module_name cv' n ss = Some r.
Proof.
  revert cv s. induction order as [|t order IH]; intros cv s; simpl.
  - exists []. rewrite app_nil_r. split; [by case_decide|].
    intros r Hr. by apply elem_of_nil in Hr.
  - case_decide.
    2:{ exists []. rewrite app_nil_r. split; [done|].
        intros r Hr. by apply elem_of_nil in Hr. }
    rewrite emit_spec.
    destruct (record_of_vars R module_name (assign t cv) n ss) as [r0|] eqn:Hr0.
    + destruct (IH (assign t cv) (print r0 (add_instance dmap (nid n) t s)))
        as (new & Hout & Hnew).
      exists (r0 :: new). split.
      * rewrite Hout. simpl. rewrite add_instance_stdout.
        by rewrite <- app_assoc.
      * intros r [->|Hr]%elem_of_cons; [by eexists|by apply Hnew].
    + destruct (names_truthy (assign t cv)).
      * exists []. rewrite app_nil_r. simpl.
        split; [by rewrite add_instance_stdout|].
        intros r Hr. by apply elem_of_nil in Hr.
      * destruct (IH (assign t cv) (add_instance dmap (nid n) t s))
          as (new & Hout & Hnew).
        exists new. split; [|done].
        by rewrite Hout, add_instance_stdout.
Qed.

Lemma callback_records order n ss s :
  exists new,
    stdout (state_of (callback order n ss s)) = stdout s ++ new
    /\ forall r, r ∈ new ->
         (exists func, kind n = ast_Call func)
         /\ exists cv', record_of_vars R module_name cv' n ss = Some r.
Proof.
  assert (Hnone : forall s',
             stdout s' = stdout s ->
             exists new,
               stdout s' = stdout s ++ new
               /\ forall r, r ∈ new ->
                    (exists func, kind n = ast_Call func)
                    /\ exists cv',
                         record_of_vars R module_name cv' n ss = Some r).
  { intros s' Hs'. exists []. rewrite app_nil_r. split; [done|].
    intros r Hr. by apply elem_of_nil in Hr. }
  unfold handle_local_syntax_directed_typing_constraints_callback,
    update_runtime_terms_of_definition_node_from_runtime_class.
  destruct (kind n) eqn:K;
    repeat match goal with
      | |- context [match ?o with Some _ => _ | None => _ end] => destruct o
      end;
    cbn [state_of];
    try (apply Hnone;
         first [ done | apply fold_transfer_stdout | apply transfer_stdout ]).
  destruct (loop_records n func ss (get_def func s) order
              unset_callee_vars s) as (new & Hout & Hnew).
  exists new. split; [done|]. intros r Hr. split; [by eexists|by apply Hnew].
Qed.

(** X3. Over any pass, completed or raising: what was printed before stays,
    and every record the pass adds was printed for a visited call node,
    with that node's line and the caller columns of its scope stack, the
    module at hand as caller module, callee columns that are not empty,
    and a last line not before the line preceding the first.  A pass over
    visits without a call node prints nothing. *)
Theorem printed_records_well_formed visits s o
    (Hrun : pass_runs R module_name classes u2n n2u dmap visits s o) :
  exists new,
    stdout (state_of o) = stdout s ++ new
    /\ forall r, r ∈ new ->
         callee_module_name r ≠ ""
         /\ callee_class_name r ≠ ""
         /\ callee_function_name r ≠ ""
         /\ caller_module_name r = module_name
         /\ start_line r - 1 <= end_line r
         /\ exists n ss func,
              (n, ss) ∈ visits
              /\ kind n = ast_Call func
              /\ call_line r = lineno n
              /\ caller_function_name r = caller_name_of ss.
Proof.
  induction Hrun
    as [s | n ss visits s s' o Hcb _ IH | n ss visits s e s' Hcb].
  - exists []. rewrite app_nil_r. split; [done|].
    intros r Hr. by apply elem_of_nil in Hr.
  - apply callback_runs_inv in Hcb as (order & _ & E).
    destruct (callback_records order n ss s) as (new1 & Hout1 & Hnew1).
    rewrite <- E in Hout1. cbn [state_of] in Hout1.
    destruct IH as (new2 & Hout2 & Hnew2).
    exists (new1 ++ new2). split.
    { by rewrite Hout2, Hout1, app_assoc. }
    intros r [Hr|Hr]%elem_of_app.
    + destruct (Hnew1 r Hr) as ((func & K) & cv' & Hcv').
      destruct (record_of_vars_well_formed cv' n ss r Hcv')
        as (? & ? & ? & ? & ? & ? & ?).
      repeat split; try done. exists n, ss, func.
      repeat split; try done. left.
    + destruct (Hnew2 r Hr)
        as (? & ? & ? & ? & ? & n' & ss' & func & Hin & K & ? & ?).
      repeat split; try done. exists n', ss', func.
      repeat split; try done. by right.
  - apply callback_runs_inv in Hcb as (order & _ & E).
    destruct (callback_records order n ss s) as (new1 & Hout1 & Hnew1).
    rewrite <- E in Hout1. cbn [state_of] in *.
    exists new1. split; [done|].
    intros r Hr.
    destruct (Hnew1 r Hr) as ((func & K) & cv' & Hcv').
    destruct (record_of_vars_well_formed cv' n ss r Hcv')
      as (? & ? & ? & ? & ? & ? & ?).
    repeat split; try done. exists n, ss, func.
    repeat split; try done. left.
Qed.

(** *** Calls of methods, of callable instances and of what is not known *)

Lemma own_record_method n ss cls fn u m :
  (match fn with
   | FunctionDefinition f => n2u !! f = Some u
   | UnwrappedRuntimeFunction f => f = u /\ is_Some (u2n !! f)
   end) ->
  class_module R cls = Some m ->
  m ≠ "" -> class_name R cls ≠ "" -> function_name R u ≠ "" ->
  record_of_vars R module_name
    (assign_method R u2n n2u cls fn unset_callee_vars) n ss
  = Some (record_of R module_name m (class_name R cls) (function_name R u)
            u n ss).
Proof.
  intros Hfn Hm Hm' Hc Hf. unfold assign_method.
  destruct fn as [f|f].
  - rewrite Hfn. unfold record_of_vars, names_truthy. cbn.
    rewrite Hm. cbn. by rewrite !bool_decide_true.
  - destruct Hfn as [-> [d Hd]]. rewrite Hd.
    unfold record_of_vars, names_truthy. cbn.
    rewrite Hm. cbn. by rewrite !bool_decide_true.
Qed.

(** X4. A call whose callee is one method, unbound on the class [cls] or
    bound to an instance of [cls], with a function that is bridged (a
    definition found in [named_function_definitions_to_unwrapped_runtime_functions],
    or a live function found in the other mapping), when the module and
    the name of [cls] and the name of the function are strings that are
    not empty, as the test of line 174 wants them: exactly one record is
    printed, whose callee module and class are those of [cls], not those
    of the function, and whose callee name, lines and signature are the
    function's.  The call node gets no term. *)
Theorem call_of_method i l e func ss s t cls fn u m o
    (Hcallee : get_runtime_terms_of_definition_node dmap func s = {[ t ]})
    (Hmethod : t = TUnboundMethod cls fn
               \/ t = TBoundMethod (mkInstance cls) fn)
    (Hbridged : match fn with
                | FunctionDefinition f => n2u !! f = Some u
                | UnwrappedRuntimeFunction f => f = u /\ is_Some (u2n !! f)
                end)
    (Hmodule : class_module R cls = Some m)
    (Hm : m ≠ "")
    (Hclass : class_name R cls ≠ "")
    (Hname : function_name R u ≠ "")
    (Hrun : callback_runs R module_name classes u2n n2u dmap
              (mkAst i l e (ast_Call func)) ss s o) :
  o = Done
        (print
           (record_of R module_name m (class_name R cls)
              (function_name R u) u (mkAst i l e (ast_Call func)) ss)
           s).
Proof.
  rewrite (call_single i l e func ss s t o Hcallee); [| |done].
  - unfold own_record.
    destruct Hmethod as [-> | ->]; cbn [assign_callee class_ add_instance];
      by rewrite (own_record_method _ ss cls fn u m).
  - right. by destruct Hmethod as [-> | ->].
Qed.

(** X5. A call whose callee is an instance of the class [c]: with a
    [__call__] in the comprehensive dict of [c] that unwraps to a function
    of the mapping, and with a module and a name of [c] and a name of
    that function that are strings that are not empty, one record is
    printed, under the module and name of [c] and the name of the
    unwrapped function; without a [__call__], or with one that is not in
    the mapping, the call is passed over in silence.  The call node gets
    no term either way. *)
Theorem call_of_instance i l e func ss s c o
    (Hcallee : get_runtime_terms_of_definition_node dmap func s
               = {[ TInstance (mkInstance c) ]})
    (Hrun : callback_runs R module_name classes u2n n2u dmap
              (mkAst i l e (ast_Call func)) ss s o) :
  (forall call m,
      get_comprehensive_dict_for_runtime_class R c !! "__call__" = Some call ->
      is_Some (u2n !! unwrap R call) ->
      class_module R c = Some m ->
      m ≠ "" -> class_name R c ≠ "" ->
      function_name R (unwrap R call) ≠ "" ->
      o = Done
            (print
               (record_of R module_name m (class_name R c)
                  (function_name R (unwrap R call)) (unwrap R call)
                  (mkAst i l e (ast_Call func)) ss)
               s))
  /\ (get_comprehensive_dict_for_runtime_class R c !! "__call__" = None ->
      o = Done s)
  /\ (forall call,
         get_comprehensive_dict_for_runtime_class R c !! "__call__"
         = Some call ->
         u2n !! unwrap R call = None ->
         o = Done s).
Proof.
  rewrite (call_single i l e func ss s _ o Hcallee); [| by right | done].
  unfold own_record. cbn [assign_callee class_ add_instance].
  split; [|split].
  - intros call m Hcall [d Hd] Hm Hm' Hc Hf. rewrite Hcall, Hd.
    unfold record_of_vars, names_truthy. cbn. rewrite Hm. cbn.
    by rewrite !bool_decide_true.
  - intros Hcall. by rewrite Hcall.
  - intros call Hcall Hnone. by rewrite Hcall, Hnone.
Qed.

(** X6. A call whose callee is a module, a function definition that is not
    bridged to a live function, a live function that is not in the
    mapping, or a method of such a function: nothing is printed and
    nothing is stored. *)
Theorem call_of_unknown_callee i l e func ss s t o
    (Hcallee : get_runtime_terms_of_definition_node dmap func s = {[ t ]})
    (Hunknown :
       match t with
       | TModule _ => True
       | TFunction (FunctionDefinition f)
       | TUnboundMethod _ (FunctionDefinition f)
       | TBoundMethod _ (FunctionDefinition f) => n2u !! f = None
       | TFunction (UnwrappedRuntimeFunction f)
       | TUnboundMethod _ (UnwrappedRuntimeFunction f)
       | TBoundMethod _ (UnwrappedRuntimeFunction f) => u2n !! f = None
       | TRuntimeClass _ | TInstance _ => False
       end)
    (Hrun : callback_runs R module_name classes u2n n2u dmap
              (mkAst i l e (ast_Call func)) ss s o) :
  o = Done s.
Proof.
  rewrite (call_single i l e func ss s t o Hcallee); [| |done].
  - unfold own_record.
    destruct t as [?|?|?|[f|f]|? [f|f]|? [f|f]]; try done;
      cbn [assign_callee assign_method add_instance];
      by rewrite Hunknown.
  - right. intros c ->. done.
Qed.

(** *** Attribute accesses *)

(** The results gathered by lines 183-192, for any order of the terms
    of [value]. *)
Lemma attribute_access_results_elem value attr s order x :
  order ≡ₚ elements (get_def value s) ->
  x ∈ attribute_access_results R u2n attr order
  <-> exists t,
        t ∈ get_def value s
        /\ get_attribute_access_result R t attr u2n = Some x.
Proof.
  intros Horder. unfold attribute_access_results.
  rewrite elem_of_list_to_set, list_elem_of_omap.
  split; intros (t & Ht & Hx); exists t; (split; [|done]).
  - apply elem_of_elements. by rewrite <- Horder.
  - rewrite Horder. by apply elem_of_elements.
Qed.

(** X7. The rule of an attribute access, whatever the order in which the
    terms of [value] are yielded: it completes and prints nothing; the
    node's definition node gains the access results of the terms of
    [value] that have one, and no other term; no other node changes.  In
    particular, when [value] has no term, or none with that attribute,
    every term set is as before. *)
Theorem attribute_access i l e value attr ss s o
    (Hrun : callback_runs R module_name classes u2n n2u dmap
              (mkAst i l e (ast_Attribute value attr)) ss s o) :
  exists s',
    o = Done s'
    /\ stdout s' = stdout s
    /\ forall x m,
         x ∈ get_runtime_terms (node_runtime_terms s') m
         <-> x ∈ get_runtime_terms (node_runtime_terms s) m
             \/ (definition_node dmap i = m
                 /\ exists t,
                      t ∈ get_runtime_terms_of_definition_node dmap value s
                      /\ get_attribute_access_result R t attr u2n = Some x).
Proof.
  apply callback_runs_inv in Hrun as (order & Horder & ->).
  unfold iteration_order, iterated_set in Horder. cbn [kind] in Horder.
  unfold handle_local_syntax_directed_typing_constraints_callback.
  cbn [kind nid]. eexists. split; [reflexivity|]. split; [reflexivity|].
  intros x m. rewrite get_update_def.
  pose proof (attribute_access_results_elem value attr s order x Horder)
    as Hres.
  case_decide as Hd.
  - rewrite elem_of_union, Hres. split.
    + intros [?|?]; [by left|by right].
    + intros [?|(_ & ?)]; [by left|by right].
  - split; [by left|]. by intros [?|(? & _)].
Qed.

(** *** Rules one after the other *)

(** X8. [obj = SomeClass()]: the call of a class followed by the assignment
    of the call to a target.  When the call node and the target have no
    term before, the target's definition node ends with exactly
    [{Instance(SomeClass)}], as does the call node, and the assignment
    prints nothing. *)
Theorem instantiation_then_assignment
    i l e func ss s c j l2 e2 target ss2 order2 o1
    (Hcallee : get_runtime_terms_of_definition_node dmap func s
               = {[ TRuntimeClass c ]})
    (Hapart : definition_node dmap i ≠ definition_node dmap func)
    (Hcall_fresh : get_runtime_terms_of_definition_node dmap i s = ∅)
    (Htarget_fresh : get_runtime_terms_of_definition_node dmap target s = ∅)
    (Hrun : callback_runs R module_name classes u2n n2u dmap
              (mkAst i l e (ast_Call func)) ss s o1) :
  exists s1 s2,
    o1 = Done s1
    /\ handle_local_syntax_directed_typing_constraints_callback
         R module_name classes u2n n2u dmap order2
         (mkAst j l2 e2 (ast_Assign [target] i)) ss2 s1
       = Done s2
    /\ stdout s2 = stdout s1
    /\ get_runtime_terms_of_definition_node dmap target s2
       = {[ TInstance (mkInstance c) ]}
    /\ get_runtime_terms_of_definition_node dmap i s2
       = {[ TInstance (mkInstance c) ]}.
Proof.
  pose proof (call_single i l e func ss s _ o1 Hcallee (or_introl Hapart)
                Hrun) as ->.
  set (s1 := match own (mkAst i l e (ast_Call func)) ss (TRuntimeClass c) with
             | Some r => print r (add_instance dmap i (TRuntimeClass c) s)
             | None => add_instance dmap i (TRuntimeClass c) s
             end).
  assert (Hterms : node_runtime_terms s1
                   = node_runtime_terms
                       (add_instance dmap i (TRuntimeClass c) s)).
  { subst s1. by destruct (own _ ss (TRuntimeClass c)). }
  assert (Hget : forall m,
             get_runtime_terms (node_runtime_terms s1) m
             = if decide (defn i = m)
               then get_runtime_terms (node_runtime_terms s) m
                    ∪ {[ TInstance (mkInstance c) ]}
               else get_runtime_terms (node_runtime_terms s) m).
  { intros m. rewrite Hterms. cbn [add_instance]. apply get_update_def. }
  assert (Hi : get_def i s1 = {[ TInstance (mkInstance c) ]}).
  { unfold get_runtime_terms_of_definition_node in *.
    rewrite Hget, decide_True by done. rewrite Hcall_fresh.
    apply (left_id_L ∅ (∪)). }
  exists s1, (transfer dmap s1 (i, target)).
  split; [done|]. split; [done|]. split; [done|].
  assert (Htransfer : forall m,
             get_runtime_terms
               (node_runtime_terms (transfer dmap s1 (i, target))) m
             = if decide (defn target = m)
               then get_runtime_terms (node_runtime_terms s1) m
                    ∪ {[ TInstance (mkInstance c) ]}
               else get_runtime_terms (node_runtime_terms s1) m).
  { intros m. unfold transfer. rewrite get_update_def. by rewrite Hi. }
  unfold get_runtime_terms_of_definition_node in *.
  split.
  - rewrite Htransfer, decide_True by done. rewrite Hget.
    case_decide.
    + rewrite Htarget_fresh, (left_id_L ∅ (∪)). apply (idemp_L (∪)).
    + rewrite Htarget_fresh. apply (left_id_L ∅ (∪)).
  - rewrite Htransfer. case_decide; [|done].
    rewrite Hi. apply (idemp_L (∪)).
Qed.

(** X9. [a.m()]: the access of an attribute on a value whose only term is an
    instance of [c], resolved to a method bound to that instance with a
    bridged function, followed by the call of the attribute node.  When
    the attribute node has no term before, and the module and the name
    of [c] and the name of the function are strings that are not empty,
    the call prints exactly one record, under the module and the name of
    [c]. *)
Theorem attribute_then_call
    a la ea value attr ssa s c fn u m i l e ss o1 o2
    (Hvalue : get_runtime_terms_of_definition_node dmap value s
              = {[ TInstance (mkInstance c) ]})
    (Haccess : get_attribute_access_result R (TInstance (mkInstance c))
                 attr u2n
               = Some (TBoundMethod (mkInstance c) fn))
    (Hfresh : get_runtime_terms_of_definition_node dmap a s = ∅)
    (Hbridged : match fn with
                | FunctionDefinition f => n2u !! f = Some u
                | UnwrappedRuntimeFunction f => f = u /\ is_Some (u2n !! f)
                end)
    (Hmodule : class_module R c = Some m)
    (Hm : m ≠ "")
    (Hclass : class_name R c ≠ "")
    (Hname : function_name R u ≠ "")
    (Hrun1 : callback_runs R module_name classes u2n n2u dmap
               (mkAst a la ea (ast_Attribute value attr)) ssa s o1)
    (Hrun2 : callback_runs R module_name classes u2n n2u dmap
               (mkAst i l e (ast_Call a)) ss (state_of o1) o2) :
  exists s1,
    o1 = Done s1
    /\ stdout s1 = stdout s
    /\ get_runtime_terms_of_definition_node dmap a s1
       = {[ TBoundMethod (mkInstance c) fn ]}
    /\ o2 = Done
              (print
                 (record_of R module_name m (class_name R c)
                    (function_name R u) u (mkAst i l e (ast_Call a)) ss)
                 s1).
Proof.
  apply callback_runs_inv in Hrun1 as (order & Horder & ->).
  unfold iteration_order, iterated_set in Horder. cbn [kind] in Horder.
  unfold handle_local_syntax_directed_typing_constraints_callback in *.
  cbn [kind nid state_of] in *.
  set (s1 := update_def a (attribute_access_results R u2n attr order) s)
    in *.
  assert (Ha : get_def a s1 = {[ TBoundMethod (mkInstance c) fn ]}).
  { apply set_eq. intros x.
    unfold get_runtime_terms_of_definition_node, s1.
    rewrite get_update_def.
    destruct (decide (defn a = defn a)) as [_|Hn]; [|by destruct Hn].
    unfold get_runtime_terms_of_definition_node in Hfresh.
    rewrite elem_of_union, Hfresh,
      (attribute_access_results_elem value attr s order x Horder),
      Hvalue, elem_of_singleton.
    split.
    - intros [Hx|(t & Ht & Hx)]; [by apply elem_of_empty in Hx|].
      apply elem_of_singleton in Ht as ->. congruence.
    - intros ->. right.
      exists (TInstance (mkInstance c)). split; [|done].
      by apply elem_of_singleton. }
  exists s1. split; [done|]. split; [done|]. split; [done|].
  rewrite (call_single i l e a ss s1 _ o2 Ha); [| |done].
  - unfold own_record. cbn [assign_callee class_ add_instance].
    by rewrite (own_record_method _ ss c fn u m).
  - by right.
Qed.

Lemma pass_frame visits s o d :
  runs visits s o ->
  (forall n ss w, (n, ss) ∈ visits -> w ∈ written_by n -> defn w ≠ d) ->
  get_runtime_terms (node_runtime_terms (state_of o)) d
  = get_runtime_terms (node_runtime_terms s) d.
Proof.
  induction 1 as [s | n ss visits s s' o Hcb _ IH | n ss visits s e s' Hcb];
    intros Hw.
  - done.
  - rewrite IH.
    + apply callback_runs_inv in Hcb as (order & _ & E).
      pose proof (callback_frame order n ss s d) as Hfr.
      rewrite <- E in Hfr. apply Hfr. intros w. apply (Hw n ss). left.
    + intros n' ss' w Hin. apply (Hw n' ss'). by right.
  - apply callback_runs_inv in Hcb as (order & _ & E).
    pose proof (callback_frame order n ss s d) as Hfr.
    rewrite <- E in Hfr. apply Hfr. intros w. apply (Hw n ss). left.
Qed.

Lemma pass_runs_app_inv visits1 visits2 s o :
  runs (visits1 ++ visits2) s o ->
  (exists s1, runs visits1 s (Done s1) /\ runs visits2 s1 o)
  \/ (exists e s1, runs visits1 s (Raised e s1) /\ o = Raised e s1).
Proof.
  revert s. induction visits1 as [|[n ss] visits1 IH]; intros s Hrun.
  - left. exists s. split; [constructor|done].
  - simpl in Hrun.
    inversion Hrun as [| n' ss' vs s_ s' o' Hcb Hrest | n' ss' vs s_ e s' Hcb];
      subst.
    + destruct (IH s' Hrest) as [(s1 & H1 & H2)|(e & s1 & H1 & ->)].
      * left. exists s1. split; [|done]. by eapply pass_visit.
      * right. exists e, s1. split; [|done]. by eapply pass_visit.
    + right. exists e, s'. split; [|done]. by apply pass_raise.
Qed.

(** X10. A function definition, then any visits that do not write to its
    definition node and whose calls are apart from their callees, then a
    call whose callee resolves to that definition node: when the
    definition node had no term before and the definition is bridged to
    a live function with a module and a name, the pass completes and the
    call prints exactly one record, with class [global] and the lines and
    signature of the live function. *)
Theorem definition_then_call
    definition name ss0 mid i l e func ss s u m o
    (Hkind : kind definition = ast_FunctionDef name
             \/ kind definition = ast_AsyncFunctionDef name)
    (Hresolves : definition_node dmap func
                 = definition_node dmap (nid definition))
    (Hfresh : get_runtime_terms_of_definition_node dmap func s = ∅)
    (Hmid : forall n ss' w,
              (n, ss') ∈ mid -> w ∈ written_by n ->
              definition_node dmap w ≠ definition_node dmap func)
    (Hcalls : calls_apart dmap mid)
    (Hbridge : n2u !! nid definition = Some u)
    (Hmodule : function_module R u = Some m)
    (Hm : m ≠ "")
    (Hname : function_name R u ≠ "")
    (Hrun : pass_runs R module_name classes u2n n2u dmap
              ((definition, ss0) :: mid
               ++ [(mkAst i l e (ast_Call func), ss)]) s o) :
  exists s_mid,
    pass_runs R module_name classes u2n n2u dmap
      ((definition, ss0) :: mid) s (Done s_mid)
    /\ o = Done
             (print
                (record_of R module_name m "global" (function_name R u) u
                   (mkAst i l e (ast_Call func)) ss)
                s_mid).
Proof.
  change ((definition, ss0) :: mid ++ [(mkAst i l e (ast_Call func), ss)])
    with (((definition, ss0) :: mid)
          ++ [(mkAst i l e (ast_Call func), ss)]) in Hrun.
  apply pass_runs_app_inv in Hrun as [(s_mid & H1 & H2)|(e0 & s1 & H1 & _)].
  2:{ exfalso.
      assert (Hc : calls_apart dmap ((definition, ss0) :: mid)).
      { apply Forall_cons. split; [|done]. cbn.
        by destruct Hkind as [-> | ->]. }
      by destruct (pass_completes _ _ _ Hc H1). }
  exists s_mid. split; [done|].
  assert (Hcallee : get_def func s_mid
                    = {[ TFunction (FunctionDefinition (nid definition)) ]}).
  { inversion H1 as [| n1 ss1 vs1 s1_ s1 o1 Hcb1 Hrest1 |]; subst.
    apply callback_runs_inv in Hcb1 as (order & _ & E).
    pose proof (pass_frame mid s1 (Done s_mid) (defn func) Hrest1 Hmid)
      as Hfr.
    cbn [state_of] in Hfr.
    unfold get_runtime_terms_of_definition_node in *. rewrite Hfr.
    assert (Hs1 : s1 = update_def (nid definition)
                         {[ TFunction (FunctionDefinition (nid definition)) ]}
                         s).
    { unfold handle_local_syntax_directed_typing_constraints_callback in E.
      destruct Hkind as [K|K]; rewrite K in E; by injection E. }
    rewrite Hs1, get_update_def, decide_True by done.
    rewrite Hfresh. apply (left_id_L ∅ (∪)). }
  assert (Hcall : forall o',
             callback_runs R module_name classes u2n n2u dmap
               (mkAst i l e (ast_Call func)) ss s_mid o' ->
             o' = Done
                    (print
                       (record_of R module_name m "global"
                          (function_name R u) u
                          (mkAst i l e (ast_Call func)) ss)
                       s_mid)).
  { intros o' Hcb.
    apply (call_single i l e func ss s_mid _ _ Hcallee) in Hcb;
      [|by right].
    rewrite Hcb. unfold own_record. cbn [assign_callee add_instance].
    rewrite Hbridge. unfold record_of_vars, names_truthy. cbn.
    rewrite Hmodule. cbn. by rewrite !bool_decide_true. }
  inversion H2 as [| n' ss' vs s_ s' o' Hcb Hrest | n' ss' vs s_ e' s' Hcb];
    subst.
  - apply Hcall in Hcb. injection Hcb as ->. by inversion Hrest; subst.
  - apply Hcall in Hcb. discriminate Hcb.
Qed.

(** *** Emission for a function defined before its call *)

(** C5, as the engine has it.  A module that defines [foo] and calls it
    inside [bar], the definition of [foo] being visited before the call:
    when the callee of the call resolves to the definition node of
    [foo], which has no term before the pass and into which no visit in
    between stores, when no call in between shares its definition node
    with its callee, and when the definition is bridged to a live
    function named [foo] whose module is not empty, the pass completes
    up to the call and the visit of the call prints exactly one record,
    whatever the iteration orders.  The record names the callee's
    module, the class [global] and the function [foo], gives the
    callee's first and last source line, the caller's module, the caller
    [bar], the line of the call and the lines of [bar], and ends with
    the callee's signature between double quotes. *)
Theorem call_emission
    foo_def ss0 mid i l e func ss s unwrapped callee_module bar o
    (Hkind : kind foo_def = ast_FunctionDef "foo")
    (Hresolves : definition_node dmap func
                 = definition_node dmap (nid foo_def))
    (Hfresh : get_runtime_terms_of_definition_node dmap func s = ∅)
    (Hmid : forall n ss' w,
              (n, ss') ∈ mid -> w ∈ written_by n ->
              definition_node dmap w ≠ definition_node dmap func)
    (Hcalls : calls_apart dmap mid)
    (Hbridge : n2u !! nid foo_def = Some unwrapped)
    (Hmodule : function_module R unwrapped = Some callee_module)
    (Hnonempty : callee_module ≠ "")
    (Hname : function_name R unwrapped = "foo")
    (Hscope : last ss = Some bar)
    (Hbar : getattr_name bar = Some "bar")
    (Hrun : pass_runs R module_name classes u2n n2u dmap
              ((foo_def, ss0) :: mid
               ++ [(mkAst i l e (ast_Call func), ss)]) s o) :
  let r :=
    {| callee_module_name := callee_module;
       callee_class_name := "global";
       callee_function_name := "foo";
       start_line := (getsourcelines R unwrapped).2;
       end_line := (getsourcelines R unwrapped).2
                   + Z.of_nat (length (getsourcelines R unwrapped).1) - 1;
       caller_module_name := module_name;
       caller_function_name := Some "bar";
       call_line := l;
       caller_function_start := lineno bar;
       caller_function_end := end_lineno bar;
       signature := signature_of R unwrapped |} in
  exists s_mid,
    pass_runs R module_name classes u2n n2u dmap
      ((foo_def, ss0) :: mid) s (Done s_mid)
    /\ o = Done (print r s_mid)
    /\ stdout (state_of o) = stdout s_mid ++ [r]
    /\ node_runtime_terms (state_of o) = node_runtime_terms s_mid
    /\ render r
       = (callee_module ++ ",global,foo,"
          ++ str_of_int (start_line r) ++ "," ++ str_of_int (end_line r)
          ++ "," ++ module_name ++ ",bar," ++ str_of_optional_int l ++ ","
          ++ str_of_optional_int (lineno bar) ++ ","
          ++ str_of_optional_int (end_lineno bar) ++ ","
          ++ double_quote ++ signature_of R unwrapped
          ++ double_quote)%string.
Proof.
  intros r.
  change ((foo_def, ss0) :: mid ++ [(mkAst i l e (ast_Call func), ss)])
    with (((foo_def, ss0) :: mid)
          ++ [(mkAst i l e (ast_Call func), ss)]) in Hrun.
  apply pass_runs_app_inv in Hrun as [(s_mid & H1 & H2)|(e0 & s1 & H1 & _)].
  2:{ exfalso.
      assert (Hc : calls_apart dmap ((foo_def, ss0) :: mid)).
      { apply Forall_cons. split; [|done]. cbn. by rewrite Hkind. }
      by destruct (pass_completes _ _ _ Hc H1). }
  exists s_mid. split; [done|].
  assert (Hcallee : get_def func s_mid
                    = {[ TFunction (FunctionDefinition (nid foo_def)) ]}).
  { inversion H1 as [| n1 ss1 vs1 s1_ s1 o1 Hcb1 Hrest1 |]; subst.
    apply callback_runs_inv in Hcb1 as (order & _ & E).
    pose proof (pass_frame mid s1 (Done s_mid) (defn func) Hrest1 Hmid)
      as Hfr.
    cbn [state_of] in Hfr.
    unfold get_runtime_terms_of_definition_node in *. rewrite Hfr.
    assert (Hs1 : s1 = update_def (nid foo_def)
                         {[ TFunction (FunctionDefinition (nid foo_def)) ]}
                         s).
    { unfold handle_local_syntax_directed_typing_constraints_callback in E.
      rewrite Hkind in E. by injection E. }
    rewrite Hs1, get_update_def, decide_True by done.
    rewrite Hfresh. apply (left_id_L ∅ (∪)). }
  assert (Hcall : forall o',
             callback_runs R module_name classes u2n n2u dmap
               (mkAst i l e (ast_Call func)) ss s_mid o' ->
             o' = Done (print r s_mid)).
  { intros o' Hcb.
    by destruct (resolved_call_record i l e func ss s_mid (nid foo_def)
                   unwrapped callee_module bar o' Hcallee Hbridge Hmodule
                   Hnonempty Hname Hscope Hbar Hcb) as (-> & _). }
  assert (Ho : o = Done (print r s_mid)).
  { inversion H2 as [| n' ss' vs s_ s' o' Hcb Hrest | n' ss' vs s_ e' s' Hcb];
      subst.
    - apply Hcall in Hcb. injection Hcb as ->. by inversion Hrest; subst.
    - apply Hcall in Hcb. discriminate Hcb. }
  rewrite Ho. split; [done|]. split; [done|]. split; [done|].
  reflexivity.
Qed.

End EngineProperties.

(** ** Whole runs *)

Section WholeRunProperties.

Variable R : Runtime.
Variable classes : gmap node RuntimeClass.
Variable u2n : gmap pyobj node.
Variable n2u : gmap node pyobj.

Local Abbreviation run := (run_modules R classes u2n n2u).

Lemma same_terms_and_records_refl s : same_terms_and_records s s.
Proof. by split. Qed.

Lemma seed_same dummies s1 s2 :
  same_terms_and_records s1 s2 ->
  same_terms_and_records (seed_dummy_definition_nodes dummies s1)
    (seed_dummy_definition_nodes dummies s2).
Proof.
  unfold seed_dummy_definition_nodes. revert s1 s2.
  induction dummies as [|d dummies IH]; intros s1 s2 Hs; simpl; [done|].
  apply IH. destruct Hs as [Ht Hout]. split; simpl; [by rewrite Ht|done].
Qed.

Lemma module_deterministic m s1 s2 s1' s2' :
  same_terms_and_records s1 s2 ->
  module_runs R classes u2n n2u m s1 (Done s1') ->
  module_runs R classes u2n n2u m s2 (Done s2') ->
  same_terms_and_records s1' s2'.
Proof.
  intros Hs H1 H2. eapply pass_deterministic; [|exact H1|exact H2].
  by apply seed_same.
Qed.

Lemma run_deterministic modules s1 s2 s1' s2' :
  same_terms_and_records s1 s2 ->
  run modules s1 (Done s1') ->
  run modules s2 (Done s2') ->
  same_terms_and_records s1' s2'.
Proof.
  intros Hs H1. revert s2 s2' Hs.
  remember (Done s1') as o1 eqn:Ho1.
  induction H1 as [s1 | m rest s1 t1 o1 Hm1 _ IH | ];
    intros s2 s2' Hs H2; [| |done].
  - injection Ho1 as ->. by inversion H2; subst.
  - inversion H2 as [| m' rest' s2_ t2 o2 Hm2 Hrest2 |]; subst.
    apply (IH eq_refl t2 s2'); [|done].
    by eapply module_deterministic.
Qed.

Lemma run_completes modules s o :
  Forall (fun m => calls_apart (input_definition_mapping m) (input_visits m))
    modules ->
  run modules s o -> exists s', o = Done s'.
Proof.
  intros Hapart Hrun.
  induction Hrun as [s | m rest s s' o Hm _ IH | m rest s e s' Hm].
  - eauto.
  - apply IH. by apply Forall_cons in Hapart as [_ ?].
  - apply Forall_cons in Hapart as [Hm' _].
    destruct (pass_completes _ _ _ _ _ _ _ _ _ Hm' Hm) as [s'' Hs''].
    done.
Qed.

(** Two runs of the analysis over the same modules, from the same state
    and with the same answers of the runtime, with whatever orders the
    set iterations take in each of them: when both complete they have
    stored the same terms and printed the same set of records.  And both
    do complete when no call node shares its definition node with its
    callee. *)
Lemma iteration_orders_do_not_matter modules s o1 o2
    (Hrun1 : run modules s o1) (Hrun2 : run modules s o2) :
  (forall s1 s2,
      o1 = Done s1 -> o2 = Done s2 ->
      node_runtime_terms s1 = node_runtime_terms s2
      /\ forall r, r ∈ stdout s1 <-> r ∈ stdout s2)
  /\ (Forall
        (fun m => calls_apart (input_definition_mapping m) (input_visits m))
        modules ->
      exists s1 s2, o1 = Done s1 /\ o2 = Done s2).
Proof.
  split.
  - intros s1 s2 -> ->.
    by apply (run_deterministic modules s s s1 s2
                (same_terms_and_records_refl s)).
  - intros Hapart.
    destruct (run_completes _ _ _ Hapart Hrun1) as [s1 ->].
    destruct (run_completes _ _ _ Hapart Hrun2) as [s2 ->].
    eauto.
Qed.

End WholeRunProperties.

(** ** The loops of [__main__] *)

Lemma dict_set_key {V} k (v : V) d : k ∈ (dict_set k v d).*1.
Proof.
  induction d as [|[k' v'] d IH]; simpl; [left|].
  destruct (String.eqb k k') eqn:E; simpl; [left|by right].
Qed.

Lemma dict_set_keys {V} k (v : V) d k' :
  k' ∈ d.*1 -> k' ∈ (dict_set k v d).*1.
Proof.
  induction d as [|[k0 v0] d IH]; simpl.
  - intros H. by apply elem_of_nil in H.
  - intros [->|H]%elem_of_cons.
    + destruct (String.eqb k k0) eqn:E; simpl; [|left].
      apply String.eqb_eq in E as ->. left.
    + destruct (String.eqb k k0); simpl; right; [done|by apply IH].
Qed.

Lemma dict_set_keys_inv {V} k (v : V) d k' :
  k' ∈ (dict_set k v d).*1 -> k' = k \/ k' ∈ d.*1.
Proof.
  induction d as [|[k0 v0] d IH]; simpl.
  - intros [->|H]%elem_of_cons; [by left|by apply elem_of_nil in H].
  - destruct (String.eqb k k0); simpl.
    + intros [->|H]%elem_of_cons; [by left|]. right. by right.
    + intros [->|H]%elem_of_cons; [right; left|].
      destruct (IH H) as [->|?]; [by left|]. right. by right.
Qed.

Section MainProperties.

Context {module_tree live_module : Type}.
Variable load : string -> string -> exception + (module_tree * live_module).
Variable analyse : string -> module_tree -> state -> outcome.

Local Abbreviation imports := (import_loop load).
Local Abbreviation analysis := (analysis_loop analyse).


Lemma attempted_cons_skipped m f items :
  skipped f = true -> attempted ((m, f) :: items) = attempted items.
Proof.
  intros H. unfold attempted. rewrite filter_cons_False; [done|].
  simpl. by rewrite H.
Qed.

Lemma attempted_cons m f items :
  skipped f = false -> attempted ((m, f) :: items) = (m, f) :: attempted items.
Proof. intros H. unfold attempted. by rewrite filter_cons_True. Qed.

(** When every failure is one the handler catches, the import loop
    completes; it has logged the modules that failed and entered the
    others in its dictionaries. *)
Lemma import_loop_completes items acc :
  (forall m f e,
      (m, f) ∈ attempted items -> load m f = inl e ->
      caught_by_import_handler e = true) ->
  exists tables,
    imports items acc = inr tables
    /\ (forall m,
           m ∈ logged tables
           <-> m ∈ logged acc
               \/ exists f e, (m, f) ∈ attempted items /\ load m f = inl e)
    /\ (forall m,
           m ∈ (module_name_to_module_node tables).*1
           <-> m ∈ (module_name_to_module_node acc).*1
               \/ exists f x, (m, f) ∈ attempted items /\ load m f = inr x).
Proof.
  revert acc. induction items as [|[m f] items IH]; intros acc Hcaught.
  - exists acc. split; [done|]. split; intros m; split; auto.
    + intros [?|(f & e & H & _)]; [done|]. by apply elem_of_nil in H.
    + intros [?|(f & x & H & _)]; [done|]. by apply elem_of_nil in H.
  - simpl. destruct (skipped f) eqn:Hs.
    + rewrite (attempted_cons_skipped m f items Hs) in *. by apply IH.
    + rewrite (attempted_cons m f items Hs) in *.
      assert (Hcaught' : forall m' f' e,
                 (m', f') ∈ attempted items -> load m' f' = inl e ->
                 caught_by_import_handler e = true).
      { intros m' f' e Hin. apply Hcaught. by right. }
      destruct (load m f) as [e|[node live]] eqn:Hload.
      * rewrite (Hcaught m f e) by (done || left).
        destruct (IH (mkTables (module_name_to_module_node acc)
                        (module_name_to_module acc) (logged acc ++ [m]))
                    Hcaught')
          as (tables & Hrun & Hlog & Hkeys).
        exists tables. split; [done|]. split; intros k.
        -- rewrite Hlog. cbn [logged]. rewrite elem_of_app, list_elem_of_singleton.
           split.
           ++ intros [[?| ->]|(f' & e' & Hin & He)]; [by left| |].
              ** right. exists f, e. split; [left|done].
              ** right. exists f', e'. split; [by right|done].
           ++ intros [?|(f' & e' & Hin & He)]; [by left; left|].
              apply elem_of_cons in Hin as [[= -> ->]|Hin].
              ** left. by right.
              ** right. by exists f', e'.
        -- rewrite Hkeys. cbn [module_name_to_module_node]. split.
           ++ intros [?|(f' & x & Hin & Hx)]; [by left|].
              right. exists f', x. split; [by right|done].
           ++ intros [?|(f' & x & Hin & Hx)]; [by left|].
              apply elem_of_cons in Hin as [[= -> ->]|Hin]; [congruence|].
              right. by exists f', x.
      * destruct (IH (mkTables
                        (dict_set m node (module_name_to_module_node acc))
                        (dict_set m live (module_name_to_module acc))
                        (logged acc))
                    Hcaught')
          as (tables & Hrun & Hlog & Hkeys).
        exists tables. split; [done|]. split; intros k.
        -- rewrite Hlog. cbn [logged]. split.
           ++ intros [?|(f' & e' & Hin & He)]; [by left|].
              right. exists f', e'. split; [by right|done].
           ++ intros [?|(f' & e' & Hin & He)]; [by left|].
              apply elem_of_cons in Hin as [[= -> ->]|Hin]; [congruence|].
              right. by exists f', e'.
        -- rewrite Hkeys. cbn [module_name_to_module_node]. split.
           ++ intros [Hk|(f' & x & Hin & Hx)].
              ** apply dict_set_keys_inv in Hk as [->|?]; [|by left].
                 right. exists f, (node, live). split; [left|done].
              ** right. exists f', x. split; [by right|done].
           ++ intros [?|(f' & x & Hin & Hx)].
              ** left. by apply dict_set_keys.
              ** apply elem_of_cons in Hin as [[= -> ->]|Hin].
                 --- left. apply dict_set_key.
                 --- right. by exists f', x.
Qed.

(** An exception the handler does not catch ends the import loop: the
    modules after it are never imported. *)
Lemma import_loop_propagates pre m f e post acc :
  (forall m' f' e',
      (m', f') ∈ attempted pre -> load m' f' = inl e' ->
      caught_by_import_handler e' = true) ->
  skipped f = false ->
  load m f = inl e ->
  caught_by_import_handler e = false ->
  imports (pre ++ (m, f) :: post) acc = inl e.
Proof.
  revert acc. induction pre as [|[m0 f0] pre IH]; intros acc Hpre Hs Hl Hc.
  - simpl. by rewrite Hs, Hl, Hc.
  - simpl. destruct (skipped f0) eqn:Hs0.
    + apply IH; try done.
      by rewrite (attempted_cons_skipped m0 f0 pre Hs0) in Hpre.
    + rewrite (attempted_cons m0 f0 pre Hs0) in Hpre.
      assert (Hpre' : forall m' f' e',
                 (m', f') ∈ attempted pre -> load m' f' = inl e' ->
                 caught_by_import_handler e' = true).
      { intros m' f' e' Hin. apply Hpre. by right. }
      destruct (load m0 f0) as [e0|[node live]] eqn:Hload.
      * rewrite (Hpre m0 f0 e0) by (done || left). by apply IH.
      * by apply IH.
Qed.

(** An exception raised by the analysis of one module ends the analysis
    loop: the modules after it are never analysed. *)
Lemma analysis_loop_propagates pre m t post s s_mid e s_err :
  analysis pre s = Done s_mid ->
  analyse m t s_mid = Raised e s_err ->
  analysis (pre ++ (m, t) :: post) s = Raised e s_err.
Proof.
  revert s. induction pre as [|[m0 t0] pre IH]; intros s Hpre Hm; simpl in *.
  - injection Hpre as ->. by rewrite Hm.
  - destruct (analyse m0 t0 s); [by apply IH|done].
Qed.

(** C7, as the loops have it.  The exceptions caught around the import of
    a module are the instances of [ImportError] and [UnicodeError]: when
    every import failure is of these, the import loop completes, the
    failed modules are logged and left out of the dictionaries, every
    other attempted module is entered and the analysis loop runs over
    them.  Any other exception raised while a module is imported ends
    the run there, and so does any exception raised while a module is
    analysed: the analysis loop has no handler. *)
Theorem fault_isolation items s :
  ((forall m f e,
       (m, f) ∈ attempted items -> load m f = inl e ->
       caught_by_import_handler e = true) ->
   exists tables,
     imports items no_tables = inr tables
     /\ main load analyse items s
        = analysis (module_name_to_module_node tables) s
     /\ (forall m,
            m ∈ logged tables
            <-> exists f e, (m, f) ∈ attempted items /\ load m f = inl e)
     /\ (forall m,
            m ∈ (module_name_to_module_node tables).*1
            <-> exists f x, (m, f) ∈ attempted items /\ load m f = inr x))
  /\ (forall pre m f e post,
         items = pre ++ (m, f) :: post ->
         (forall m' f' e',
             (m', f') ∈ attempted pre -> load m' f' = inl e' ->
             caught_by_import_handler e' = true) ->
         skipped f = false ->
         load m f = inl e ->
         caught_by_import_handler e = false ->
         main load analyse items s = Raised e s)
  /\ (forall pre m t post s_mid e s_err,
         analysis pre s = Done s_mid ->
         analyse m t s_mid = Raised e s_err ->
         analysis (pre ++ (m, t) :: post) s = Raised e s_err).
Proof.
  split; [|split].
  - intros Hcaught.
    destruct (import_loop_completes items no_tables Hcaught)
      as (tables & Hrun & Hlog & Hkeys).
    exists tables. split; [done|]. split.
    { unfold main. by rewrite Hrun. }
    split; intros m.
    + rewrite Hlog. split; [|by right].
      intros [H|?]; [|done]. by apply elem_of_nil in H.
    + rewrite Hkeys. split; [|by right].
      intros [H|?]; [|done]. by apply elem_of_nil in H.
  - intros pre m f e post -> Hpre Hs Hl Hc. unfold main.
    by rewrite (import_loop_propagates pre m f e post no_tables).
  - intros pre m t post s_mid e s_err. apply analysis_loop_propagates.
Qed.

End MainProperties.

(** ** Two runs whose signatures may differ *)

Section SignatureProperties.

Variable R : Runtime.
Variable signature_text : pyobj -> string.
Variable classes : gmap node RuntimeClass.
Variable u2n : gmap pyobj node.
Variable n2u : gmap node pyobj.

Local Abbreviation R' := (with_signature signature_text R).
Local Abbreviation corr := (states_correspond R signature_text).
Local Abbreviation ocorr := (outcomes_correspond R signature_text).

Lemma states_correspond_refl s : corr s s.
Proof.
  split; [done|]. induction (stdout s) as [|r l IH]; constructor; [|done].
  by split.
Qed.

Lemma states_correspond_terms s1 s2 (f : state -> state) :
  corr s1 s2 ->
  node_runtime_terms (f s1) = node_runtime_terms (f s2) ->
  stdout (f s1) = stdout s1 ->
  stdout (f s2) = stdout s2 ->
  corr (f s1) (f s2).
Proof. intros [_ Hout] Ht H1 H2. split; [done|]. by rewrite H1, H2. Qed.

Lemma record_of_correspond module_name m c f callee n ss :
  same_but_signature R signature_text
    (record_of R module_name m c f callee n ss)
    (record_of R' module_name m c f callee n ss).
Proof.
  unfold record_of. cbn [getsourcelines signature_of with_signature].
  destruct (getsourcelines R callee) as [lines start].
  split; [done|]. intros Hagree. by rewrite (Hagree callee).
Qed.

Lemma emit_correspond module_name cv n ss s1 s2 :
  corr s1 s2 ->
  ocorr (emit R module_name cv n ss s1) (emit R' module_name cv n ss s2).
Proof.
  intros [Ht Hout]. unfold emit.
  destruct (truthy (var_callee_module_name cv)
            && truthy (var_callee_class_name cv)
            && truthy (var_callee_function_name cv)); [|by split].
  destruct (var_callee_module_name cv) as [m|]; [|by split].
  destruct (var_callee_class_name cv) as [c|]; [|by split].
  destruct (var_callee_function_name cv) as [f|]; [|by split].
  destruct (var_callee_function cv) as [callee|]; [|by split].
  split; [done|]. cbn [print stdout].
  apply Forall2_app; [done|]. constructor; [|constructor].
  apply record_of_correspond.
Qed.

Lemma call_loop_correspond module_name dmap n func ss iterated order cv
    s1 s2 :
  corr s1 s2 ->
  ocorr (call_loop R module_name u2n n2u dmap n func ss iterated order cv s1)
    (call_loop R' module_name u2n n2u dmap n func ss iterated order cv s2).
Proof.
  revert cv s1 s2. induction order as [|t order IH]; intros cv s1 s2 Hs.
  - cbn [call_loop].
    rewrite (get_def_terms_indep dmap func s1 s2 (proj1 Hs)).
    by destruct (decide _).
  - cbn [call_loop].
    rewrite (get_def_terms_indep dmap func s1 s2 (proj1 Hs)).
    destruct (decide _) as [_|_]; [|by split].
    change (assign_callee R' u2n n2u t cv)
      with (assign_callee R u2n n2u t cv).
    assert (Ha : corr (add_instance dmap (nid n) t s1)
                   (add_instance dmap (nid n) t s2)).
    { apply (states_correspond_terms s1 s2
               (add_instance dmap (nid n) t) Hs);
        [by apply add_instance_terms_indep, Hs| |];
        apply add_instance_stdout. }
    pose proof (emit_correspond module_name (assign_callee R u2n n2u t cv)
                  n ss _ _ Ha) as He.
    destruct (emit R module_name _ n ss (add_instance dmap (nid n) t s1))
      as [a|e a],
      (emit R' module_name _ n ss (add_instance dmap (nid n) t s2))
      as [b|e' b]; try done.
    by apply IH.
Qed.

(** One invocation of the callback in each run, on the same node with
    the same iteration order, from corresponding states. *)
Lemma callback_correspond module_name dmap order n ss s1 s2 :
  corr s1 s2 ->
  ocorr
    (handle_local_syntax_directed_typing_constraints_callback
       R module_name classes u2n n2u dmap order n ss s1)
    (handle_local_syntax_directed_typing_constraints_callback
       R' module_name classes u2n n2u dmap order n ss s2).
Proof.
  intros Hs.
  unfold handle_local_syntax_directed_typing_constraints_callback,
    update_runtime_terms_of_definition_node_from_runtime_class.
  destruct (kind n) eqn:K; cbn [ocorr outcomes_correspond].
  all: try (apply (states_correspond_terms s1 s2
                     (update_runtime_terms_of_definition_node dmap (nid n) _)
                     Hs);
            [by apply update_def_terms_indep, Hs| |];
            apply update_def_stdout).
  all: try exact Hs.
  - (* ast.Call *)
    rewrite (get_def_terms_indep dmap func s1 s2 (proj1 Hs)).
    by apply call_loop_correspond.
  - (* ast.NamedExpr *)
    apply (states_correspond_terms s1 s2
             (fun s => transfer dmap s (value, target)) Hs);
      [by apply transfer_terms_indep, Hs| |]; apply transfer_stdout.
  - (* ast.Assign *)
    apply (states_correspond_terms s1 s2
             (fold_left (transfer dmap) (pairwise (rev (targets ++ [value]))))
             Hs);
      [by apply fold_transfer_terms_indep, Hs| |];
      apply fold_transfer_stdout.
  - (* ast.AnnAssign *)
    destruct value as [v|]; [|exact Hs].
    apply (states_correspond_terms s1 s2
             (fun s => transfer dmap s (v, target)) Hs);
      [by apply transfer_terms_indep, Hs| |]; apply transfer_stdout.
  - (* ast.ClassDef *)
    destruct (classes !! nid n); [|exact Hs].
    apply (states_correspond_terms s1 s2
             (update_runtime_terms_of_definition_node dmap (nid n) _) Hs);
      [by apply update_def_terms_indep, Hs| |]; apply update_def_stdout.
Qed.

(** Every pass of one run is matched, with the same iteration orders, by
    a pass of the other. *)
Lemma pass_correspond module_name dmap visits s1 o1 s2 :
  pass_runs R module_name classes u2n n2u dmap visits s1 o1 ->
  corr s1 s2 ->
  exists o2,
    pass_runs R' module_name classes u2n n2u dmap visits s2 o2
    /\ ocorr o1 o2.
Proof.
  intros Hrun. revert s2.
  induction Hrun as [s1 | n ss visits s1 t1 o1 Hcb _ IH
                    | n ss visits s1 e t1 Hcb]; intros s2 Hs.
  - exists (Done s2). split; [constructor|done].
  - apply callback_runs_inv in Hcb as (order & Horder & E).
    pose proof (callback_correspond module_name dmap order n ss s1 s2 Hs)
      as Hc.
    rewrite <- E in Hc.
    destruct (handle_local_syntax_directed_typing_constraints_callback
                R' module_name classes u2n n2u dmap order n ss s2)
      as [t2|e2 t2] eqn:E2; [|done].
    destruct (IH t2 Hc) as (o2 & Hrest & Ho).
    exists o2. split; [|done].
    eapply pass_visit; [|exact Hrest]. rewrite <- E2.
    apply callback_runs_with. unfold iteration_order in *.
    by rewrite <- (iterated_set_terms_indep dmap n s1 s2 (proj1 Hs)).
  - apply callback_runs_inv in Hcb as (order & Horder & E).
    pose proof (callback_correspond module_name dmap order n ss s1 s2 Hs)
      as Hc.
    rewrite <- E in Hc.
    destruct (handle_local_syntax_directed_typing_constraints_callback
                R' module_name classes u2n n2u dmap order n ss s2)
      as [t2|e2 t2] eqn:E2; [done|].
    destruct Hc as [<- Hc].
    exists (Raised e t2). split; [|by split].
    apply pass_raise. rewrite <- E2.
    apply callback_runs_with. unfold iteration_order in *.
    by rewrite <- (iterated_set_terms_indep dmap n s1 s2 (proj1 Hs)).
Qed.

Lemma seed_correspond dummies s1 s2 :
  corr s1 s2 ->
  corr (seed_dummy_definition_nodes dummies s1)
    (seed_dummy_definition_nodes dummies s2).
Proof.
  unfold seed_dummy_definition_nodes. revert s1 s2.
  induction dummies as [|d dummies IH]; intros s1 s2 Hs; simpl; [done|].
  apply IH. destruct Hs as [Ht Hout]. split; simpl; [by rewrite Ht|done].
Qed.

Lemma run_correspond modules s1 o1 s2 :
  run_modules R classes u2n n2u modules s1 o1 ->
  corr s1 s2 ->
  exists o2,
    run_modules R' classes u2n n2u modules s2 o2 /\ ocorr o1 o2.
Proof.
  intros Hrun. revert s2.
  induction Hrun as [s1 | m rest s1 t1 o1 Hm _ IH | m rest s1 e t1 Hm];
    intros s2 Hs.
  - exists (Done s2). split; [constructor|done].
  - destruct (pass_correspond _ _ _ _ _ _ Hm (seed_correspond _ _ _ Hs))
      as ([t2|e2 t2] & Hm2 & Hc); [|done].
    destruct (IH t2 Hc) as (o2 & Hrest & Ho).
    exists o2. split; [|done]. by eapply run_module.
  - destruct (pass_correspond _ _ _ _ _ _ Hm (seed_correspond _ _ _ Hs))
      as ([t2|e2 t2] & Hm2 & Hc); [done|].
    destruct Hc as [<- Hc].
    exists (Raised e t2). split; [|by split]. by apply run_raise.
Qed.

(** C2, as the program has it.  Two runs of the analysis over the same
    modules, from the same state, with whatever orders the set
    iterations take in each of them, the second run giving whatever
    texts to the signatures: when both complete they have stored the
    same terms and printed the same set of records up to the signature
    column, and the same set of records when the signatures have the
    same text in both runs.  And both do complete when no call node
    shares its definition node with its callee. *)
Theorem analysis_deterministic modules s o1 o2
    (Hrun1 : run_modules R classes u2n n2u modules s o1)
    (Hrun2 : run_modules (with_signature signature_text R) classes u2n n2u
               modules s o2) :
  (forall s1 s2,
      o1 = Done s1 -> o2 = Done s2 ->
      node_runtime_terms s1 = node_runtime_terms s2
      /\ (forall r,
             r ∈ without_signature <$> stdout s1
             <-> r ∈ without_signature <$> stdout s2)
      /\ (signatures_agree R signature_text ->
          forall r, r ∈ stdout s1 <-> r ∈ stdout s2))
  /\ (Forall
        (fun m => calls_apart (input_definition_mapping m) (input_visits m))
        modules ->
      exists s1 s2, o1 = Done s1 /\ o2 = Done s2).
Proof.
  split.
  - intros s1 s2 -> ->.
    destruct (run_correspond modules s (Done s1) s Hrun1
                (states_correspond_refl s))
      as ([t|e t] & Hrun & Hc); [|done].
    destruct Hc as [Ht Hout].
    destruct (run_deterministic R' classes u2n n2u modules s s t s2
                (same_terms_and_records_refl s) Hrun Hrun2)
      as [Ht2 Hout2].
    split; [by rewrite Ht|].
    assert (Hfwd : forall r1, r1 ∈ stdout s1 ->
              exists r2, r2 ∈ stdout s2
                         /\ same_but_signature R signature_text r1 r2).
    { intros r1 Hr1.
      apply list_elem_of_lookup in Hr1 as [k Hk].
      destruct (Forall2_lookup_l _ _ _ _ _ Hout Hk) as (r2 & Hk2 & Hr).
      exists r2. split; [|done]. apply Hout2.
      by eapply list_elem_of_lookup_2. }
    assert (Hbwd : forall r2, r2 ∈ stdout s2 ->
              exists r1, r1 ∈ stdout s1
                         /\ same_but_signature R signature_text r1 r2).
    { intros r2 Hr2. apply Hout2 in Hr2.
      apply list_elem_of_lookup in Hr2 as [k Hk].
      destruct (Forall2_lookup_r _ _ _ _ _ Hout Hk) as (r1 & Hk1 & Hr).
      exists r1. split; [|done]. by eapply list_elem_of_lookup_2. }
    split.
    + intros r. rewrite !list_elem_of_fmap. split.
      * intros (r1 & -> & Hr1). destruct (Hfwd r1 Hr1) as (r2 & ? & [? _]).
        by exists r2.
      * intros (r2 & -> & Hr2). destruct (Hbwd r2 Hr2) as (r1 & ? & [? _]).
        by exists r1.
    + intros Hagree r. split.
      * intros Hr1. destruct (Hfwd r Hr1) as (r2 & ? & [_ Heq]).
        by rewrite (Heq Hagree).
      * intros Hr2. destruct (Hbwd r Hr2) as (r1 & ? & [_ Heq]).
        by rewrite <- (Heq Hagree).
  - intros Hapart.
    destruct (run_completes _ _ _ _ _ _ _ Hapart Hrun1) as [s1 ->].
    destruct (run_completes _ _ _ _ _ _ _ Hapart Hrun2) as [s2 ->].
    eauto.
Qed.

End SignatureProperties.

(** ** The properties on the example modules *)

(** Witness of C8 on the module of [Scenario]: the pass of the engine over
    the module, as one of the runs of the pass, for the definition node of
    [foo]. *)
Lemma term_sets_only_grow_witness :
  pass_runs Scenario.runtime "m" ∅ Scenario.unwrapped_to_named
    Scenario.named_to_unwrapped Scenario.definition_mapping
    Scenario.visits Scenario.initial
    (modified_handle_local_syntax_directed_typing_constraints
       Scenario.runtime "m" ∅ Scenario.unwrapped_to_named
       Scenario.named_to_unwrapped Scenario.definition_mapping
       Scenario.visits Scenario.initial)
  /\ get_runtime_terms (node_runtime_terms Scenario.initial) 2
     ⊆ get_runtime_terms
         (node_runtime_terms
            (state_of
               (modified_handle_local_syntax_directed_typing_constraints
                  Scenario.runtime "m" ∅ Scenario.unwrapped_to_named
                  Scenario.named_to_unwrapped Scenario.definition_mapping
                  Scenario.visits Scenario.initial))) 2.
Proof.
  split; [apply pass_runs_function|].
  apply (term_sets_only_grow Scenario.runtime "m" ∅
           Scenario.unwrapped_to_named Scenario.named_to_unwrapped
           Scenario.definition_mapping Scenario.visits Scenario.initial).
  apply pass_runs_function.
Defined.

(** Witness of C5 on the module of [Scenario]: [foo] is defined, then
    called in [bar]; the pass prints the one record of the call. *)
Lemma call_emission_witness :
  exists s_mid,
    modified_handle_local_syntax_directed_typing_constraints
      Scenario.runtime "m" ∅ Scenario.unwrapped_to_named
      Scenario.named_to_unwrapped Scenario.definition_mapping
      Scenario.visits Scenario.initial
    = Done (print Scenario.record_of_call s_mid)
    /\ render Scenario.record_of_call
       = ("m,global,foo,1,2,m,bar,5,4,5," ++ double_quote ++ "(x)"
          ++ double_quote)%string.
Proof.
  destruct (call_emission Scenario.runtime "m" ∅ Scenario.unwrapped_to_named
              Scenario.named_to_unwrapped Scenario.definition_mapping
              Scenario.foo_def [Scenario.module_node]
              [ (Scenario.bar_def, [Scenario.module_node]);
                (Scenario.foo_use, [Scenario.module_node; Scenario.bar_def]);
                (Scenario.one, [Scenario.module_node; Scenario.bar_def]) ]
              4%positive (Some 5) (Some 5) 5%positive
              [Scenario.module_node; Scenario.bar_def] Scenario.initial
              Scenario.foo_function "m" Scenario.bar_def
              (modified_handle_local_syntax_directed_typing_constraints
                 Scenario.runtime "m" ∅ Scenario.unwrapped_to_named
                 Scenario.named_to_unwrapped Scenario.definition_mapping
                 Scenario.visits Scenario.initial))
    as (s_mid & _ & Hdone & _ & _ & Hrender).
  - reflexivity.
  - by_computation.
  - by_computation.
  - intros n ss' w Hin Hw.
    apply elem_of_cons in Hin as [[= -> ->]|Hin].
    { apply list_elem_of_singleton in Hw as ->. by_computation. }
    apply elem_of_cons in Hin as [[= -> ->]|Hin].
    { by apply elem_of_nil in Hw. }
    apply elem_of_cons in Hin as [[= -> ->]|Hin].
    { apply list_elem_of_singleton in Hw as ->. by_computation. }
    by apply elem_of_nil in Hin.
  - unfold calls_apart. by repeat constructor.
  - by_computation.
  - reflexivity.
  - discriminate.
  - reflexivity.
  - reflexivity.
  - reflexivity.
  - apply (pass_runs_function Scenario.runtime "m" ∅
             Scenario.unwrapped_to_named Scenario.named_to_unwrapped
             Scenario.definition_mapping Scenario.visits Scenario.initial).
  - exists s_mid. split; [exact Hdone|]. by_computation.
Defined.

(** Counterexample to C5 as stated: the module of [BarFirst] defines [foo]
    and calls it inside [bar], which stands above [foo].  When the call is
    visited the definition of [foo] has not been, the callee has no term,
    and the pass prints no record at all. *)
Lemma call_emission_counterexample :
  kind BarFirst.foo_def = ast_FunctionDef "foo"
  /\ (BarFirst.foo_def, [BarFirst.module_node]) ∈ BarFirst.visits
  /\ kind BarFirst.call = ast_Call (nid BarFirst.foo_use)
  /\ definition_node BarFirst.definition_mapping (nid BarFirst.foo_use)
     = nid BarFirst.foo_def
  /\ (BarFirst.call, [BarFirst.module_node; BarFirst.bar_def])
     ∈ BarFirst.visits
  /\ BarFirst.named_to_unwrapped !! nid BarFirst.foo_def
     = Some BarFirst.foo_function
  /\ exists s',
       pass_runs BarFirst.runtime "m" ∅ BarFirst.unwrapped_to_named
         BarFirst.named_to_unwrapped BarFirst.definition_mapping
         BarFirst.visits (mkState ∅ []) (Done s')
       /\ stdout s' = [].
Proof.
  split; [reflexivity|]. split; [do 4 right; left|]. split; [reflexivity|].
  split; [by_computation|]. split; [do 3 right; left|].
  split; [by_computation|].
  pose proof (pass_runs_function BarFirst.runtime "m" ∅
                BarFirst.unwrapped_to_named BarFirst.named_to_unwrapped
                BarFirst.definition_mapping BarFirst.visits (mkState ∅ []))
    as Hrun.
  assert (E : modified_handle_local_syntax_directed_typing_constraints
                BarFirst.runtime "m" ∅ BarFirst.unwrapped_to_named
                BarFirst.named_to_unwrapped BarFirst.definition_mapping
                BarFirst.visits (mkState ∅ [])
              = Done
                  (state_of
                     (modified_handle_local_syntax_directed_typing_constraints
                        BarFirst.runtime "m" ∅ BarFirst.unwrapped_to_named
                        BarFirst.named_to_unwrapped
                        BarFirst.definition_mapping BarFirst.visits
                        (mkState ∅ []))))
    by by_computation.
  rewrite E in Hrun. eexists. split; [exact Hrun|]. by_computation.
Defined.

(** Witness of C9: were the call [foo(1)] of [Scenario] the body of a
    lambda inside [bar], its record would have caller name [None] and the
    lines of the lambda. *)
Lemma caller_attribution_witness :
  exists r,
    stdout
      (state_of
         (handle_local_syntax_directed_typing_constraints_callback
            Scenario.runtime "m" ∅ Scenario.unwrapped_to_named
            Scenario.named_to_unwrapped Scenario.definition_mapping
            [TFunction (FunctionDefinition 2)] Scenario.call
            [Scenario.module_node; Scenario.bar_def; Scenario.lambda_node]
            Scenario.before_call))
    = [r]
    /\ caller_function_name r = None
    /\ caller_function_start r = Some 5
    /\ caller_function_end r = Some 5.
Proof.
  destruct (caller_attribution Scenario.runtime "m" ∅
              Scenario.unwrapped_to_named Scenario.named_to_unwrapped
              Scenario.definition_mapping [TFunction (FunctionDefinition 2)]
              4%positive (Some 5) (Some 5) 5%positive
              [Scenario.module_node; Scenario.bar_def; Scenario.lambda_node]
              Scenario.before_call)
    as (new & Hout & Hnew).
  assert (Hlen : length
                   (stdout
                      (state_of
                         (handle_local_syntax_directed_typing_constraints_callback
                            Scenario.runtime "m" ∅ Scenario.unwrapped_to_named
                            Scenario.named_to_unwrapped
                            Scenario.definition_mapping
                            [TFunction (FunctionDefinition 2)]
                            (mkAst 4 (Some 5) (Some 5) (ast_Call 5))
                            [Scenario.module_node; Scenario.bar_def;
                             Scenario.lambda_node]
                            Scenario.before_call)))
                 = 1%nat) by by_computation.
  assert (Hnew' : exists r, new = [r]).
  { rewrite Hout in Hlen.
    replace (stdout Scenario.before_call) with (@nil call_site_record)
      in Hlen by by_computation.
    destruct new as [|r [|r' new]]; try discriminate. by exists r. }
  destruct Hnew' as [r ->]. exists r. split.
  { unfold Scenario.call. rewrite Hout.
    by replace (stdout Scenario.before_call) with (@nil call_site_record)
      by by_computation. }
  destruct (Hnew r) as (_ & Hinner & _); [left|].
  apply (Hinner [Scenario.module_node; Scenario.bar_def] Scenario.lambda_node).
  - reflexivity.
  - left.
Defined.

(** Witness of C4 on [a = b = f()] with [f()] at [{Instance(C)}]. *)
Lemma assignment_transfer_witness :
  exists s',
    handle_local_syntax_directed_typing_constraints_callback
      Scenario.runtime "m" ∅ ∅ ∅ ∅ [] Chained.statement [] Chained.before
    = Done s'
    /\ get_runtime_terms_of_definition_node ∅ Chained.a s'
       = {[ TInstance (mkInstance Chained.C) ]}
    /\ get_runtime_terms_of_definition_node ∅ Chained.b s'
       = {[ TInstance (mkInstance Chained.C) ]}.
Proof.
  destruct (assignment_transfer Scenario.runtime "m" ∅ ∅ ∅ ∅ []
              23%positive (Some 1) (Some 1) [Chained.a; Chained.b]
              Chained.f_call [] Chained.before)
    as (s' & Hdone & _ & _ & _ & Hfresh).
  exists s'. split; [exact Hdone|].
  assert (Hempty : forall t,
             t ∈ [Chained.a; Chained.b] ->
             get_runtime_terms_of_definition_node ∅ t Chained.before = ∅).
  { intros t Ht.
    apply elem_of_cons in Ht as [->|Ht]; [by_computation|].
    apply elem_of_cons in Ht as [->|Ht]; [by_computation|].
    by apply elem_of_nil in Ht. }
  assert (Hvalue : get_runtime_terms_of_definition_node ∅ Chained.f_call
                     Chained.before
                   = {[ TInstance (mkInstance Chained.C) ]})
    by by_computation.
  split.
  - by rewrite (Hfresh Hempty Chained.a) by left.
  - by rewrite (Hfresh Hempty Chained.b) by (right; left).
Defined.

(** A tuple of names that is the target of an assignment is no display,
    yet it is an [ast.Tuple] and gets the rule of one: after the pass over
    [x, y = "ab"] it holds [Instance(str)] besides [Instance(tuple)],
    whether the statement is handled after its targets or before them. *)
Lemma unpacking_target_holds_value_terms :
  (exists s',
      pass_runs Scenario.runtime "m" ∅ ∅ ∅ ∅ Unpacking.visits (mkState ∅ [])
        (Done s')
      /\ (Unpacking.names, [Unpacking.module_node]) ∈ Unpacking.visits
      /\ kind Unpacking.names = ast_Tuple
      /\ get_runtime_terms_of_definition_node ∅ (nid Unpacking.names) s'
         = {[ TInstance (mkInstance (HostClass c_tuple));
              TInstance (mkInstance (HostClass c_str)) ]}
      /\ get_runtime_terms_of_definition_node ∅ (nid Unpacking.names) s'
         ≠ {[ TInstance (mkInstance (HostClass c_tuple)) ]})
  /\ (exists s',
        pass_runs Scenario.runtime "m" ∅ ∅ ∅ ∅
          Unpacking.visits_statement_first (mkState ∅ []) (Done s')
        /\ get_runtime_terms_of_definition_node ∅ (nid Unpacking.names) s'
           ≠ {[ TInstance (mkInstance (HostClass c_tuple)) ]}).
Proof.
  split.
  - pose proof (pass_runs_function Scenario.runtime "m" ∅ ∅ ∅ ∅
                  Unpacking.visits (mkState ∅ [])) as Hrun.
    assert (E : modified_handle_local_syntax_directed_typing_constraints
                  Scenario.runtime "m" ∅ ∅ ∅ ∅ Unpacking.visits
                  (mkState ∅ [])
                = Done
                    (state_of
                       (modified_handle_local_syntax_directed_typing_constraints
                          Scenario.runtime "m" ∅ ∅ ∅ ∅ Unpacking.visits
                          (mkState ∅ []))))
      by by_computation.
    rewrite E in Hrun. eexists. split; [exact Hrun|].
    split; [do 3 right; left|]. split; [reflexivity|].
    split; by_computation.
  - pose proof (pass_runs_function Scenario.runtime "m" ∅ ∅ ∅ ∅
                  Unpacking.visits_statement_first (mkState ∅ [])) as Hrun.
    assert (E : modified_handle_local_syntax_directed_typing_constraints
                  Scenario.runtime "m" ∅ ∅ ∅ ∅
                  Unpacking.visits_statement_first (mkState ∅ [])
                = Done
                    (state_of
                       (modified_handle_local_syntax_directed_typing_constraints
                          Scenario.runtime "m" ∅ ∅ ∅ ∅
                          Unpacking.visits_statement_first (mkState ∅ []))))
      by by_computation.
    rewrite E in Hrun. eexists. split; [exact Hrun|]. by_computation.
Qed.

(** Witness of C3 on the module of [Scenario]: the constant [1] ends with
    exactly [{Instance(int)}]. *)
Lemma literal_soundness_witness :
  exists s',
    modified_handle_local_syntax_directed_typing_constraints
      Scenario.runtime "m" ∅ Scenario.unwrapped_to_named
      Scenario.named_to_unwrapped Scenario.definition_mapping
      Scenario.visits Scenario.initial
    = Done s'
    /\ get_runtime_terms_of_definition_node Scenario.definition_mapping
         (nid Scenario.one) s'
       = {[ TInstance (mkInstance (HostClass c_int)) ]}.
Proof.
  pose proof (pass_runs_function Scenario.runtime "m" ∅
                Scenario.unwrapped_to_named Scenario.named_to_unwrapped
                Scenario.definition_mapping Scenario.visits Scenario.initial)
    as Hrun.
  assert (E : modified_handle_local_syntax_directed_typing_constraints
                Scenario.runtime "m" ∅ Scenario.unwrapped_to_named
                Scenario.named_to_unwrapped Scenario.definition_mapping
                Scenario.visits Scenario.initial
              = Done
                  (state_of
                     (modified_handle_local_syntax_directed_typing_constraints
                        Scenario.runtime "m" ∅ Scenario.unwrapped_to_named
                        Scenario.named_to_unwrapped
                        Scenario.definition_mapping Scenario.visits
                        Scenario.initial)))
    by by_computation.
  rewrite E in Hrun. eexists. split; [exact E|].
  apply (literal_soundness Scenario.runtime "m" ∅
           Scenario.unwrapped_to_named Scenario.named_to_unwrapped
           Scenario.definition_mapping Scenario.visits Scenario.initial _
           Scenario.one [Scenario.module_node; Scenario.bar_def]
           (HostClass c_int) Hrun).
  - do 3 right. left.
  - reflexivity.
  - by_computation.
  - intros n' ss' w Hin Hw Hd.
    repeat (apply elem_of_cons in Hin as [[= -> ->]|Hin];
            [ cbv [written_by kind Scenario.foo_def Scenario.bar_def
                     Scenario.foo_use Scenario.one Scenario.call nid] in Hw;
              repeat (apply elem_of_cons in Hw as [->|Hw];
                      [ first [ reflexivity | by vm_compute in Hd ] | ]);
              by apply elem_of_nil in Hw | ]).
    by apply elem_of_nil in Hin.
Defined.

(** Counterexample to C6 as stated: a class whose [__name__] is the empty
    string, as [type('', (Base,), {})] makes them, and whose constructor
    is in the mapping.  The call of the class prints no record, while the
    call node gains the instance. *)
Lemma class_call_counterexample :
  let s' :=
    state_of
      (handle_local_syntax_directed_typing_constraints_callback
         (Construction.runtime "") "m" Construction.classes
         Construction.unwrapped_to_named Construction.named_to_unwrapped
         Construction.definition_mapping [TRuntimeClass Construction.A]
         Construction.call Construction.scope Construction.before_call) in
  get_runtime_terms_of_definition_node Construction.definition_mapping 5
    Construction.before_call
  = {[ TRuntimeClass Construction.A ]}
  /\ is_Some (Construction.unwrapped_to_named
              !! get_unwrapped_constructor (Construction.runtime "")
                   Construction.A)
  /\ stdout s' = []
  /\ get_runtime_terms_of_definition_node Construction.definition_mapping
       (nid Construction.call) s'
     = {[ TInstance (mkInstance Construction.A) ]}.
Proof.
  intros s'. subst s'.
  split; [by_computation|].
  split; [by_computation|].
  split; by_computation.
Qed.

(** Witness of the amended C6: the call [A()] of [Construction] prints the
    record that names [A] and its [__init__], and the call node gains
    [Instance(A)]. *)
Lemma class_call_witness :
  exists s' new,
    handle_local_syntax_directed_typing_constraints_callback
      (Construction.runtime "A") "m" Construction.classes
      Construction.unwrapped_to_named Construction.named_to_unwrapped
      Construction.definition_mapping [TRuntimeClass Construction.A]
      Construction.call Construction.scope Construction.before_call
    = Done s'
    /\ stdout s' = stdout Construction.before_call ++ new
    /\ TInstance (mkInstance Construction.A)
       ∈ get_runtime_terms_of_definition_node Construction.definition_mapping
           6 s'
    /\ Construction.record_of_call ∈ new.
Proof.
  assert (Hterms : get_runtime_terms_of_definition_node
                     Construction.definition_mapping 5
                     Construction.before_call
                   = {[ TRuntimeClass Construction.A ]})
    by by_computation.
  destruct (class_call (Construction.runtime "A") "m" Construction.classes
              Construction.unwrapped_to_named Construction.named_to_unwrapped
              Construction.definition_mapping 6%positive (Some 4) (Some 4)
              5%positive Construction.scope Construction.before_call
              [TRuntimeClass Construction.A] Construction.A)
    as (s' & new & Hdone & Hout & Hinst & Hrecord & _).
  - by_computation.
  - rewrite Hterms. by rewrite elements_singleton.
  - rewrite Hterms. by apply elem_of_singleton.
  - exists s', new. split; [exact Hdone|]. split; [exact Hout|].
    split; [exact Hinst|].
    apply (Hrecord "m"); [by_computation|reflexivity|done|done|done].
Defined.

Lemma ambiguous_callee_elements :
  elements
    (iterated_set Ambiguous.definition_mapping Ambiguous.call
       Ambiguous.before_call)
  = [Ambiguous.foo_term; Ambiguous.instance_term].
Proof. by_computation. Qed.

Lemma stale_callee_order_first :
  iteration_order Ambiguous.definition_mapping Ambiguous.call
    Ambiguous.before_call [Ambiguous.foo_term; Ambiguous.instance_term]
  /\ exists s',
       handle_local_syntax_directed_typing_constraints_callback
         Ambiguous.runtime "m" Ambiguous.classes Ambiguous.unwrapped_to_named
         Ambiguous.named_to_unwrapped Ambiguous.definition_mapping
         [Ambiguous.foo_term; Ambiguous.instance_term]
         Ambiguous.call Ambiguous.scope Ambiguous.before_call
       = Done s'
       /\ stdout s' = [Ambiguous.foo_record; Ambiguous.foo_record].
Proof.
  split.
  - unfold iteration_order. by rewrite ambiguous_callee_elements.
  - exists (state_of
              (handle_local_syntax_directed_typing_constraints_callback
                 Ambiguous.runtime "m" Ambiguous.classes
                 Ambiguous.unwrapped_to_named Ambiguous.named_to_unwrapped
                 Ambiguous.definition_mapping
                 [Ambiguous.foo_term; Ambiguous.instance_term]
                 Ambiguous.call Ambiguous.scope Ambiguous.before_call)).
    split; by_computation.
Qed.

Lemma stale_callee_order_second :
  iteration_order Ambiguous.definition_mapping Ambiguous.call
    Ambiguous.before_call [Ambiguous.instance_term; Ambiguous.foo_term]
  /\ exists s',
       handle_local_syntax_directed_typing_constraints_callback
         Ambiguous.runtime "m" Ambiguous.classes Ambiguous.unwrapped_to_named
         Ambiguous.named_to_unwrapped Ambiguous.definition_mapping
         [Ambiguous.instance_term; Ambiguous.foo_term]
         Ambiguous.call Ambiguous.scope Ambiguous.before_call
       = Done s'
       /\ stdout s' = [Ambiguous.foo_record].
Proof.
  split.
  - unfold iteration_order. rewrite ambiguous_callee_elements.
    apply perm_swap.
  - exists (state_of
              (handle_local_syntax_directed_typing_constraints_callback
                 Ambiguous.runtime "m" Ambiguous.classes
                 Ambiguous.unwrapped_to_named Ambiguous.named_to_unwrapped
                 Ambiguous.definition_mapping
                 [Ambiguous.instance_term; Ambiguous.foo_term]
                 Ambiguous.call Ambiguous.scope Ambiguous.before_call)).
    split; by_computation.
Qed.

(** C1, what the engine does.  The callee of the call [f(1)] of
    [Ambiguous] has two terms: the definition of [foo], which resolves to
    a known function, and [Instance(C)], which does not resolve since [C]
    has no [__call__].  When the set yields [foo] first, the iteration of
    [Instance(C)] prints the record of [foo] a second time, the callee
    variables still holding what the iteration of [foo] assigned; when it
    yields [Instance(C)] first, one record is printed. *)
Theorem stale_callee_repeats_record :
  let callback :=
    handle_local_syntax_directed_typing_constraints_callback
      Ambiguous.runtime "m" Ambiguous.classes Ambiguous.unwrapped_to_named
      Ambiguous.named_to_unwrapped Ambiguous.definition_mapping in
  let own :=
    own_record Ambiguous.runtime "m" Ambiguous.unwrapped_to_named
      Ambiguous.named_to_unwrapped Ambiguous.call Ambiguous.scope in
  get_runtime_terms_of_definition_node Ambiguous.definition_mapping 12
    Ambiguous.before_call
  = {[ Ambiguous.foo_term; Ambiguous.instance_term ]}
  /\ own Ambiguous.foo_term = Some Ambiguous.foo_record
  /\ own Ambiguous.instance_term = None
  /\ iteration_order Ambiguous.definition_mapping Ambiguous.call
       Ambiguous.before_call [Ambiguous.foo_term; Ambiguous.instance_term]
  /\ iteration_order Ambiguous.definition_mapping Ambiguous.call
       Ambiguous.before_call [Ambiguous.instance_term; Ambiguous.foo_term]
  /\ (exists s',
         callback [Ambiguous.foo_term; Ambiguous.instance_term]
           Ambiguous.call Ambiguous.scope Ambiguous.before_call
         = Done s'
         /\ stdout s' = [Ambiguous.foo_record; Ambiguous.foo_record])
  /\ (exists s',
         callback [Ambiguous.instance_term; Ambiguous.foo_term]
           Ambiguous.call Ambiguous.scope Ambiguous.before_call
         = Done s'
         /\ stdout s' = [Ambiguous.foo_record]).
Proof.
  intros callback own. subst callback own.
  split; [by_computation|].
  split; [by_computation|].
  split; [by_computation|].
  split; [apply stale_callee_order_first|].
  split; [apply stale_callee_order_second|].
  split; [apply stale_callee_order_first | apply stale_callee_order_second].
Qed.

(** Witness of C2: two runs over the module of [Defaults], the lambda
    being at another address in the second.  They store the same terms
    and print the same record up to its signature. *)
Lemma analysis_deterministic_witness :
  exists s1 s2,
    run_modules Defaults.runtime ∅ Defaults.unwrapped_to_named
      Defaults.named_to_unwrapped [Defaults.source] (mkState ∅ []) (Done s1)
    /\ run_modules
         (with_signature Defaults.signature_in_second_run Defaults.runtime)
         ∅ Defaults.unwrapped_to_named Defaults.named_to_unwrapped
         [Defaults.source] (mkState ∅ []) (Done s2)
    /\ node_runtime_terms s1 = node_runtime_terms s2
    /\ forall r,
         r ∈ without_signature <$> stdout s1
         <-> r ∈ without_signature <$> stdout s2.
Proof.
  pose (s1 :=
          state_of
            (modified_handle_local_syntax_directed_typing_constraints
               Defaults.runtime "m" ∅ Defaults.unwrapped_to_named
               Defaults.named_to_unwrapped
               (input_definition_mapping Defaults.source)
               (input_visits Defaults.source) (mkState ∅ []))).
  pose (s2 :=
          state_of
            (modified_handle_local_syntax_directed_typing_constraints
               (with_signature Defaults.signature_in_second_run
                  Defaults.runtime)
               "m" ∅ Defaults.unwrapped_to_named Defaults.named_to_unwrapped
               (input_definition_mapping Defaults.source)
               (input_visits Defaults.source) (mkState ∅ []))).
  assert (Hrun1 : run_modules Defaults.runtime ∅ Defaults.unwrapped_to_named
                    Defaults.named_to_unwrapped [Defaults.source]
                    (mkState ∅ []) (Done s1)).
  { eapply run_module; [|apply run_end].
    pose proof (pass_runs_function Defaults.runtime "m" ∅
                  Defaults.unwrapped_to_named Defaults.named_to_unwrapped
                  (input_definition_mapping Defaults.source)
                  (input_visits Defaults.source) (mkState ∅ [])) as Hrun.
    assert (E : modified_handle_local_syntax_directed_typing_constraints
                  Defaults.runtime "m" ∅ Defaults.unwrapped_to_named
                  Defaults.named_to_unwrapped
                  (input_definition_mapping Defaults.source)
                  (input_visits Defaults.source) (mkState ∅ [])
                = Done s1) by by_computation.
    rewrite E in Hrun. exact Hrun. }
  assert (Hrun2 : run_modules
                    (with_signature Defaults.signature_in_second_run
                       Defaults.runtime)
                    ∅ Defaults.unwrapped_to_named Defaults.named_to_unwrapped
                    [Defaults.source] (mkState ∅ []) (Done s2)).
  { eapply run_module; [|apply run_end].
    pose proof (pass_runs_function
                  (with_signature Defaults.signature_in_second_run
                     Defaults.runtime)
                  "m" ∅ Defaults.unwrapped_to_named
                  Defaults.named_to_unwrapped
                  (input_definition_mapping Defaults.source)
                  (input_visits Defaults.source) (mkState ∅ [])) as Hrun.
    assert (E : modified_handle_local_syntax_directed_typing_constraints
                  (with_signature Defaults.signature_in_second_run
                     Defaults.runtime)
                  "m" ∅ Defaults.unwrapped_to_named
                  Defaults.named_to_unwrapped
                  (input_definition_mapping Defaults.source)
                  (input_visits Defaults.source) (mkState ∅ [])
                = Done s2) by by_computation.
    rewrite E in Hrun. exact Hrun. }
  exists s1, s2. split; [exact Hrun1|]. split; [exact Hrun2|].
  destruct (analysis_deterministic Defaults.runtime
              Defaults.signature_in_second_run ∅ Defaults.unwrapped_to_named
              Defaults.named_to_unwrapped [Defaults.source] (mkState ∅ [])
              (Done s1) (Done s2) Hrun1 Hrun2) as [Hsame _].
  destruct (Hsame s1 s2 eq_refl eq_refl) as (Hterms & Hcolumns & _).
  split; [exact Hterms|exact Hcolumns].
Defined.

(** Counterexample to C2 as stated: two runs over the unchanged module of
    [Defaults], in which the lambda that is the default value of [foo] is
    at different addresses.  Each run prints one record for the call
    [foo()]; the two records differ in their signature, so the sets of
    records of the two runs differ. *)
Lemma analysis_deterministic_counterexample :
  exists s1 s2,
    run_modules Defaults.runtime ∅ Defaults.unwrapped_to_named
      Defaults.named_to_unwrapped [Defaults.source] (mkState ∅ []) (Done s1)
    /\ run_modules
         (with_signature Defaults.signature_in_second_run Defaults.runtime)
         ∅ Defaults.unwrapped_to_named Defaults.named_to_unwrapped
         [Defaults.source] (mkState ∅ []) (Done s2)
    /\ stdout s1
       = [Defaults.record_with "(key=<function <lambda> at 0x7f2b1c3a4d30>)"]
    /\ stdout s2
       = [Defaults.record_with "(key=<function <lambda> at 0x7f91e05b8af0>)"]
    /\ ~ (forall r, r ∈ stdout s1 <-> r ∈ stdout s2).
Proof.
  pose (s1 :=
          state_of
            (modified_handle_local_syntax_directed_typing_constraints
               Defaults.runtime "m" ∅ Defaults.unwrapped_to_named
               Defaults.named_to_unwrapped
               (input_definition_mapping Defaults.source)
               (input_visits Defaults.source) (mkState ∅ []))).
  pose (s2 :=
          state_of
            (modified_handle_local_syntax_directed_typing_constraints
               (with_signature Defaults.signature_in_second_run
                  Defaults.runtime)
               "m" ∅ Defaults.unwrapped_to_named Defaults.named_to_unwrapped
               (input_definition_mapping Defaults.source)
               (input_visits Defaults.source) (mkState ∅ []))).
  assert (Hout1 : stdout s1
                  = [Defaults.record_with
                       "(key=<function <lambda> at 0x7f2b1c3a4d30>)"])
    by by_computation.
  assert (Hout2 : stdout s2
                  = [Defaults.record_with
                       "(key=<function <lambda> at 0x7f91e05b8af0>)"])
    by by_computation.
  exists s1, s2. split; [|split; [|split; [exact Hout1|split; [exact Hout2|]]]].
  - eapply run_module; [|apply run_end].
    pose proof (pass_runs_function Defaults.runtime "m" ∅
                  Defaults.unwrapped_to_named Defaults.named_to_unwrapped
                  (input_definition_mapping Defaults.source)
                  (input_visits Defaults.source) (mkState ∅ [])) as Hrun.
    assert (E : modified_handle_local_syntax_directed_typing_constraints
                  Defaults.runtime "m" ∅ Defaults.unwrapped_to_named
                  Defaults.named_to_unwrapped
                  (input_definition_mapping Defaults.source)
                  (input_visits Defaults.source) (mkState ∅ [])
                = Done s1) by by_computation.
    rewrite E in Hrun. exact Hrun.
  - eapply run_module; [|apply run_end].
    pose proof (pass_runs_function
                  (with_signature Defaults.signature_in_second_run
                     Defaults.runtime)
                  "m" ∅ Defaults.unwrapped_to_named
                  Defaults.named_to_unwrapped
                  (input_definition_mapping Defaults.source)
                  (input_visits Defaults.source) (mkState ∅ [])) as Hrun.
    assert (E : modified_handle_local_syntax_directed_typing_constraints
                  (with_signature Defaults.signature_in_second_run
                     Defaults.runtime)
                  "m" ∅ Defaults.unwrapped_to_named
                  Defaults.named_to_unwrapped
                  (input_definition_mapping Defaults.source)
                  (input_visits Defaults.source) (mkState ∅ [])
                = Done s2) by by_computation.
    rewrite E in Hrun. exact Hrun.
  - intros Hsame. rewrite Hout1, Hout2 in Hsame.
    assert (Hin : Defaults.record_with
                    "(key=<function <lambda> at 0x7f2b1c3a4d30>)"
                  ∈ [Defaults.record_with
                       "(key=<function <lambda> at 0x7f91e05b8af0>)"]).
    { apply Hsame. left. }
    apply list_elem_of_singleton in Hin. discriminate Hin.
Defined.

(** Counterexample to C7 as stated: the import of [a] raises [KeyError],
    which the handler of the import loop does not catch.  The run ends
    there, and the record that the analysis of [b] prints when every module
    imports is never printed.  Likewise an [OSError] raised by the analysis
    of [a] ends the run before [b] is analysed. *)
Lemma fault_isolation_counterexample :
  caught_by_import_handler (OtherException "KeyError") = false
  /\ main Faults.load_key_error Faults.analyse Faults.items Faults.initial
     = Raised (OtherException "KeyError") Faults.initial
  /\ main Faults.load_all Faults.analyse Faults.items Faults.initial
     = Done (print Faults.record_of_b Faults.initial)
  /\ main Faults.load_all Faults.analyse_os_error Faults.items Faults.initial
     = Raised OSError Faults.initial.
Proof. repeat split; by_computation. Qed.

(** Witness of the amended C7: the import of [a] fails with
    [ModuleNotFoundError]; [a] is logged and left out, and [b] is analysed. *)
Lemma fault_isolation_witness :
  exists tables,
    import_loop Faults.load_missing_dependency Faults.items no_tables
    = inr tables
    /\ main Faults.load_missing_dependency Faults.analyse Faults.items
         Faults.initial
       = Done (print Faults.record_of_b Faults.initial)
    /\ "a" ∈ logged tables
    /\ "b" ∈ (module_name_to_module_node tables).*1.
Proof.
  destruct (fault_isolation Faults.load_missing_dependency Faults.analyse
              Faults.items Faults.initial) as (Hcaught & _ & _).
  destruct Hcaught as (tables & Himport & Hmain & Hlog & Hkeys).
  - intros m f e Hin Hload. unfold Faults.load_missing_dependency in Hload.
    destruct (String.eqb m "a"); [by injection Hload as <-|discriminate].
  - exists tables. split; [exact Himport|]. split; [by_computation|].
    split.
    + apply Hlog. exists "/src/a.py", ModuleNotFoundError.
      split; [left|reflexivity].
    + apply Hkeys. exists "/src/b.py", (tt, tt).
      split; [right; left|reflexivity].
Defined.

(** ** More on the term store *)

(** X11. How updates of the store combine: two updates of one node amount to
    one update with the union, updates of any two nodes can be swapped, and
    repeating an update changes nothing.  An update with no term leaves
    every term set as it is, but makes an entry for the node, as
    [setdefault] does. *)
Theorem update_runtime_terms_combine
    (terms : gmap node (gset RuntimeTerm)) (n m : node)
    (A B : gset RuntimeTerm) :
  update_runtime_terms n A (update_runtime_terms n B terms)
  = update_runtime_terms n (B ∪ A) terms
  /\ update_runtime_terms n A (update_runtime_terms m B terms)
     = update_runtime_terms m B (update_runtime_terms n A terms)
  /\ update_runtime_terms n A (update_runtime_terms n A terms)
     = update_runtime_terms n A terms
  /\ (forall k,
         get_runtime_terms (update_runtime_terms n ∅ terms) k
         = get_runtime_terms terms k)
  /\ dom (update_runtime_terms n ∅ terms) = {[ n ]} ∪ dom terms.
Proof.
  split; [|split; [|split; [|split]]].
  - unfold update_runtime_terms.
    rewrite lookup_insert_eq, insert_insert_eq. simpl.
    f_equal. apply set_eq. intros x. rewrite !elem_of_union. tauto.
  - destruct (decide (n = m)) as [->|Hne].
    + unfold update_runtime_terms.
      rewrite !lookup_insert_eq, !insert_insert_eq. simpl.
      f_equal. apply set_eq. intros x. rewrite !elem_of_union. tauto.
    + unfold update_runtime_terms.
      rewrite !lookup_insert_ne by done. by apply insert_insert_ne.
  - unfold update_runtime_terms.
    rewrite lookup_insert_eq, insert_insert_eq. simpl.
    f_equal. apply set_eq. intros x. rewrite !elem_of_union. tauto.
  - intros k. rewrite get_update_runtime_terms.
    case_decide; [|done]. apply (right_id_L ∅ (∪)).
  - unfold update_runtime_terms. apply dom_insert_L.
Qed.

(** ** The inverse mapping of lines 98-102 *)

Lemma invert_items_from (items : list (pyobj * node)) (acc : gmap node pyobj) v k :
  fold_left (fun inverse item => <[item.2 := item.1]> inverse) items acc !! v
  = Some k ->
  (k, v) ∈ items \/ acc !! v = Some k.
Proof.
  revert acc. induction items as [|[k0 v0] items IH]; intros acc; simpl.
  - by right.
  - intros H. apply IH in H as [H|H]; [left; by right|].
    destruct (decide (v0 = v)) as [->|Hne].
    + rewrite lookup_insert_eq in H. injection H as ->. left. left.
    + rewrite lookup_insert_ne in H by done. by right.
Qed.

Lemma invert_items_untouched (items : list (pyobj * node)) (acc : gmap node pyobj) v :
  v ∉ items.*2 ->
  fold_left (fun inverse item => <[item.2 := item.1]> inverse) items acc !! v
  = acc !! v.
Proof.
  revert acc. induction items as [|[k0 v0] items IH]; intros acc Hv; simpl.
  - done.
  - simpl in Hv. apply not_elem_of_cons in Hv as [Hne Hv].
    rewrite IH by done. by rewrite lookup_insert_ne.
Qed.

(** X12. The inverse mapping holds only items of the mapping, turned around;
    for a function definition that several live functions are mapped to,
    it holds the last of them; and when no two live functions share their
    definition, looking up one way and then the other gives back what one
    started from. *)
Theorem invert_items_round_trip (items : list (pyobj * node)) :
  (forall v k, invert_items items !! v = Some k -> (k, v) ∈ items)
  /\ (forall before k v after,
         items = before ++ (k, v) :: after ->
         v ∉ after.*2 ->
         invert_items items !! v = Some k)
  /\ (NoDup items.*1 -> NoDup items.*2 ->
      forall k v,
        (list_to_map items : gmap pyobj node) !! k = Some v
        <-> invert_items items !! v = Some k).
Proof.
  assert (Hlast : forall before k v after,
             items = before ++ (k, v) :: after ->
             v ∉ after.*2 ->
             invert_items items !! v = Some k).
  { intros before k v after -> Hv. unfold invert_items.
    rewrite fold_left_app. simpl.
    rewrite invert_items_untouched by done. apply lookup_insert_eq. }
  split; [|split; [exact Hlast|]].
  - intros v k H. apply invert_items_from in H as [?|H]; [done|].
    by rewrite lookup_empty in H.
  - intros Hk Hv k v. rewrite <- elem_of_list_to_map by done. split.
    + intros Hin. apply list_elem_of_split in Hin as (before & after & ->).
      apply (Hlast before k v after eq_refl).
      rewrite fmap_app in Hv. apply NoDup_app in Hv as (_ & _ & Hv).
      simpl in Hv. by apply NoDup_cons in Hv as [? _].
    + intros H. apply invert_items_from in H as [?|H]; [done|].
      by rewrite lookup_empty in H.
Qed.

(** X13. With the inverse mapping that [__main__] builds, the callee function
    that the call rule settles on for a term is always a live function of
    [unwrapped_runtime_functions_to_named_function_definitions], also in
    the branches that look a function definition up in the inverse. *)
Theorem callee_function_is_bridged
    (R : Runtime) (items : list (pyobj * node)) (t : RuntimeTerm)
    (cv : callee_vars) (u : pyobj)
    (Hunique : NoDup items.*1)
    (Hcv : forall u', var_callee_function cv = Some u' ->
                      is_Some ((list_to_map items : gmap pyobj node) !! u'))
    (Hu : var_callee_function
            (assign_callee R (list_to_map items) (invert_items items) t cv)
          = Some u) :
  is_Some ((list_to_map items : gmap pyobj node) !! u).
Proof.
  assert (Hinv : forall f u',
             invert_items items !! f = Some u' ->
             is_Some ((list_to_map items : gmap pyobj node) !! u')).
  { intros f u' H. exists f. apply elem_of_list_to_map; [done|].
    apply invert_items_from in H as [?|H]; [done|].
    by rewrite lookup_empty in H. }
  assert (Hmethod : forall cls fn,
             var_callee_function
               (assign_method R (list_to_map items) (invert_items items)
                  cls fn cv)
             = Some u ->
             is_Some ((list_to_map items : gmap pyobj node) !! u)).
  { intros cls [f|f]; unfold assign_method.
    - destruct (invert_items items !! f) as [u'|] eqn:E;
        [intros [= <-]; by eapply Hinv|apply Hcv].
    - destruct (list_to_map items !! f) as [d|] eqn:E;
        [intros [= <-]; by eexists|apply Hcv]. }
  revert Hu.
  destruct t as [?|c|[c]|[f|f]|cls fn|[c] fn]; cbn [assign_callee class_].
  - apply Hcv.
  - destruct (list_to_map items !! get_unwrapped_constructor R c)
      as [d|] eqn:E; [intros [= <-]; by eexists|apply Hcv].
  - destruct (_ !! "__call__") as [call|]; [|apply Hcv]. cbn zeta.
    destruct (list_to_map items !! unwrap R call)
      as [d|] eqn:E; [intros [= <-]; by eexists|apply Hcv].
  - destruct (invert_items items !! f) as [u'|] eqn:E;
      [intros [= <-]; by eapply Hinv|apply Hcv].
  - destruct (list_to_map items !! f) as [d|] eqn:E;
      [intros [= <-]; by eexists|apply Hcv].
  - apply Hmethod.
  - apply Hmethod.
Qed.

(** ** The def-use dictionary of lines 191-195 *)

Lemma definition_mapping_inner_from (d : node) (nodes : list node)
    (acc : gmap node node) n d' :
  fold_left (fun mapping n => <[n := d]> mapping) nodes acc !! n = Some d' ->
  (n ∈ nodes /\ d' = d) \/ acc !! n = Some d'.
Proof.
  revert acc. induction nodes as [|x nodes IH]; intros acc; simpl.
  - by right.
  - intros H. apply IH in H as [[? ?]|H]; [left; split; [by right|done]|].
    destruct (decide (x = n)) as [->|Hne].
    + rewrite lookup_insert_eq in H. injection H as <-. left. split; [left|done].
    + rewrite lookup_insert_ne in H by done. by right.
Qed.

Lemma definition_mapping_inner_keeps (d : node) (nodes : list node)
    (acc : gmap node node) n :
  is_Some (acc !! n) \/ n ∈ nodes ->
  is_Some (fold_left (fun mapping n => <[n := d]> mapping) nodes acc !! n).
Proof.
  revert acc. induction nodes as [|x nodes IH]; intros acc; simpl.
  - intros [?|H]; [done|]. by apply elem_of_nil in H.
  - intros H. apply IH.
    destruct (decide (x = n)) as [->|Hne].
    + left. rewrite lookup_insert_eq. by eexists.
    + rewrite lookup_insert_ne by done.
      destruct H as [?|H]; [by left|].
      apply elem_of_cons in H as [->|?]; [done|by right].
Qed.

Lemma definition_mapping_from (itersets : list (node * list node))
    (acc : gmap node node) n d :
  fold_left
    (fun mapping set =>
       fold_left (fun mapping n => <[n := set.1]> mapping) set.2 mapping)
    itersets acc !! n = Some d ->
  (exists nodes, (d, nodes) ∈ itersets /\ n ∈ nodes) \/ acc !! n = Some d.
Proof.
  revert acc. induction itersets as [|[d0 nodes0] itersets IH]; intros acc; simpl.
  - by right.
  - intros H. apply IH in H as [(nodes & Hin & Hn)|H].
    + left. exists nodes. split; [by right|done].
    + apply definition_mapping_inner_from in H as [[Hn ->]|H]; [|by right].
      left. exists nodes0. split; [left|done].
Qed.

Lemma definition_mapping_keeps (itersets : list (node * list node))
    (acc : gmap node node) n :
  is_Some (acc !! n)
  \/ (exists d nodes, (d, nodes) ∈ itersets /\ n ∈ nodes) ->
  is_Some
    (fold_left
       (fun mapping set =>
          fold_left (fun mapping n => <[n := set.1]> mapping) set.2 mapping)
       itersets acc !! n).
Proof.
  revert acc. induction itersets as [|[d0 nodes0] itersets IH]; intros acc; simpl.
  - intros [?|(d & nodes & H & _)]; [done|]. by apply elem_of_nil in H.
  - intros H. apply IH.
    destruct H as [H|(d & nodes & Hin & Hn)].
    + left. apply definition_mapping_inner_keeps. by left.
    + apply elem_of_cons in Hin as [[= -> ->]|Hin].
      * left. apply definition_mapping_inner_keeps. by right.
      * right. by exists d, nodes.
Qed.

(** X14. The dictionary sends a node only to a definition node whose set holds
    it.  A node that is in no set is its own definition node for the
    engine; a node whose sets all belong to one definition node has that
    one. *)
Theorem node_to_definition_node_mapping_of_sets
    (itersets : list (node * list node)) (n : node) :
  (forall d,
      node_to_definition_node_mapping_of itersets !! n = Some d ->
      exists nodes, (d, nodes) ∈ itersets /\ n ∈ nodes)
  /\ ((forall d nodes, (d, nodes) ∈ itersets -> n ∉ nodes) ->
      definition_node (node_to_definition_node_mapping_of itersets) n = n)
  /\ (forall d nodes,
         (d, nodes) ∈ itersets -> n ∈ nodes ->
         (forall d' nodes', (d', nodes') ∈ itersets -> n ∈ nodes' -> d' = d) ->
         definition_node (node_to_definition_node_mapping_of itersets) n = d).
Proof.
  assert (Hfrom : forall d,
             node_to_definition_node_mapping_of itersets !! n = Some d ->
             exists nodes, (d, nodes) ∈ itersets /\ n ∈ nodes).
  { intros d H. apply definition_mapping_from in H as [?|H]; [done|].
    by rewrite lookup_empty in H. }
  split; [exact Hfrom|]. split.
  - intros Hnone. unfold definition_node.
    destruct (node_to_definition_node_mapping_of itersets !! n) as [d|] eqn:E;
      [|done].
    destruct (Hfrom d eq_refl) as (nodes & Hin & Hn).
    by destruct (Hnone d nodes).
  - intros d nodes Hin Hn Hone. unfold definition_node.
    destruct (definition_mapping_keeps itersets ∅ n) as [d' Hd'].
    { right. by exists d, nodes. }
    unfold node_to_definition_node_mapping_of. rewrite Hd'. simpl.
    destruct (Hfrom d' Hd') as (nodes' & Hin' & Hn'). by eapply Hone.
Qed.

(** ** The files the import loop passes over *)

Lemma substring_whole (s : string) :
  String.substring 0 (String.length s) s = s.
Proof. induction s as [|c s IH]; simpl; [done|by rewrite IH]. Qed.

Lemma substring_after (before suffix : string) :
  String.substring (String.length before) (String.length suffix)
    (before ++ suffix)%string = suffix.
Proof.
  induction before as [|c before IH]; simpl; [apply substring_whole|done].
Qed.

Lemma length_append (a b : string) :
  String.length (a ++ b)%string = (String.length a + String.length b)%nat.
Proof. induction a as [|c a IH]; simpl; [done|by rewrite IH]. Qed.

Lemma substring_split (s : string) (k : nat) :
  (k <= String.length s)%nat ->
  s = (String.substring 0 k s
       ++ String.substring k (String.length s - k) s)%string.
Proof.
  revert k. induction s as [|c s IH]; intros k Hk; simpl in *.
  - destruct k; [done|lia].
  - destruct k as [|k]; simpl.
    + by rewrite substring_whole.
    + change (String c s
              = String c
                  (String.substring 0 k s
                   ++ String.substring k (String.length s - k) s)%string).
      f_equal. apply IH. lia.
Qed.

(** [endswith] holds exactly of the strings that end with the suffix. *)
Lemma endswith_has_suffix (s suffix : string) :
  endswith s suffix = true <-> has_suffix s suffix.
Proof.
  unfold endswith, has_suffix. split.
  - destruct (Nat.leb_spec (String.length suffix) (String.length s))
      as [Hle|]; [|done].
    intros Heq%String.eqb_eq.
    exists (String.substring 0 (String.length s - String.length suffix) s).
    pose proof (substring_split s (String.length s - String.length suffix))
      as Hs.
    replace (String.length s - (String.length s - String.length suffix))%nat
      with (String.length suffix) in Hs by lia.
    rewrite Heq in Hs. apply Hs. lia.
  - intros [before ->]. rewrite length_append.
    destruct (Nat.leb_spec (String.length suffix)
                (String.length before + String.length suffix)) as [_|]; [|lia].
    replace (String.length before + String.length suffix
             - String.length suffix)%nat
      with (String.length before) by lia.
    rewrite substring_after. apply String.eqb_refl.
Qed.

Section ImportProperties.

Context {module_tree live_module : Type}.
Variable load : string -> string -> exception + (module_tree * live_module).

Lemma import_loop_attempted items acc :
  import_loop load items acc = import_loop load (attempted items) acc.
Proof.
  revert acc. induction items as [|[m f] items IH]; intros acc; [done|].
  destruct (skipped f) eqn:E.
  - rewrite attempted_cons_skipped by done. simpl. rewrite E. apply IH.
  - rewrite attempted_cons by done. simpl. rewrite E.
    destruct (load m f) as [e|[tree live]].
    + destruct (caught_by_import_handler e); [apply IH|done].
    + apply IH.
Qed.

(** X15. A file is passed over when its path ends with [setup.py] or with
    [__main__.py], whatever stands before (so [my_setup.py] is passed
    over as [setup.py] is), and the files passed over have no part in
    what the import loop does: nothing is loaded, stored or logged for
    them. *)
Theorem skipped_files (items : list (string * string)) acc :
  (forall file_path,
      skipped file_path = true
      <-> has_suffix file_path "setup.py"
          \/ has_suffix file_path "__main__.py")
  /\ (forall before, skipped (before ++ "setup.py")%string = true)
  /\ import_loop load items acc = import_loop load (attempted items) acc.
Proof.
  assert (H : forall file_path,
             skipped file_path = true
             <-> has_suffix file_path "setup.py"
                 \/ has_suffix file_path "__main__.py").
  { intros f. unfold skipped.
    rewrite orb_true_iff, !endswith_has_suffix. tauto. }
  split; [exact H|]. split; [|apply import_loop_attempted].
  intros before. apply H. left. by exists before.
Qed.

Lemma dict_set_fresh {V} k (v : V) d :
  k ∉ d.*1 -> dict_set k v d = d ++ [(k, v)].
Proof.
  induction d as [|[k' v'] d IH]; simpl; [done|].
  intros [Hne Hd]%not_elem_of_cons.
  destruct (String.eqb k k') eqn:E.
  - apply String.eqb_eq in E. by destruct Hne.
  - by rewrite IH.
Qed.

Lemma loaded_keys items :
  (loaded_trees load items).*1 = (loaded_modules load items).*1.
Proof.
  unfold loaded_trees, loaded_modules.
  induction (attempted items) as [|[m f] l IH]; simpl; [done|].
  destruct (load m f) as [e|[tree live]]; simpl; [done|].
  f_equal. exact IH.
Qed.

Lemma import_loop_tables (todo : list (string * string)) acc tables :
  NoDup ((module_name_to_module_node acc).*1 ++ todo.*1) ->
  (module_name_to_module_node acc).*1 = (module_name_to_module acc).*1 ->
  Forall (fun item => skipped item.2 = false) todo ->
  import_loop load todo acc = inr tables ->
  module_name_to_module_node tables
  = module_name_to_module_node acc
    ++ omap (fun item : string * string =>
               match load item.1 item.2 with
               | inr loaded => Some (item.1, loaded.1)
               | inl _ => None
               end) todo
  /\ module_name_to_module tables
     = module_name_to_module acc
       ++ omap (fun item : string * string =>
                  match load item.1 item.2 with
                  | inr loaded => Some (item.1, loaded.2)
                  | inl _ => None
                  end) todo
  /\ logged tables
     = logged acc
       ++ omap (fun item : string * string =>
                  match load item.1 item.2 with
                  | inr _ => None
                  | inl _ => Some item.1
                  end) todo.
Proof.
  revert acc. induction todo as [|[m f] todo IH]; intros acc Hnd Hkeys Hatt.
  - simpl. intros [= <-]. by rewrite !app_nil_r.
  - apply Forall_cons in Hatt as [Hm Hatt]. simpl in Hm.
    simpl. rewrite Hm.
    assert (Hfresh : m ∉ (module_name_to_module_node acc).*1).
    { apply NoDup_app in Hnd as (_ & Hdisj & _).
      intros Hin. apply (Hdisj m Hin). left. }
    destruct (load m f) as [e|[tree live]] eqn:El.
    + destruct (caught_by_import_handler e); [|done].
      intros Hrun. apply IH in Hrun; simpl; [| |done|done].
      * destruct Hrun as (-> & -> & ->). simpl.
        by rewrite <- app_assoc.
      * simpl in Hnd. apply NoDup_app in Hnd as (Ha & Hdisj & Ht).
        apply NoDup_cons in Ht as [Hmt Ht].
        apply NoDup_app. split; [done|]. split; [|done].
        intros x Hx Hx'. apply (Hdisj x Hx). by right.
    + intros Hrun. apply IH in Hrun; simpl; [| | |done].
      * destruct Hrun as (-> & -> & ->). simpl.
        rewrite !dict_set_fresh by (by rewrite <- ?Hkeys).
        by rewrite <- !app_assoc.
      * rewrite dict_set_fresh by done.
        rewrite fmap_app, <- app_assoc. simpl.
        simpl in Hnd. done.
      * rewrite !dict_set_fresh by (by rewrite <- ?Hkeys).
        rewrite !fmap_app. by rewrite Hkeys.
Qed.

Lemma attempted_NoDup (items : list (string * string)) :
  NoDup items.*1 -> NoDup (attempted items).*1.
Proof.
  intros Hkeys. unfold attempted. apply (sublist_NoDup _ _ Hkeys).
  apply fmap_sublist, sublist_filter.
Qed.

Lemma import_loop_trees (items : list (string * string))
    (tables : import_tables) :
  NoDup items.*1 ->
  import_loop load items no_tables = inr tables ->
  module_name_to_module_node tables = loaded_trees load items.
Proof.
  intros Hkeys Hrun. rewrite import_loop_attempted in Hrun.
  apply import_loop_tables in Hrun as (Hn & _); simpl;
    [done|by apply attempted_NoDup|done|].
  unfold attempted. apply Forall_forall. intros x Hx.
  by apply list_elem_of_filter in Hx as [? _].
Qed.

(** X16. When the import loop completes, its two dictionaries hold the
    modules that loaded, in the order of the items, and the log names
    those that did not.  The dictionaries have the same keys in the same
    order, so every module that the analysis loop takes from the first
    has its live module in the second. *)
Theorem import_tables_content (items : list (string * string))
    (tables : import_tables)
    (Hkeys : NoDup items.*1)
    (Hrun : import_loop load items no_tables = inr tables) :
  module_name_to_module_node tables = loaded_trees load items
  /\ module_name_to_module tables = loaded_modules load items
  /\ logged tables = failed_modules load items
  /\ (module_name_to_module_node tables).*1
     = (module_name_to_module tables).*1
  /\ NoDup (module_name_to_module_node tables).*1.
Proof.
  rewrite import_loop_attempted in Hrun.
  assert (Hnd : NoDup (attempted items).*1) by by apply attempted_NoDup.
  apply import_loop_tables in Hrun; simpl; [|done|done|].
  - destruct Hrun as (Hn & Hm & Hl). simpl in *.
    split; [exact Hn|]. split; [exact Hm|]. split; [exact Hl|].
    rewrite Hn, Hm. split; [apply loaded_keys|].
    unfold loaded_trees.
    clear -Hnd. induction (attempted items) as [|[m f] l IH]; simpl;
      [constructor|].
    simpl in Hnd. apply NoDup_cons in Hnd as [Hm Hl].
    destruct (load m f) as [e|[tree live]]; simpl; [by apply IH|].
    apply NoDup_cons. split; [|by apply IH].
    intros Hin. apply Hm. clear -Hin.
    induction l as [|[m' f'] l IH]; simpl in *; [done|].
    destruct (load m' f') as [e|[tree' live']]; simpl in *.
    + right. by apply IH.
    + apply elem_of_cons in Hin as [->|Hin]; [left|right; by apply IH].
  - unfold attempted. apply Forall_forall. intros x Hx.
    by apply list_elem_of_filter in Hx as [? _].
Qed.

Variable analyse : string -> module_tree -> state -> outcome.

(** X17. The whole run analyses the modules that are attempted and load, in
    the order of the items, and no other: when the import loop
    completes, [main] is the analysis loop over these modules. *)
Theorem main_analyses_loaded_modules (items : list (string * string))
    (s : state) (tables : import_tables)
    (Hkeys : NoDup items.*1)
    (Hrun : import_loop load items no_tables = inr tables) :
  main load analyse items s
  = analysis_loop analyse (loaded_trees load items) s.
Proof.
  unfold main. rewrite Hrun.
  by rewrite (import_loop_trees items tables Hkeys Hrun).
Qed.

End ImportProperties.

(** ** The dummy definition nodes of lines 117-183 *)

Lemma add_dummy_definition_nodes_app es1 es2 p :
  add_dummy_definition_nodes (es1 ++ es2) p
  = add_dummy_definition_nodes es2 (add_dummy_definition_nodes es1 p).
Proof. apply fold_left_app. Qed.

Lemma add_dummy_definition_nodes_unmatched es s names nx l l' :
  add_dummy_definition_nodes es (mkPreparation s names nx l')
  = mkPreparation
      (prepared_state (add_dummy_definition_nodes es (mkPreparation s names nx l)))
      (names_to_dummy_definition_nodes
         (add_dummy_definition_nodes es (mkPreparation s names nx l)))
      (next_node (add_dummy_definition_nodes es (mkPreparation s names nx l)))
      l'.
Proof.
  unfold add_dummy_definition_nodes.
  revert s names nx. induction es as [|[name t] es IH]; intros s names nx.
  - done.
  - simpl. unfold add_dummy_definition_node. simpl. apply IH.
Qed.

Lemma add_dummy_definition_nodes_keeps es p :
  unmatched (add_dummy_definition_nodes es p) = unmatched p
  /\ stdout (prepared_state (add_dummy_definition_nodes es p))
     = stdout (prepared_state p)
  /\ (next_node p <= next_node (add_dummy_definition_nodes es p))%positive.
Proof.
  revert p. induction es as [|[name t] es IH]; intros p; simpl.
  - split; [done|]. split; [done|lia].
  - destruct (IH (add_dummy_definition_node name t p)) as (-> & -> & Hle).
    simpl in *. split; [done|]. split; [done|lia].
Qed.

Lemma add_dummy_definition_nodes_fresh es p :
  (forall k, is_Some (node_runtime_terms (prepared_state p) !! k) ->
             (k < next_node p)%positive) ->
  forall k,
    is_Some (node_runtime_terms
               (prepared_state (add_dummy_definition_nodes es p)) !! k) ->
    (k < next_node (add_dummy_definition_nodes es p))%positive.
Proof.
  revert p. induction es as [|[name t] es IH]; intros p Hp; simpl; [done|].
  apply IH. simpl. intros k. unfold update_runtime_terms.
  destruct (decide (next_node p = k)) as [<-|Hne].
  - intros _. lia.
  - rewrite lookup_insert_ne by done. intros H%Hp. lia.
Qed.

Lemma add_dummy_definition_nodes_frame es p k :
  (k < next_node p)%positive ->
  node_runtime_terms (prepared_state (add_dummy_definition_nodes es p)) !! k
  = node_runtime_terms (prepared_state p) !! k.
Proof.
  revert p. induction es as [|[name t] es IH]; intros p Hk; simpl; [done|].
  rewrite IH by (simpl; lia). simpl. unfold update_runtime_terms.
  apply lookup_insert_ne. lia.
Qed.

Lemma add_dummy_definition_nodes_other es p name :
  name ∉ es.*1 ->
  names_to_dummy_definition_nodes (add_dummy_definition_nodes es p) !! name
  = names_to_dummy_definition_nodes p !! name.
Proof.
  revert p. induction es as [|[name' t] es IH]; intros p Hn; simpl; [done|].
  simpl in Hn. apply not_elem_of_cons in Hn as [Hne Hn].
  rewrite IH by done. simpl. by apply lookup_insert_ne.
Qed.

Lemma add_dummy_definition_nodes_last es p before name t after :
  (forall k, is_Some (node_runtime_terms (prepared_state p) !! k) ->
             (k < next_node p)%positive) ->
  es = before ++ (name, t) :: after ->
  name ∉ after.*1 ->
  exists d,
    names_to_dummy_definition_nodes (add_dummy_definition_nodes es p) !! name
    = Some d
    /\ get_runtime_terms
         (node_runtime_terms (prepared_state (add_dummy_definition_nodes es p)))
         d = {[ t ]}
    /\ (next_node p <= d)%positive.
Proof.
  intros Hp -> Hafter.
  rewrite add_dummy_definition_nodes_app.
  set (q := add_dummy_definition_nodes before p).
  assert (Hq := add_dummy_definition_nodes_fresh before p Hp). fold q in Hq.
  destruct (add_dummy_definition_nodes_keeps before p) as (_ & _ & Hle).
  fold q in Hle.
  exists (next_node q).
  change (add_dummy_definition_nodes ((name, t) :: after) q)
    with (add_dummy_definition_nodes after
            (add_dummy_definition_node name t q)).
  split; [|split; [|done]].
  - rewrite add_dummy_definition_nodes_other by done. simpl.
    apply lookup_insert_eq.
  - unfold get_runtime_terms.
    rewrite add_dummy_definition_nodes_frame by (simpl; lia). simpl.
    unfold update_runtime_terms. rewrite lookup_insert_eq. simpl.
    unfold get_runtime_terms.
    destruct (node_runtime_terms (prepared_state q) !! next_node q) eqn:E.
    + assert (next_node q < next_node q)%positive; [|lia].
      apply Hq. by eexists.
    + simpl. apply (left_id_L ∅ (∪)).
Qed.

Lemma consecutive_from first count x :
  x ∈ consecutive first count -> (first <= x)%positive.
Proof.
  revert first. induction count as [|count IH]; intros first; simpl.
  - intros H. by apply elem_of_nil in H.
  - intros [->|H]%elem_of_cons; [lia|]. apply IH in H. lia.
Qed.

Lemma consecutive_NoDup first count : NoDup (consecutive first count).
Proof.
  revert first. induction count as [|count IH]; intros first; simpl.
  - constructor.
  - apply NoDup_cons. split; [|apply IH].
    intros H%consecutive_from. lia.
Qed.

Lemma add_dummy_definition_nodes_seed es p :
  prepared_state (add_dummy_definition_nodes es p)
  = seed_dummy_definition_nodes
      (zip (consecutive (next_node p) (length es)) es.*2) (prepared_state p)
  /\ names_to_dummy_definition_nodes (add_dummy_definition_nodes es p)
     = fold_left (fun names entry => <[entry.1 := entry.2]> names)
         (zip es.*1 (consecutive (next_node p) (length es)))
         (names_to_dummy_definition_nodes p).
Proof.
  revert p. induction es as [|[name t] es IH]; intros p; [done|].
  destruct (IH (add_dummy_definition_node name t p)) as [Hs Hn].
  split; [exact Hs|exact Hn].
Qed.

Section PreparationProperties.

Variable R : Runtime.
Variable module_name : string.
Variable unwrapped_runtime_functions_to_named_function_definitions :
  gmap pyobj node.
Variable unwrap_object : runtime_object -> runtime_object.
Variable runtime_term_of_unwrapped_runtime_function : pyobj -> pyobj.
Variable NotImplementedType : RuntimeClass.

Lemma builtins_loop builtins p :
  fold_left (handle_builtin unwrap_object
               runtime_term_of_unwrapped_runtime_function) builtins p
  = add_dummy_definition_nodes
      (omap (builtin_term unwrap_object
               runtime_term_of_unwrapped_runtime_function) builtins) p.
Proof.
  revert p. induction builtins as [|item builtins IH]; intros p; [done|].
  simpl. rewrite IH. unfold handle_builtin.
  by destruct (builtin_term _ _ item) as [[name t]|].
Qed.

Lemma singletons_loop (values : list (string * RuntimeClass)) p :
  fold_left handle_singleton values p
  = add_dummy_definition_nodes
      (map (fun item : string * RuntimeClass =>
              (item.1, TInstance (mkInstance item.2))) values) p.
Proof.
  revert p. induction values as [|item values IH]; intros p; [done|].
  simpl. by rewrite IH.
Qed.

Lemma own_classes_loop module_dict p :
  fold_left (handle_own_class R module_name unwrap_object) module_dict p
  = add_dummy_definition_nodes
      (omap (own_class_term R module_name unwrap_object) module_dict) p.
Proof.
  revert p. induction module_dict as [|item module_dict IH]; intros p; [done|].
  simpl. rewrite IH. unfold handle_own_class.
  by destruct (own_class_term _ _ _ item) as [[name t]|].
Qed.

Lemma imports_loop imported p :
  fold_left
    (handle_import unwrapped_runtime_functions_to_named_function_definitions
       unwrap_object runtime_term_of_unwrapped_runtime_function)
    imported p
  = let q :=
      add_dummy_definition_nodes
        (omap (fun item : string * runtime_object =>
                 match
                   imported_term
                     unwrapped_runtime_functions_to_named_function_definitions
                     unwrap_object
                     runtime_term_of_unwrapped_runtime_function item.2
                 with
                 | Some t => Some (item.1, t)
                 | None => None
                 end) imported) p in
    mkPreparation (prepared_state q) (names_to_dummy_definition_nodes q)
      (next_node q)
      (unmatched p
       ++ omap (fun item : string * runtime_object =>
                  match
                    imported_term
                      unwrapped_runtime_functions_to_named_function_definitions
                      unwrap_object
                      runtime_term_of_unwrapped_runtime_function item.2
                  with
                  | Some _ => None
                  | None => Some item.1
                  end) imported).
Proof.
  revert p. induction imported as [|[name obj] imported IH]; intros p.
  - simpl. rewrite app_nil_r. by destruct p.
  - simpl. rewrite IH. unfold handle_import. simpl.
    destruct (imported_term _ _ _ obj) as [t|]; simpl; [done|].
    destruct p as [s names nx l]. simpl.
    rewrite (add_dummy_definition_nodes_unmatched _ s names nx l (l ++ [name])).
    simpl. by rewrite <- app_assoc.
Qed.

(** The four loops amount to the statements of
    [add_dummy_definition_node] for [dummy_entries], in that order; the
    imported names that match no runtime term are logged. *)
Lemma prepare_entries builtins imported module_dict p :
  prepare R module_name
    unwrapped_runtime_functions_to_named_function_definitions
    unwrap_object runtime_term_of_unwrapped_runtime_function
    NotImplementedType builtins imported module_dict p
  = let q :=
      add_dummy_definition_nodes
        (dummy_entries R module_name
           unwrapped_runtime_functions_to_named_function_definitions
           unwrap_object runtime_term_of_unwrapped_runtime_function
           NotImplementedType builtins imported module_dict) p in
    mkPreparation (prepared_state q) (names_to_dummy_definition_nodes q)
      (next_node q)
      (unmatched p
       ++ omap (fun item : string * runtime_object =>
                  match
                    imported_term
                      unwrapped_runtime_functions_to_named_function_definitions
                      unwrap_object
                      runtime_term_of_unwrapped_runtime_function item.2
                  with
                  | Some _ => None
                  | None => Some item.1
                  end) imported).
Proof.
  unfold prepare, dummy_entries.
  rewrite builtins_loop, singletons_loop, imports_loop, own_classes_loop.
  rewrite !add_dummy_definition_nodes_app.
  set (p2 := add_dummy_definition_nodes _ (add_dummy_definition_nodes _ p)).
  assert (Hu : unmatched p2 = unmatched p).
  { unfold p2.
    destruct (add_dummy_definition_nodes_keeps
                (map (fun item : string * RuntimeClass =>
                        (item.1, TInstance (mkInstance item.2)))
                   (singletons NotImplementedType))
                (add_dummy_definition_nodes
                   (omap (builtin_term unwrap_object
                            runtime_term_of_unwrapped_runtime_function)
                      builtins) p)) as (-> & _).
    by destruct (add_dummy_definition_nodes_keeps
                   (omap (builtin_term unwrap_object
                            runtime_term_of_unwrapped_runtime_function)
                      builtins) p) as (-> & _). }
  rewrite Hu. cbv zeta.
  set (q3 := add_dummy_definition_nodes _ p2).
  destruct q3 as [s names nx l] eqn:E. simpl.
  by rewrite (add_dummy_definition_nodes_unmatched _ s names nx l).
Qed.

(** X18. What the loops leave behind, when no node of the store is as new as
    the nodes still to be made: every name that the loops enter has a
    dummy definition node whose term set is the single term of the last
    entry made for that name; the other names keep the node they had;
    the term sets of the nodes there were stay as they were; nothing is
    printed; and the imported names with no runtime term are logged in
    order. *)
Theorem dummy_definition_nodes_of_names
    (builtins imported module_dict : list (string * runtime_object))
    (p : preparation)
    (Hfresh : forall k,
        is_Some (node_runtime_terms (prepared_state p) !! k) ->
        (k < next_node p)%positive) :
  let entries :=
    dummy_entries R module_name
      unwrapped_runtime_functions_to_named_function_definitions
      unwrap_object runtime_term_of_unwrapped_runtime_function
      NotImplementedType builtins imported module_dict in
  let p' :=
    prepare R module_name
      unwrapped_runtime_functions_to_named_function_definitions
      unwrap_object runtime_term_of_unwrapped_runtime_function
      NotImplementedType builtins imported module_dict p in
  (forall before name t after,
      entries = before ++ (name, t) :: after ->
      name ∉ after.*1 ->
      exists d,
        names_to_dummy_definition_nodes p' !! name = Some d
        /\ get_runtime_terms (node_runtime_terms (prepared_state p')) d
           = {[ t ]}
        /\ (next_node p <= d)%positive)
  /\ (forall name,
         name ∉ entries.*1 ->
         names_to_dummy_definition_nodes p' !! name
         = names_to_dummy_definition_nodes p !! name)
  /\ (forall k,
         (k < next_node p)%positive ->
         get_runtime_terms (node_runtime_terms (prepared_state p')) k
         = get_runtime_terms (node_runtime_terms (prepared_state p)) k)
  /\ stdout (prepared_state p') = stdout (prepared_state p)
  /\ unmatched p'
     = unmatched p
       ++ omap (fun item : string * runtime_object =>
                  match
                    imported_term
                      unwrapped_runtime_functions_to_named_function_definitions
                      unwrap_object
                      runtime_term_of_unwrapped_runtime_function item.2
                  with
                  | Some _ => None
                  | None => Some item.1
                  end) imported.
Proof.
  intros entries p'. unfold p'. rewrite prepare_entries. fold entries.
  cbv zeta. cbn [prepared_state names_to_dummy_definition_nodes next_node
                   unmatched].
  split; [|split; [|split; [|split]]].
  - intros before name t after Hes Hafter.
    by eapply add_dummy_definition_nodes_last.
  - intros name Hname. by apply add_dummy_definition_nodes_other.
  - intros k Hk. unfold get_runtime_terms.
    by rewrite add_dummy_definition_nodes_frame.
  - by destruct (add_dummy_definition_nodes_keeps entries p) as (_ & -> & _).
  - done.
Qed.

Lemma own_class_term_name item name t :
  own_class_term R module_name unwrap_object item = Some (name, t) ->
  name = item.1.
Proof.
  unfold own_class_term. destruct (unwrap_object item.2); try done.
  case_decide; [|done]. by intros [= <- _].
Qed.

(** X19. A class that the module defines takes the name it is bound to in the
    module, whatever the builtins and the imports of that name are: the
    name's dummy definition node carries the class and nothing else. *)
Theorem own_class_shadows
    (builtins imported module_dict : list (string * runtime_object))
    (p : preparation) (before after : list (string * runtime_object))
    (name : string) (object : runtime_object) (c : RuntimeClass)
    (Hfresh : forall k,
        is_Some (node_runtime_terms (prepared_state p) !! k) ->
        (k < next_node p)%positive)
    (Hdict : module_dict = before ++ (name, object) :: after)
    (Hkeys : NoDup module_dict.*1)
    (Hclass : unwrap_object object = ObjClass c)
    (Hmodule : class_module R c = Some module_name) :
  exists d,
    names_to_dummy_definition_nodes
      (prepare R module_name
         unwrapped_runtime_functions_to_named_function_definitions
         unwrap_object runtime_term_of_unwrapped_runtime_function
         NotImplementedType builtins imported module_dict p) !! name
    = Some d
    /\ get_runtime_terms
         (node_runtime_terms
            (prepared_state
               (prepare R module_name
                  unwrapped_runtime_functions_to_named_function_definitions
                  unwrap_object runtime_term_of_unwrapped_runtime_function
                  NotImplementedType builtins imported module_dict p)))
         d
       = {[ TRuntimeClass c ]}.
Proof.
  rewrite prepare_entries. cbv zeta.
  cbn [prepared_state names_to_dummy_definition_nodes].
  edestruct (add_dummy_definition_nodes_last
               (dummy_entries R module_name
                  unwrapped_runtime_functions_to_named_function_definitions
                  unwrap_object runtime_term_of_unwrapped_runtime_function
                  NotImplementedType builtins imported module_dict)
               p
               (omap (builtin_term unwrap_object
                        runtime_term_of_unwrapped_runtime_function) builtins
                ++ map (fun item : string * RuntimeClass =>
                          (item.1, TInstance (mkInstance item.2)))
                     (singletons NotImplementedType)
                ++ omap (fun item : string * runtime_object =>
                           match
                             imported_term
                               unwrapped_runtime_functions_to_named_function_definitions
                               unwrap_object
                               runtime_term_of_unwrapped_runtime_function
                               item.2
                           with
                           | Some t => Some (item.1, t)
                           | None => None
                           end) imported
                ++ omap (own_class_term R module_name unwrap_object) before)
               name (TRuntimeClass c)
               (omap (own_class_term R module_name unwrap_object) after))
    as (d & Hd & Hterms & _).
  - exact Hfresh.
  - assert (Hterm : own_class_term R module_name unwrap_object (name, object)
                    = Some (name, TRuntimeClass c)).
    { unfold own_class_term. simpl. rewrite Hclass.
      by destruct (decide (class_module R c = Some module_name)). }
    assert (Hsplit :
              omap (own_class_term R module_name unwrap_object) module_dict
              = omap (own_class_term R module_name unwrap_object) before
                ++ (name, TRuntimeClass c)
                   :: omap (own_class_term R module_name unwrap_object) after).
    { rewrite Hdict, omap_app. simpl. by rewrite Hterm. }
    unfold dummy_entries. rewrite Hsplit. by rewrite !app_assoc.
  - rewrite Hdict, fmap_app in Hkeys.
    apply NoDup_app in Hkeys as (_ & _ & Hkeys). simpl in Hkeys.
    apply NoDup_cons in Hkeys as [Hname _].
    intros Hin. apply Hname.
    apply list_elem_of_fmap in Hin as ([name' t] & -> & Hin).
    apply list_elem_of_omap in Hin as (item & Hitem & Hterm).
    apply own_class_term_name in Hterm. simpl in Hterm. subst name'.
    apply list_elem_of_fmap. by exists item.
  - by exists d.
Qed.

Lemma builtin_term_name item name t :
  builtin_term unwrap_object runtime_term_of_unwrapped_runtime_function item
  = Some (name, t) ->
  name = item.1 /\ String.prefix "_" name = false.
Proof.
  unfold builtin_term.
  destruct (String.prefix "_" item.1) eqn:E; simpl; [done|].
  destruct (unwrap_object item.2); try done; by intros [= <- _].
Qed.

(** X20. A name that starts with an underscore gets no dummy definition node
    from the builtins, whatever the builtin is: unless the module
    imports the name or binds it itself, it keeps what it had. *)
Theorem private_builtin_gets_no_node
    (builtins imported module_dict : list (string * runtime_object))
    (p : preparation) (name : string)
    (Hprivate : String.prefix "_" name = true)
    (Himported : name ∉ imported.*1)
    (Hmodule : name ∉ module_dict.*1) :
  names_to_dummy_definition_nodes
    (prepare R module_name
       unwrapped_runtime_functions_to_named_function_definitions
       unwrap_object runtime_term_of_unwrapped_runtime_function
       NotImplementedType builtins imported module_dict p) !! name
  = names_to_dummy_definition_nodes p !! name.
Proof.
  rewrite prepare_entries. cbv zeta. cbn [names_to_dummy_definition_nodes].
  apply add_dummy_definition_nodes_other.
  unfold dummy_entries. rewrite !fmap_app, !elem_of_app.
  intros [Hin|[Hin|[Hin|Hin]]].
  - apply list_elem_of_fmap in Hin as ([name' t] & -> & Hin).
    apply list_elem_of_omap in Hin as (item & _ & Hterm).
    apply builtin_term_name in Hterm as [_ Hterm]. simpl in Hprivate.
    congruence.
  - simpl in Hin.
    repeat (apply elem_of_cons in Hin as [->|Hin]; [discriminate|]).
    by apply elem_of_nil in Hin.
  - apply Himported.
    apply list_elem_of_fmap in Hin as ([name' t] & -> & Hin).
    apply list_elem_of_omap in Hin as ([name'' object] & Hitem & Hterm).
    simpl in Hterm. destruct (imported_term _ _ _ object); [|done].
    injection Hterm as -> _. simpl.
    apply list_elem_of_fmap. by exists (name', object).
  - apply Hmodule.
    apply list_elem_of_fmap in Hin as ([name' t] & -> & Hin).
    apply list_elem_of_omap in Hin as (item & Hitem & Hterm).
    apply own_class_term_name in Hterm. simpl in *. subst name'.
    apply list_elem_of_fmap. by exists item.
Qed.

(** X21. The loops make one new node for every entry, also for a name they
    enter again: the store is seeded with the entries' terms at
    consecutive new nodes, no two of them the same, and the names are
    bound to these nodes in order, a later entry of a name replacing an
    earlier one. *)
Theorem prepare_seeds_new_nodes
    (builtins imported module_dict : list (string * runtime_object))
    (p : preparation) :
  let entries :=
    dummy_entries R module_name
      unwrapped_runtime_functions_to_named_function_definitions
      unwrap_object runtime_term_of_unwrapped_runtime_function
      NotImplementedType builtins imported module_dict in
  let p' :=
    prepare R module_name
      unwrapped_runtime_functions_to_named_function_definitions
      unwrap_object runtime_term_of_unwrapped_runtime_function
      NotImplementedType builtins imported module_dict p in
  let nodes := consecutive (next_node p) (length entries) in
  prepared_state p'
  = seed_dummy_definition_nodes (zip nodes entries.*2) (prepared_state p)
  /\ names_to_dummy_definition_nodes p'
     = fold_left (fun names entry => <[entry.1 := entry.2]> names)
         (zip entries.*1 nodes) (names_to_dummy_definition_nodes p)
  /\ NoDup nodes
  /\ (forall d, d ∈ nodes -> (next_node p <= d)%positive).
Proof.
  intros entries p' nodes. unfold p'. rewrite prepare_entries. fold entries.
  cbv zeta. cbn [prepared_state names_to_dummy_definition_nodes].
  destruct (add_dummy_definition_nodes_seed entries p) as [Hs Hn].
  split; [exact Hs|]. split; [exact Hn|].
  split; [apply consecutive_NoDup|]. intros d. apply consecutive_from.
Qed.

End PreparationProperties.

(** ** The further properties on the example modules *)

(** [missing()] in [Dispatch]: nothing happens. *)
Lemma call_of_unresolved_callee_witness :
  handle_local_syntax_directed_typing_constraints_callback
    Dispatch.runtime "m" ∅ Dispatch.unwrapped_to_named
    Dispatch.named_to_unwrapped ∅ [] Dispatch.call_missing Dispatch.scope
    Dispatch.before
  = Done Dispatch.before.
Proof.
  assert (Hterms : get_runtime_terms_of_definition_node ∅
                     Dispatch.missing_name Dispatch.before = ∅)
    by by_computation.
  apply (call_of_unresolved_callee Dispatch.runtime "m" ∅
           Dispatch.unwrapped_to_named Dispatch.named_to_unwrapped ∅
           19%positive (Some 9) (Some 9) Dispatch.missing_name Dispatch.scope
           Dispatch.before).
  - exact Hterms.
  - runs_with Hterms.
Defined.

(** [g()] in [Dispatch]: at most one line is printed. *)
Lemma call_stores_and_prints_witness :
  exists s' new,
    handle_local_syntax_directed_typing_constraints_callback
      Dispatch.runtime "m" ∅ Dispatch.unwrapped_to_named
      Dispatch.named_to_unwrapped ∅ [TInstance (mkInstance Dispatch.Greeter)]
      Dispatch.call_g Dispatch.scope Dispatch.before
    = Done s'
    /\ stdout s' = stdout Dispatch.before ++ new
    /\ (length new <= 1)%nat.
Proof.
  assert (Hterms : get_runtime_terms_of_definition_node ∅ Dispatch.g
                     Dispatch.before
                   = {[ TInstance (mkInstance Dispatch.Greeter) ]})
    by by_computation.
  destruct (call_stores_and_prints Dispatch.runtime "m" ∅
              Dispatch.unwrapped_to_named Dispatch.named_to_unwrapped ∅
              13%positive (Some 6) (Some 6) Dispatch.g Dispatch.scope
              Dispatch.before
              (handle_local_syntax_directed_typing_constraints_callback
                 Dispatch.runtime "m" ∅ Dispatch.unwrapped_to_named
                 Dispatch.named_to_unwrapped ∅
                 [TInstance (mkInstance Dispatch.Greeter)]
                 Dispatch.call_g Dispatch.scope Dispatch.before))
    as (s' & new & Hdone & Hout & _ & Hlen & _).
  - by_computation.
  - runs_with Hterms.
  - exists s', new. split; [exact Hdone|]. split; [exact Hout|].
    rewrite Hterms, size_singleton in Hlen. exact Hlen.
Defined.

(** The pass over [Scenario]: every record it prints has [m] as caller
    module. *)
Lemma printed_records_well_formed_witness :
  exists new,
    stdout
      (state_of
         (modified_handle_local_syntax_directed_typing_constraints
            Scenario.runtime "m" ∅ Scenario.unwrapped_to_named
            Scenario.named_to_unwrapped Scenario.definition_mapping
            Scenario.visits Scenario.initial))
    = stdout Scenario.initial ++ new
    /\ forall r, r ∈ new -> caller_module_name r = "m".
Proof.
  destruct (printed_records_well_formed Scenario.runtime "m" ∅
              Scenario.unwrapped_to_named Scenario.named_to_unwrapped
              Scenario.definition_mapping Scenario.visits Scenario.initial
              _ (pass_runs_function Scenario.runtime "m" ∅
                   Scenario.unwrapped_to_named Scenario.named_to_unwrapped
                   Scenario.definition_mapping Scenario.visits
                   Scenario.initial))
    as (new & Hout & Hnew).
  exists new. split; [exact Hout|].
  intros r Hr. by destruct (Hnew r Hr) as (_ & _ & _ & H & _).
Defined.

(** [Greeter.greet(g)] in [Dispatch]: one record, under [Greeter]. *)
Lemma call_of_method_witness :
  handle_local_syntax_directed_typing_constraints_callback
    Dispatch.runtime "m" ∅ Dispatch.unwrapped_to_named
    Dispatch.named_to_unwrapped ∅
    [TUnboundMethod Dispatch.Greeter (FunctionDefinition Dispatch.greet_def)]
    Dispatch.call_Greeter_greet Dispatch.scope Dispatch.before
  = Done
      (print
         (record_of Dispatch.runtime "m" "m" "Greeter" "greet"
            Dispatch.greet_function Dispatch.call_Greeter_greet
            Dispatch.scope)
         Dispatch.before).
Proof.
  assert (Hterms : get_runtime_terms_of_definition_node ∅
                     Dispatch.Greeter_greet Dispatch.before
                   = {[ TUnboundMethod Dispatch.Greeter
                          (FunctionDefinition Dispatch.greet_def) ]})
    by by_computation.
  apply (call_of_method Dispatch.runtime "m" ∅
           Dispatch.unwrapped_to_named Dispatch.named_to_unwrapped ∅
           15%positive (Some 7) (Some 7) Dispatch.Greeter_greet Dispatch.scope
           Dispatch.before
           (TUnboundMethod Dispatch.Greeter
              (FunctionDefinition Dispatch.greet_def))
           Dispatch.Greeter (FunctionDefinition Dispatch.greet_def)
           Dispatch.greet_function "m").
  - exact Hterms.
  - by left.
  - by_computation.
  - reflexivity.
  - discriminate.
  - discriminate.
  - discriminate.
  - runs_with Hterms.
Defined.

(** [g()] in [Dispatch]: one record, under [Greeter.__call__]. *)
Lemma call_of_instance_witness :
  handle_local_syntax_directed_typing_constraints_callback
    Dispatch.runtime "m" ∅ Dispatch.unwrapped_to_named
    Dispatch.named_to_unwrapped ∅ [TInstance (mkInstance Dispatch.Greeter)]
    Dispatch.call_g Dispatch.scope Dispatch.before
  = Done
      (print
         (record_of Dispatch.runtime "m" "m" "Greeter" "__call__"
            Dispatch.call_function Dispatch.call_g Dispatch.scope)
         Dispatch.before).
Proof.
  assert (Hterms : get_runtime_terms_of_definition_node ∅ Dispatch.g
                     Dispatch.before
                   = {[ TInstance (mkInstance Dispatch.Greeter) ]})
    by by_computation.
  destruct (call_of_instance Dispatch.runtime "m" ∅
              Dispatch.unwrapped_to_named Dispatch.named_to_unwrapped ∅
              13%positive (Some 6) (Some 6) Dispatch.g Dispatch.scope
              Dispatch.before Dispatch.Greeter
              (handle_local_syntax_directed_typing_constraints_callback
                 Dispatch.runtime "m" ∅ Dispatch.unwrapped_to_named
                 Dispatch.named_to_unwrapped ∅
                 [TInstance (mkInstance Dispatch.Greeter)]
                 Dispatch.call_g Dispatch.scope Dispatch.before))
    as (Hcall & _ & _).
  - exact Hterms.
  - runs_with Hterms.
  - apply (Hcall Dispatch.call_function "m").
    + by_computation.
    + by_computation.
    + reflexivity.
    + discriminate.
    + discriminate.
    + discriminate.
Defined.

(** [os()] in [Dispatch]: nothing happens. *)
Lemma call_of_unknown_callee_witness :
  handle_local_syntax_directed_typing_constraints_callback
    Dispatch.runtime "m" ∅ Dispatch.unwrapped_to_named
    Dispatch.named_to_unwrapped ∅ [TModule Dispatch.os_module]
    Dispatch.call_os Dispatch.scope Dispatch.before
  = Done Dispatch.before.
Proof.
  assert (Hterms : get_runtime_terms_of_definition_node ∅ Dispatch.os_name
                     Dispatch.before
                   = {[ TModule Dispatch.os_module ]})
    by by_computation.
  apply (call_of_unknown_callee Dispatch.runtime "m" ∅
           Dispatch.unwrapped_to_named Dispatch.named_to_unwrapped ∅
           17%positive (Some 8) (Some 8) Dispatch.os_name Dispatch.scope
           Dispatch.before (TModule Dispatch.os_module)).
  - exact Hterms.
  - exact I.
  - runs_with Hterms.
Defined.

(** [g.greet] in [Dispatch]: the node gains the bound method. *)
Lemma attribute_access_witness :
  exists s',
    handle_local_syntax_directed_typing_constraints_callback
      Dispatch.runtime "m" ∅ Dispatch.unwrapped_to_named
      Dispatch.named_to_unwrapped ∅ [TInstance (mkInstance Dispatch.Greeter)]
      Dispatch.g_greet Dispatch.scope Dispatch.before
    = Done s'
    /\ stdout s' = stdout Dispatch.before
    /\ TBoundMethod (mkInstance Dispatch.Greeter)
         (FunctionDefinition Dispatch.greet_def)
       ∈ get_runtime_terms (node_runtime_terms s') 11.
Proof.
  assert (Hterms : get_runtime_terms_of_definition_node ∅ Dispatch.g
                     Dispatch.before
                   = {[ TInstance (mkInstance Dispatch.Greeter) ]})
    by by_computation.
  destruct (attribute_access Dispatch.runtime "m" ∅
              Dispatch.unwrapped_to_named Dispatch.named_to_unwrapped ∅
              11%positive (Some 5) (Some 5) Dispatch.g "greet" Dispatch.scope
              Dispatch.before
              (handle_local_syntax_directed_typing_constraints_callback
                 Dispatch.runtime "m" ∅ Dispatch.unwrapped_to_named
                 Dispatch.named_to_unwrapped ∅
                 [TInstance (mkInstance Dispatch.Greeter)]
                 Dispatch.g_greet Dispatch.scope Dispatch.before))
    as (s' & Hdone & Hout & Hstore).
  - runs_with Hterms.
  - exists s'. split; [exact Hdone|]. split; [exact Hout|].
    apply Hstore. right. split; [by_computation|].
    exists (TInstance (mkInstance Dispatch.Greeter)).
    split; [|reflexivity]. rewrite Hterms. by apply elem_of_singleton.
Defined.

(** [a = A()] after the visits of [Construction]: the target ends with
    [{Instance(A)}]. *)
Lemma instantiation_then_assignment_witness :
  exists s1 s2,
    handle_local_syntax_directed_typing_constraints_callback
      (Construction.runtime "A") "m" Construction.classes
      Construction.unwrapped_to_named Construction.named_to_unwrapped
      Construction.definition_mapping [TRuntimeClass Construction.A]
      Construction.call Construction.scope Construction.before_call
    = Done s1
    /\ handle_local_syntax_directed_typing_constraints_callback
         (Construction.runtime "A") "m" Construction.classes
         Construction.unwrapped_to_named Construction.named_to_unwrapped
         Construction.definition_mapping []
         (mkAst 8 (Some 4) (Some 4) (ast_Assign [7%positive] 6%positive))
         Construction.scope s1
       = Done s2
    /\ get_runtime_terms_of_definition_node Construction.definition_mapping
         7 s2
       = {[ TInstance (mkInstance Construction.A) ]}.
Proof.
  assert (Hterms : get_runtime_terms_of_definition_node
                     Construction.definition_mapping 5
                     Construction.before_call
                   = {[ TRuntimeClass Construction.A ]})
    by by_computation.
  destruct (instantiation_then_assignment (Construction.runtime "A") "m"
              Construction.classes Construction.unwrapped_to_named
              Construction.named_to_unwrapped Construction.definition_mapping
              6%positive (Some 4) (Some 4) 5%positive Construction.scope
              Construction.before_call Construction.A
              8%positive (Some 4) (Some 4) 7%positive Construction.scope []
              (handle_local_syntax_directed_typing_constraints_callback
                 (Construction.runtime "A") "m" Construction.classes
                 Construction.unwrapped_to_named
                 Construction.named_to_unwrapped
                 Construction.definition_mapping
                 [TRuntimeClass Construction.A]
                 Construction.call Construction.scope
                 Construction.before_call))
    as (s1 & s2 & Hcall & Hassign & _ & Htarget & _).
  - exact Hterms.
  - by_computation.
  - by_computation.
  - by_computation.
  - runs_with Hterms.
  - exists s1, s2. split; [exact Hcall|]. split; [exact Hassign|exact Htarget].
Defined.

(** [g.greet()] in [Dispatch]: the access, then the call, which prints
    one record under [Greeter]. *)
Lemma attribute_then_call_witness :
  exists s1,
    handle_local_syntax_directed_typing_constraints_callback
      Dispatch.runtime "m" ∅ Dispatch.unwrapped_to_named
      Dispatch.named_to_unwrapped ∅ [TInstance (mkInstance Dispatch.Greeter)]
      Dispatch.g_greet Dispatch.scope Dispatch.before
    = Done s1
    /\ handle_local_syntax_directed_typing_constraints_callback
         Dispatch.runtime "m" ∅ Dispatch.unwrapped_to_named
         Dispatch.named_to_unwrapped ∅
         [TBoundMethod (mkInstance Dispatch.Greeter)
            (FunctionDefinition Dispatch.greet_def)]
         Dispatch.call_g_greet Dispatch.scope Dispatch.after_access
       = Done
           (print
              (record_of Dispatch.runtime "m" "m" "Greeter" "greet"
                 Dispatch.greet_function Dispatch.call_g_greet
                 Dispatch.scope)
              s1).
Proof.
  assert (Hterms : get_runtime_terms_of_definition_node ∅ Dispatch.g
                     Dispatch.before
                   = {[ TInstance (mkInstance Dispatch.Greeter) ]})
    by by_computation.
  assert (Hafter : get_runtime_terms_of_definition_node ∅ 11
                     Dispatch.after_access
                   = {[ TBoundMethod (mkInstance Dispatch.Greeter)
                          (FunctionDefinition Dispatch.greet_def) ]})
    by by_computation.
  destruct (attribute_then_call Dispatch.runtime "m" ∅
              Dispatch.unwrapped_to_named Dispatch.named_to_unwrapped ∅
              11%positive (Some 5) (Some 5) Dispatch.g "greet" Dispatch.scope
              Dispatch.before Dispatch.Greeter
              (FunctionDefinition Dispatch.greet_def) Dispatch.greet_function
              "m" 12%positive (Some 5) (Some 5) Dispatch.scope
              (handle_local_syntax_directed_typing_constraints_callback
                 Dispatch.runtime "m" ∅ Dispatch.unwrapped_to_named
                 Dispatch.named_to_unwrapped ∅
                 [TInstance (mkInstance Dispatch.Greeter)]
                 Dispatch.g_greet Dispatch.scope Dispatch.before)
              (handle_local_syntax_directed_typing_constraints_callback
                 Dispatch.runtime "m" ∅ Dispatch.unwrapped_to_named
                 Dispatch.named_to_unwrapped ∅
                 [TBoundMethod (mkInstance Dispatch.Greeter)
                    (FunctionDefinition Dispatch.greet_def)]
                 Dispatch.call_g_greet Dispatch.scope Dispatch.after_access))
    as (s1 & Haccess & _ & _ & Hcall).
  - exact Hterms.
  - reflexivity.
  - by_computation.
  - by_computation.
  - reflexivity.
  - discriminate.
  - discriminate.
  - discriminate.
  - runs_with Hterms.
  - fold Dispatch.after_access. runs_with Hafter.
  - exists s1. split; [exact Haccess|exact Hcall].
Defined.

(** The pass over [Scenario]: [foo] is defined, then called in [bar]. *)
Lemma definition_then_call_witness :
  exists s_mid,
    modified_handle_local_syntax_directed_typing_constraints
      Scenario.runtime "m" ∅ Scenario.unwrapped_to_named
      Scenario.named_to_unwrapped Scenario.definition_mapping
      Scenario.visits Scenario.initial
    = Done
        (print
           (record_of Scenario.runtime "m" "m" "global" "foo"
              Scenario.foo_function Scenario.call
              [Scenario.module_node; Scenario.bar_def])
           s_mid).
Proof.
  destruct (definition_then_call Scenario.runtime "m" ∅
              Scenario.unwrapped_to_named Scenario.named_to_unwrapped
              Scenario.definition_mapping
              Scenario.foo_def "foo" [Scenario.module_node]
              [ (Scenario.bar_def, [Scenario.module_node]);
                (Scenario.foo_use, [Scenario.module_node; Scenario.bar_def]);
                (Scenario.one, [Scenario.module_node; Scenario.bar_def]) ]
              4%positive (Some 5) (Some 5) 5%positive
              [Scenario.module_node; Scenario.bar_def] Scenario.initial
              Scenario.foo_function "m"
              (modified_handle_local_syntax_directed_typing_constraints
                 Scenario.runtime "m" ∅ Scenario.unwrapped_to_named
                 Scenario.named_to_unwrapped Scenario.definition_mapping
                 Scenario.visits Scenario.initial))
    as (s_mid & _ & Hcall).
  - by left.
  - by_computation.
  - by_computation.
  - intros n ss' w Hin Hw.
    apply elem_of_cons in Hin as [[= -> ->]|Hin].
    { apply list_elem_of_singleton in Hw as ->. by_computation. }
    apply elem_of_cons in Hin as [[= -> ->]|Hin].
    { by apply elem_of_nil in Hw. }
    apply elem_of_cons in Hin as [[= -> ->]|Hin].
    { apply list_elem_of_singleton in Hw as ->. by_computation. }
    by apply elem_of_nil in Hin.
  - unfold calls_apart. by repeat constructor.
  - by_computation.
  - reflexivity.
  - discriminate.
  - discriminate.
  - apply (pass_runs_function Scenario.runtime "m" ∅
             Scenario.unwrapped_to_named Scenario.named_to_unwrapped
             Scenario.definition_mapping Scenario.visits Scenario.initial).
  - by exists s_mid.
Defined.

(** The callee function chosen for [foo] in [Scenario] is one of the
    mapping. *)
Lemma callee_function_is_bridged_witness :
  is_Some
    ((list_to_map
        [ (Scenario.foo_function, 2%positive);
          (Scenario.bar_function, 3%positive) ] : gmap pyobj node)
     !! Scenario.foo_function).
Proof.
  apply (callee_function_is_bridged Scenario.runtime
           [ (Scenario.foo_function, 2%positive);
             (Scenario.bar_function, 3%positive) ]
           (TFunction (FunctionDefinition 2)) unset_callee_vars
           Scenario.foo_function).
  - by_computation.
  - intros u' Hu'. discriminate Hu'.
  - by_computation.
Defined.

(** The import loop over [a], a [setup.py] and [b], the import of [a]
    failing with [ModuleNotFoundError]: [b] alone is in the dictionaries
    and [a] alone is logged. *)
Lemma import_tables_content_witness :
  loaded_trees Faults.load_missing_dependency Names.items = [("b", tt)]
  /\ loaded_modules Faults.load_missing_dependency Names.items = [("b", tt)]
  /\ failed_modules Faults.load_missing_dependency Names.items = ["a"].
Proof.
  destruct (import_tables_content Faults.load_missing_dependency Names.items
              (mkTables [("b", tt)] [("b", tt)] ["a"]))
    as (Htrees & Hmodules & Hlogged & _).
  - by_computation.
  - reflexivity.
  - by rewrite <- Htrees, <- Hmodules, <- Hlogged.
Defined.

(** The names of [Names]: [greet] ends on a node that holds the function
    definition bridged to the imported function, and [pi], which is no
    module, class or function, is logged. *)
Lemma dummy_definition_nodes_of_names_witness :
  exists d,
    names_to_dummy_definition_nodes
      (prepare Names.runtime "m" Names.unwrapped_to_named
         (fun o => o) (fun f => f) Names.NotImplementedType
         Names.builtins Names.imported Names.module_dict Names.start)
    !! "greet" = Some d
    /\ get_runtime_terms
         (node_runtime_terms
            (prepared_state
               (prepare Names.runtime "m" Names.unwrapped_to_named
                  (fun o => o) (fun f => f) Names.NotImplementedType
                  Names.builtins Names.imported Names.module_dict
                  Names.start)))
         d
       = {[ TFunction (FunctionDefinition 3) ]}
    /\ unmatched
         (prepare Names.runtime "m" Names.unwrapped_to_named
            (fun o => o) (fun f => f) Names.NotImplementedType
            Names.builtins Names.imported Names.module_dict Names.start)
       = ["pi"].
Proof.
  destruct (dummy_definition_nodes_of_names Names.runtime "m"
              Names.unwrapped_to_named (fun o => o) (fun f => f)
              Names.NotImplementedType Names.builtins Names.imported
              Names.module_dict Names.start)
    as (Hlast & _ & _ & _ & Hlog).
  - intros k [x Hk].
    change ((∅ : gmap node (gset RuntimeTerm)) !! k = Some x) in Hk.
    by rewrite lookup_empty in Hk.
  - cbv zeta in Hlast.
    destruct (Hlast
                (take 8
                   (dummy_entries Names.runtime "m" Names.unwrapped_to_named
                      (fun o => o) (fun f => f) Names.NotImplementedType
                      Names.builtins Names.imported Names.module_dict))
                "greet" (TFunction (FunctionDefinition 3))
                (drop 9
                   (dummy_entries Names.runtime "m" Names.unwrapped_to_named
                      (fun o => o) (fun f => f) Names.NotImplementedType
                      Names.builtins Names.imported Names.module_dict)))
      as (d & Hd & Hterms & _).
    + by_computation.
    + by_computation.
    + exists d. split; [exact Hd|]. split; [exact Hterms|].
      rewrite Hlog. reflexivity.
Defined.

(** The names of [Names]: [Greeter] is imported and then defined by the
    module; its node holds the class of the module. *)
Lemma own_class_shadows_witness :
  exists d,
    names_to_dummy_definition_nodes
      (prepare Names.runtime "m" Names.unwrapped_to_named
         (fun o => o) (fun f => f) Names.NotImplementedType
         Names.builtins Names.imported Names.module_dict Names.start)
    !! "Greeter" = Some d
    /\ get_runtime_terms
         (node_runtime_terms
            (prepared_state
               (prepare Names.runtime "m" Names.unwrapped_to_named
                  (fun o => o) (fun f => f) Names.NotImplementedType
                  Names.builtins Names.imported Names.module_dict
                  Names.start)))
         d
       = {[ TRuntimeClass Names.own_Greeter ]}.
Proof.
  apply (own_class_shadows Names.runtime "m" Names.unwrapped_to_named
           (fun o => o) (fun f => f) Names.NotImplementedType
           Names.builtins Names.imported Names.module_dict Names.start
           [ ("__name__", ObjOther 601); ("os", ObjModule 500) ]
           [ ("greet", ObjFunction 120) ]
           "Greeter" (ObjClass Names.own_Greeter) Names.own_Greeter).
  - intros k [x Hk].
    change ((∅ : gmap node (gset RuntimeTerm)) !! k = Some x) in Hk.
    by rewrite lookup_empty in Hk.
  - reflexivity.
  - by_computation.
  - reflexivity.
  - reflexivity.
Defined.

(** The names of [Names]: the builtin [__import__] has no node. *)
Lemma private_builtin_gets_no_node_witness :
  names_to_dummy_definition_nodes
    (prepare Names.runtime "m" Names.unwrapped_to_named
       (fun o => o) (fun f => f) Names.NotImplementedType
       Names.builtins Names.imported Names.module_dict Names.start)
  !! "__import__" = None.
Proof.
  rewrite (private_builtin_gets_no_node Names.runtime "m"
             Names.unwrapped_to_named (fun o => o) (fun f => f)
             Names.NotImplementedType Names.builtins Names.imported
             Names.module_dict Names.start "__import__").
  - reflexivity.
  - reflexivity.
  - by_computation.
  - by_computation.
Defined.

(** The run over [a], a [setup.py] and [b], the import of [a] failing with
    [ModuleNotFoundError]: [b] alone is analysed. *)
Lemma main_analyses_loaded_modules_witness :
  main Faults.load_missing_dependency Faults.analyse Names.items
    Faults.initial
  = analysis_loop Faults.analyse [("b", tt)] Faults.initial.
Proof.
  rewrite (main_analyses_loaded_modules Faults.load_missing_dependency
             Faults.analyse Names.items Faults.initial
             (mkTables [("b", tt)] [("b", tt)] ["a"])).
  - reflexivity.
  - by_computation.
  - reflexivity.
Defined.
